(** * Provenance graph of docworkspace: Node and Workspace

    A shallow embedding of [docworkspace/node.py], [docworkspace/workspace.py]
    and of the parts of [docframe/core/docframe.py] they call.

    Conventions of the embedding.
    - A Python [Node] object is denoted by its [id]: [uuid4] ids are unique
      per object, so object identity ([is], [in] on lists of nodes) is
      equality of ids.  All node objects live in one heap, a finite map from
      ids to records; workspaces live in a second finite map.
    - A Python [dict] keyed by node id is the list of its keys in insertion
      order (the value stored under a key is always the node of that id).
    - The table engine (polars) is external.  Eager tables are concrete
      (named, typed columns of JSON-native cells); a lazy table is denoted by
      the schema it reports and by the outcome of collecting it.  Every other
      engine entry point is a field of the class [Engine].
    - Methods that may raise run in a state-and-exception monad [M]; a raise
      keeps the state reached so far, as in Python. *)

From stdpp Require Import gmap strings list fin_maps pretty sorting.

Set Default Proof Using "Type".
Open Scope string_scope.
Open Scope list_scope.
Open Scope nat_scope.

(** ** Exceptions *)

Inductive exn_class := AttributeError | TypeError | ValueError | OtherError.

Global Instance exn_class_eq_dec : EqDecision exn_class.
Proof. solve_decision. Defined.

Record exn := Raise { exn_cls : exn_class; exn_msg : string }.

Global Instance exn_eq_dec : EqDecision exn.
Proof. solve_decision. Defined.

(** ** Tables of the engine *)

Inductive dtype := Int64 | Float64 | Utf8 | Boolean | Date | Null.

Global Instance dtype_eq_dec : EqDecision dtype.
Proof. solve_decision. Defined.

Inductive cell := CNull | CInt (z : Z) | CStr (s : string) | CBool (b : bool).

Global Instance cell_eq_dec : EqDecision cell.
Proof. solve_decision. Defined.

Record column := Column { col_name : string; col_dtype : dtype; col_cells : list cell }.

Global Instance column_eq_dec : EqDecision column.
Proof. solve_decision. Defined.

(** [pl.DataFrame] *)
Definition DataFrame := list column.

Definition Schema := list (string * dtype).

Definition df_schema (df : DataFrame) : Schema :=
  map (fun c => (col_name c, col_dtype c)) df.

Definition df_columns (df : DataFrame) : list string := map col_name df.

Definition df_head (n : nat) (df : DataFrame) : DataFrame :=
  map (fun c => Column (col_name c) (col_dtype c) (take n (col_cells c))) df.

(** [pl.LazyFrame]: the schema [collect_schema()] reports and the outcome of
    [collect()]. *)
Record LazyFrame := LazyFrameOf {
  lf_collect_schema : exn + Schema;
  lf_collect : exn + DataFrame
}.

Global Instance LazyFrame_eq_dec : EqDecision LazyFrame.
Proof. solve_decision. Defined.

(** [pl.DataFrame.lazy()] *)
Definition df_lazy (df : DataFrame) : LazyFrame :=
  LazyFrameOf (inr (df_schema df)) (inr df).

(** [lf.head(n).collect()] *)
Definition lf_head_collect (n : nat) (lf : LazyFrame) : exn + DataFrame :=
  match lf_collect lf with
  | inr df => inr (df_head n df)
  | inl e => inl e
  end.

(** [schema[c]], with [c in schema] as [is_Some]. *)
Definition schema_lookup (s : Schema) (c : string) : option dtype :=
  match list_find (fun p => fst p = c) s with
  | Some (_, p) => Some (snd p)
  | None => None
  end.

(** ** docframe: document-designated tables *)

Record DocDataFrame := MkDocDataFrame {
  ddf_df : DataFrame;                      (* [_df] *)
  ddf_document_column_name : string        (* [_document_column_name] *)
}.

Record DocLazyFrame := MkDocLazyFrame {
  dlf_df : LazyFrame;                      (* [_df] *)
  dlf_document_column_name : option string (* [_document_column_name] *)
}.

Global Instance DocDataFrame_eq_dec : EqDecision DocDataFrame.
Proof. solve_decision. Defined.
Global Instance DocLazyFrame_eq_dec : EqDecision DocLazyFrame.
Proof. solve_decision. Defined.

(** [[col for col, dtype in schema.items() if dtype in (pl.Utf8, pl.String)]];
    [pl.String] is an alias of [pl.Utf8]. *)
Definition string_columns (s : Schema) : list string :=
  map fst (filter (fun p => snd p = Utf8) s).

(** Text is held as its UTF-8 encoding.  A byte of the form [10xxxxxx]
    continues a character begun by an earlier byte. *)
Definition is_continuation (a : Ascii.ascii) : bool :=
  match a with Ascii.Ascii _ _ _ _ _ _ b6 b7 => b7 && negb b6 end.

(** [str.len_chars()]: the number of characters (code points) of a string. *)
Fixpoint len_chars (s : string) : nat :=
  match s with
  | EmptyString => 0
  | String a s' => (if is_continuation a then 0 else 1) + len_chars s'
  end.

(** Mean of [str.len_chars()] over the non-null cells, as the exact fraction
    (sum, count) where the code has a float; [None] when there is no such
    cell. *)
Definition len_chars_mean (cells : list cell) : option (nat * nat) :=
  let lens := omap (fun c => match c with CStr s => Some (len_chars s) | _ => None end) cells in
  match lens with
  | [] => None
  | _ => Some (foldr Nat.add 0 lens, length lens)
  end.

(** [avg_length or 0] *)
Definition avg_or_0 (m : option (nat * nat)) : nat * nat :=
  match m with
  | Some (s, n) => (s, n)
  | None => (0, 1)
  end.

(** [a < b] on fractions with positive denominators. *)
Definition frac_ltb (a b : nat * nat) : bool :=
  Nat.ltb (fst a * snd b) (fst b * snd a).

(** Python's [max(keys, key=f)]: the first key of largest [f]. *)
Definition py_max_by {A} (f : A → nat * nat) (best : A) (rest : list A) : A :=
  foldl (fun b k => if frac_ltb (f b) (f k) then k else b) best rest.

Definition column_cells (df : DataFrame) (c : string) : list cell :=
  match list_find (fun col => col_name col = c) df with
  | Some (_, col) => col_cells col
  | None => []
  end.

(** The part of [guess_document_column] after the schema and the sample are
    obtained. *)
Definition guess_from (schema : Schema) (sample : exn + DataFrame) : exn + option string :=
  match string_columns schema with
  | [] => inr None
  | [c] => inr (Some c)
  | c :: rest =>
      match sample with
      | inl e => inl e
      | inr sample_df =>
          inr (Some (py_max_by (fun k => avg_or_0 (len_chars_mean (column_cells sample_df k))) c rest))
      end
  end.

Definition sample_size : nat := 1000.

(** [DocDataFrame.guess_document_column] on an eager table:
    [df.head(min(sample_size, len(df)))]. *)
Definition guess_document_column_df (df : DataFrame) : option string :=
  match guess_from (df_schema df) (inr (df_head sample_size df)) with
  | inr r => r
  | inl _ => None
  end.

(** [DocLazyFrame.guess_document_column] on a lazy table. *)
Definition guess_document_column_lf (lf : LazyFrame) : exn + option string :=
  match lf_collect_schema lf with
  | inl e => inl e
  | inr schema => guess_from schema (lf_head_collect sample_size lf)
  end.

(** [DocDataFrame.__init__(data: pl.DataFrame, document_column)] *)
Definition DocDataFrame_init (data : DataFrame) (document_column : option string)
  : exn + DocDataFrame :=
  let document_column :=
    match document_column with
    | Some c => c
    | None =>
        match guess_document_column_df data with
        | Some g => g
        | None => "document"
        end
    end in
  match schema_lookup (df_schema data) document_column with
  | None =>
      inl (Raise ValueError ("Document column '" +:+ document_column +:+ "' not found in data"))
  | Some ty =>
      if decide (ty = Utf8) then inr (MkDocDataFrame data document_column)
      else inl (Raise ValueError ("Column '" +:+ document_column +:+ "' is not a string column"))
  end.

(** [DocLazyFrame.__init__(data: pl.LazyFrame, document_column)] *)
Definition DocLazyFrame_init (data : LazyFrame) (document_column : option string)
  : exn + DocLazyFrame :=
  match document_column with
  | None =>
      match guess_document_column_lf data with
      | inl e => inl e
      | inr g => inr (MkDocLazyFrame data g)
      end
  | Some c =>
      match lf_collect_schema data with
      | inl e => inl e
      | inr schema =>
          match schema_lookup schema c with
          | None =>
              inl (Raise ValueError ("Document column '" +:+ c +:+ "' not found in LazyFrame"))
          | Some ty =>
              if decide (ty = Utf8) then inr (MkDocLazyFrame data (Some c))
              else inl (Raise ValueError ("Column '" +:+ c +:+ "' is not a string column"))
          end
      end
  end.

(** [DocLazyFrame.collect] *)
Definition DocLazyFrame_collect (d : DocLazyFrame) : exn + DocDataFrame :=
  match lf_collect (dlf_df d) with
  | inl e => inl e
  | inr collected_df => DocDataFrame_init collected_df (dlf_document_column_name d)
  end.

(** ** The four kinds of data a node wraps *)

Inductive Data :=
| PlDataFrame (df : DataFrame)
| PlLazyFrame (lf : LazyFrame)
| DocDF (d : DocDataFrame)
| DocLF (d : DocLazyFrame).

Global Instance Data_eq_dec : EqDecision Data.
Proof. solve_decision. Defined.

(** [Node.is_lazy] *)
Definition is_lazy (d : Data) : bool :=
  match d with
  | PlLazyFrame _ | DocLF _ => true
  | PlDataFrame _ | DocDF _ => false
  end.

(** [isinstance(data, (DocDataFrame, DocLazyFrame))] *)
Definition is_doc (d : Data) : bool :=
  match d with
  | DocDF _ | DocLF _ => true
  | PlDataFrame _ | PlLazyFrame _ => false
  end.

(** [type(data).__name__] *)
Definition type_name (d : Data) : string :=
  match d with
  | PlDataFrame _ => "DataFrame"
  | PlLazyFrame _ => "LazyFrame"
  | DocDF _ => "DocDataFrame"
  | DocLF _ => "DocLazyFrame"
  end.

(** [data.collect()] on the lazy kinds; the eager kinds have no such call in
    the paths below (they are guarded by [is_lazy]). *)
Definition data_collect (d : Data) : exn + Data :=
  match d with
  | PlLazyFrame lf =>
      match lf_collect lf with inl e => inl e | inr df => inr (PlDataFrame df) end
  | DocLF dl =>
      match DocLazyFrame_collect dl with inl e => inl e | inr dd => inr (DocDF dd) end
  | PlDataFrame _ | DocDF _ =>
      inl (Raise AttributeError "object has no attribute 'collect'")
  end.

(** ** Values exchanged with the engine *)

Inductive pyval :=
| VNone
| VBool (b : bool)
| VInt (z : Z)
| VStr (s : string)
| VExpr (repr : string)                       (* an engine expression, e.g. a filter predicate *)
| VSlice (start stop : option Z)              (* a Python [slice] object *)
| VStrs (l : list string).

Record Args := MkArgs { positional : list pyval; keywords : list (string * pyval) }.

(** An intermediate engine object ([GroupBy], [Rolling], ...). *)
Definition Handle := string.

(** What a call on the wrapped object may return, by runtime shape. *)
Inductive engine_result :=
| ResData (d : Data)                 (* one of the four kinds *)
| ResSeries (c : column)             (* [pl.Series] *)
| ResIntermediate (h : Handle)       (* another object from the polars module *)
| ResOther (v : pyval).              (* anything else *)

(** [getattr(obj, name)] by shape: absent, a plain attribute, or a callable. *)
Inductive attr_kind :=
| NoAttr
| PlainAttr (v : engine_result)
| Method.

(** The engine entry points the wrapper code calls. *)
Class Engine := {
  (** [pl.DataFrame.join(other, kwargs)] *)
  pl_df_join : DataFrame → Data → Args → exn + DataFrame;
  (** [pl.LazyFrame.join(other, kwargs)] *)
  pl_lf_join : LazyFrame → Data → Args → exn + LazyFrame;
  (** [getattr] on the wrapped object and the call of a callable attribute *)
  data_getattr : Data → string → attr_kind;
  data_invoke : Data → string → Args → exn + engine_result;
  (** the same on an intermediate object *)
  handle_getattr : Handle → string → attr_kind;
  handle_invoke : Handle → string → Args → exn + engine_result;
  (** [pl.DataFrame(d)] on a dict of column lists *)
  pl_from_dict : list (string * list cell) → exn + DataFrame
}.

(** ** Nodes, workspaces and the object store *)

Definition node_id := nat.
Definition ws_id := nat.

Record Node := MkNode {
  name : string;
  data : Data;
  parents : list node_id;
  children : list node_id;
  workspace : ws_id;
  operation : option string
}.

Record Workspace := MkWorkspace {
  ws_name : string;
  nodes : list node_id;                 (* keys of [self.nodes], insertion order *)
  ws_metadata : list (string * string)  (* [_metadata] *)
}.

Record State := MkState {
  heap : gmap node_id Node;
  spaces : gmap ws_id Workspace
}.

Definition set_data (d : Data) (n : Node) : Node :=
  MkNode (name n) d (parents n) (children n) (workspace n) (operation n).
Definition set_children (c : list node_id) (n : Node) : Node :=
  MkNode (name n) (data n) (parents n) c (workspace n) (operation n).
Definition set_parents (p : list node_id) (n : Node) : Node :=
  MkNode (name n) (data n) p (children n) (workspace n) (operation n).
Definition set_workspace (w : ws_id) (n : Node) : Node :=
  MkNode (name n) (data n) (parents n) (children n) w (operation n).
Definition set_nodes (l : list node_id) (w : Workspace) : Workspace :=
  MkWorkspace (ws_name w) l (ws_metadata w).

Definition upd_node (f : Node → Node) (i : node_id) (s : State) : State :=
  MkState (alter f i (heap s)) (spaces s).
Definition upd_ws (f : Workspace → Workspace) (w : ws_id) (s : State) : State :=
  MkState (heap s) (alter f w (spaces s)).

(** Reads through a reference.  A reference always denotes an allocated
    object in Python; the defaults below are never observed on such states. *)
Definition ws_nodes (w : ws_id) (s : State) : list node_id :=
  match spaces s !! w with Some ws => nodes ws | None => [] end.
Definition node_children (i : node_id) (s : State) : list node_id :=
  match heap s !! i with Some n => children n | None => [] end.
Definition node_parents (i : node_id) (s : State) : list node_id :=
  match heap s !! i with Some n => parents n | None => [] end.

(** Python dict on keys: [d[k] = v], [del d[k]], [k in d]. *)
Definition dict_set (k : node_id) (d : list node_id) : list node_id :=
  if decide (k ∈ d) then d else d ++ [k].
Definition dict_del (k : node_id) (d : list node_id) : list node_id :=
  filter (fun x => x ≠ k) d.

(** Python [list.remove(x)]: drops the first occurrence. *)
Fixpoint list_remove (x : node_id) (l : list node_id) : list node_id :=
  match l with
  | [] => []
  | y :: l' => if decide (y = x) then l' else y :: list_remove x l'
  end.

(** [uuid.uuid4()]: an id no object or registry has. *)
Definition registered_ids (s : State) : gset node_id :=
  list_to_set (map_to_list (spaces s) ≫= (fun p => nodes p.2)).
Definition fresh_node_id (s : State) : node_id :=
  fresh (dom (heap s) ∪ registered_ids s).
Definition fresh_ws_id (s : State) : ws_id :=
  fresh (dom (spaces s)).

(** ** The monad of methods: state, exceptions, and fuel exhaustion *)

Inductive outcome (A : Type) :=
| Ret (a : A)
| Exc (e : exn)
| OutOfFuel.
Arguments Ret {A} a.
Arguments Exc {A} e.
Arguments OutOfFuel {A}.

Definition M (A : Type) : Type := State → outcome A * State.

Definition ret {A} (a : A) : M A := fun s => (Ret a, s).
Definition raise {A} (e : exn) : M A := fun s => (Exc e, s).
Definition bind {A B} (m : M A) (k : A → M B) : M B :=
  fun s =>
    match m s with
    | (Ret a, s') => k a s'
    | (Exc e, s') => (Exc e, s')
    | (OutOfFuel, s') => (OutOfFuel, s')
    end.
Definition get_state : M State := fun s => (Ret s, s).
Definition modify (f : State → State) : M unit := fun s => (Ret tt, f s).
(** the result of a pure call that may raise *)
Definition lift {A} (r : exn + A) : M A :=
  match r with
  | inl e => raise e
  | inr a => ret a
  end.
(** [try: body except (classes): handler] *)
Definition try_except {A} (body : M A) (classes : list exn_class) (handler : M A) : M A :=
  fun s =>
    match body s with
    | (Exc e, s') => if decide (exn_cls e ∈ classes) then handler s' else (Exc e, s')
    | r => r
    end.

Global Instance M_ret : MRet M := @ret.
Global Instance M_bind : MBind M := fun A B k m => bind m k.

(** ** Workspace.add_node *)

(** [if node.workspace is not None and node.workspace is not self:
       if node.id in node.workspace.nodes: del node.workspace.nodes[node.id]] *)
Definition detach (i : node_id) (self : ws_id) (s : State) : State :=
  match heap s !! i with
  | Some n =>
      if decide (workspace n = self) then s
      else upd_ws (fun ws => set_nodes (dict_del i (nodes ws)) ws) (workspace n) s
  | None => s
  end.

(** detach, then [self.nodes[node.id] = node; node.workspace = self] *)
Definition adopt (self : ws_id) (i : node_id) (s : State) : State :=
  upd_node (set_workspace self) i
    (upd_ws (fun ws => set_nodes (dict_set i (nodes ws)) ws) self (detach i self s)).

(** The inner function [move_children_recursive] of [add_node].  The
    recursion follows child edges and stops at registered nodes; [fuel]
    bounds its depth and [None] reports exhaustion. *)
Fixpoint move_children_recursive (fuel : nat) (self : ws_id) (current_node : node_id)
    (s : State) : option State :=
  match fuel with
  | 0 => None
  | S fuel' =>
      foldl (fun acc child =>
               match acc with
               | None => None
               | Some s =>
                   if decide (child ∈ ws_nodes self s) then Some s
                   else move_children_recursive fuel' self child (adopt self child s)
               end)
            (Some s) (node_children current_node s)
  end.

(** Every id a children list mentions. *)
Definition child_ids (s : State) : gset node_id :=
  list_to_set (map_to_list (heap s) ≫= (fun p => children p.2)).

(** Fuel that always suffices (see [add_node_total]): each recursive call
    registers one more of the ids children lists mention. *)
Definition add_node_fuel (s : State) : nat := S (size (child_ids s)).

Definition add_node_with (fuel : nat) (self : ws_id) (node : node_id) (s : State)
  : option State :=
  if decide (node ∈ ws_nodes self s) then Some s
  else move_children_recursive fuel self node (adopt self node s).

(** [Workspace.add_node(node)], returning [node]. *)
Definition add_node (self : ws_id) (node : node_id) : M node_id :=
  fun s =>
    match add_node_with (add_node_fuel s) self node s with
    | Some s' => (Ret node, s')
    | None => (OutOfFuel, s)
    end.

(** ** Workspace.__init__ (without initial data) and Node.__init__ *)

(** [str(uuid)[:8]] of an id, for default names. *)
Definition id_prefix (i : nat) : string := pretty i.

Definition or_default (nm : option string) (dflt : string) : string :=
  match nm with
  | Some n => if decide (n = EmptyString) then dflt else n
  | None => dflt
  end.

Definition Workspace_init (nm : option string) : M ws_id :=
  fun s =>
    let i := fresh_ws_id s in
    let ws := MkWorkspace (or_default nm ("workspace_" +:+ id_prefix i)) [] [] in
    (Ret i, MkState (heap s) (<[i := ws]> (spaces s))).

Definition append_child (c : node_id) (n : Node) : Node :=
  set_children (children n ++ [c]) n.

(** The store after [Node.__init__] allocated [n0] under the fresh id [i],
    registered it in [w] and appended it to the children of its parents. *)
Definition register_in (w : ws_id) (i : node_id) (s : State) : State :=
  upd_ws (fun ws => set_nodes (dict_set i (nodes ws)) ws) w s.

Definition link_parents (i : node_id) (ps : list node_id) (s : State) : State :=
  foldl (fun s parent => upd_node (append_child i) parent s) s ps.

Definition with_new_node (i : node_id) (n0 : Node) (ps : list node_id) (s : State) : State :=
  link_parents i ps
    (register_in (workspace n0) i (MkState (<[i := n0]> (heap s)) (spaces s))).

Definition Node_init (d : Data) (nm : option string) (ws : option ws_id)
    (ps : list node_id) (op : option string) : M node_id :=
  i ← (fun s => (Ret (fresh_node_id s), s)) : M node_id;
  let nm := or_default nm ("node_" +:+ id_prefix i) in
  w ← match ws with
      | Some w => ret w
      | None => Workspace_init (Some ("workspace_for_" +:+ nm))
      end;
  modify (fun s => MkState (<[i := MkNode nm d ps [] w op]> (heap s)) (spaces s));;
  registered ← (fun s => (Ret (bool_decide (i ∈ ws_nodes w s)), s)) : M bool;
  (if registered : bool then ret i else add_node w i);;
  modify (fun s => foldl (fun s parent => upd_node (append_child i) parent s) s ps);;
  ret i.

(** ** docframe calls that reach the engine *)

Section WithEngine.
Context `{Engine}.

(** [DocDataFrame.join(other, args, kwargs)] *)
Definition DocDataFrame_join (self : DocDataFrame) (other : Data) (kw : Args)
  : exn + DocDataFrame :=
  let other_df :=
    match other with
    | DocDF o => PlDataFrame (ddf_df o)
    | _ => other
    end in
  match pl_df_join (ddf_df self) other_df kw with
  | inl e => inl e
  | inr joined_df => DocDataFrame_init joined_df (Some (ddf_document_column_name self))
  end.

(** The result handling of [DocLazyFrame.__getattr__]'s wrapper for a
    [pl.LazyFrame] result. *)
Definition DocLazyFrame_wrap (self : DocLazyFrame) (result : LazyFrame)
  : exn + DocLazyFrame :=
  let keep :=
    match lf_collect_schema result, dlf_document_column_name self with
    | inr schema, Some c =>
        if bool_decide (c ≠ EmptyString) && bool_decide (is_Some (schema_lookup schema c))
        then match DocLazyFrame_init result (Some c) with
             | inr r => Some r
             | inl _ => None            (* [except Exception: pass] *)
             end
        else None
    | _, _ => None
    end in
  match keep with
  | Some r => inr r
  | None => DocLazyFrame_init result None
  end.

(** [self_data.join(other_data, kwargs)] by the kind of [self_data]. *)
Definition data_join (self_data other_data : Data) (kw : Args) : exn + Data :=
  match self_data with
  | PlDataFrame df =>
      match pl_df_join df other_data kw with inl e => inl e | inr r => inr (PlDataFrame r) end
  | PlLazyFrame lf =>
      match pl_lf_join lf other_data kw with inl e => inl e | inr r => inr (PlLazyFrame r) end
  | DocDF d =>
      match DocDataFrame_join d other_data kw with inl e => inl e | inr r => inr (DocDF r) end
  | DocLF d =>
      match pl_lf_join (dlf_df d) other_data kw with
      | inl e => inl e
      | inr r => match DocLazyFrame_wrap d r with inl e => inl e | inr r => inr (DocLF r) end
      end
  end.

(** ** Node methods *)

Definition get_node (i : node_id) : M Node :=
  fun s =>
    match heap s !! i with
    | Some n => (Ret n, s)
    | None => (Exc (Raise OtherError "unallocated node"), s)
    end.

(** [Node.collect].  The guard [hasattr(self.data, "collect") and
    callable(self.data.collect)] holds for both lazy kinds; the [try] block
    spans the construction and registration of the new node. *)
Definition Node_collect (self : node_id) : M node_id :=
  node ← get_node self;
  if is_lazy (data node) then
    try_except
      (collected_data ← lift (data_collect (data node));
       new_node ← Node_init collected_data (Some ("collect_" +:+ name node))
                    (Some (workspace node)) [self]
                    (Some ("collect(" +:+ name node +:+ ")"));
       node' ← get_node self;
       add_node (workspace node') new_node;;
       mret new_node)
      [AttributeError; TypeError]
      (mret self)
  else mret self.

(** [Node.materialize] *)
Definition Node_materialize (self : node_id) : M node_id :=
  node ← get_node self;
  (if is_lazy (data node) then
     try_except
       (collected_data ← lift (data_collect (data node));
        modify (upd_node (set_data collected_data) self))
       [AttributeError; TypeError]
       (mret tt)
   else mret tt);;
  mret self.

(** The first half of [Node.join]: the two operands handed to the engine. *)
Definition join_operands (self_d other_d : Data) : exn + (Data * Data) :=
  if is_lazy self_d && negb (is_lazy other_d) then
    match data_collect self_d with
    | inl e => inl e
    | inr self_data => inr (self_data, other_d)
    end
  else if negb (is_lazy self_d) && is_lazy other_d then
    match data_collect other_d with
    | inl e => inl e
    | inr other_data => inr (self_d, other_data)
    end
  else
    match self_d, other_d with
    | PlLazyFrame _, DocLF o => inr (self_d, PlLazyFrame (dlf_df o))
    | DocLF a, PlLazyFrame _ => inr (PlLazyFrame (dlf_df a), other_d)
    | DocLF a, DocLF o => inr (PlLazyFrame (dlf_df a), PlLazyFrame (dlf_df o))
    | PlDataFrame _, DocDF o => inr (self_d, PlDataFrame (ddf_df o))
    | DocDF a, PlDataFrame _ => inr (PlDataFrame (ddf_df a), other_d)
    | DocDF a, DocDF o => inr (PlDataFrame (ddf_df a), PlDataFrame (ddf_df o))
    | _, _ => inr (self_d, other_d)
    end.

(** [Node.join(other, kwargs)]; [hasattr(self_data, "join")] holds for each
    of the four kinds. *)
Definition Node_join (self other : node_id) (kw : Args) : M node_id :=
  a ← get_node self;
  b ← get_node other;
  operands ← lift (join_operands (data a) (data b));
  joined_data ← lift (data_join operands.1 operands.2 kw);
  new_node ← Node_init joined_data (Some ("join_" +:+ name a +:+ "_" +:+ name b))
               (Some (workspace a)) [self; other]
               (Some ("join(" +:+ name a +:+ ", " +:+ name b +:+ ")"));
  a' ← get_node self;
  add_node (workspace a') new_node;;
  mret new_node.

(** [Node(data=result, ...)] on whatever the engine returned: [__init__]
    rejects anything but the four kinds before it touches any state. *)
Definition Node_of_result (result : engine_result) (nm : string) (ws : ws_id)
    (ps : list node_id) (op : string) : M node_id :=
  match result with
  | ResData d => Node_init d (Some nm) (Some ws) ps (Some op)
  | _ => raise (Raise TypeError "Unsupported data type")
  end.

(** A delegated call [self.data.<attr>(args, kwargs)] guarded by
    [hasattr(self.data, attr)]. *)
Definition guarded_invoke (d : Data) (attr : string) (args : Args) (unsupported : string)
  : M engine_result :=
  match data_getattr d attr with
  | NoAttr => raise (Raise TypeError unsupported)
  | PlainAttr _ => raise (Raise TypeError "object is not callable")
  | Method => lift (data_invoke d attr args)
  end.

(** [Node.filter(condition, kwargs)] *)
Definition Node_filter (self : node_id) (args : Args) : M node_id :=
  node ← get_node self;
  filtered_data ← guarded_invoke (data node) "filter" args "Filtering not supported";
  new_node ← Node_of_result filtered_data ("filter_" +:+ name node) (workspace node) [self]
               ("filter(" +:+ name node +:+ ")");
  node' ← get_node self;
  add_node (workspace node') new_node;;
  mret new_node.

(** The translation of a single [slice] argument done by [Node.slice]. *)
Definition slice_args (args : Args) : Args :=
  match positional args with
  | [VSlice start stop] =>
      let offset := match start with Some z => z | None => 0%Z end in
      match stop with
      | Some stop => MkArgs [VInt offset; VInt (stop - offset)] (keywords args)
      | None => MkArgs [VInt offset] (keywords args)
      end
  | _ => args
  end.

(** [Node.slice(args, kwargs)] *)
Definition Node_slice (self : node_id) (args : Args) : M node_id :=
  node ← get_node self;
  sliced_data ← guarded_invoke (data node) "slice" (slice_args args) "Slice operation not supported";
  new_node ← Node_of_result sliced_data ("slice_" +:+ name node) (workspace node) [self]
               ("slice(" +:+ name node +:+ ")");
  node' ← get_node self;
  add_node (workspace node') new_node;;
  mret new_node.

(** What [Node.__getattr__] hands back. *)
Inductive node_attr :=
| AttrColumns (cols : list string)
| AttrValue (v : engine_result)
| AttrWrapper (d : Data) (nm : string).   (* the closure [wrapper] over [getattr(d, nm)] *)

(** What calling such a wrapper returns. *)
Inductive node_result :=
| NRNode (i : node_id)
| NRProxy (h : Handle) (parent_node : node_id) (operation_name : string)
| NRValue (v : engine_result).

Definition data_collect_schema (d : Data) : exn + Schema :=
  match d with
  | PlLazyFrame lf => lf_collect_schema lf
  | DocLF dl => lf_collect_schema (dlf_df dl)
  | PlDataFrame df => inr (df_schema df)
  | DocDF dd => inr (df_schema (ddf_df dd))
  end.

(** [Node.__getattr__(name)] *)
Definition Node_getattr (self : node_id) (nm : string) : M node_attr :=
  node ← get_node self;
  if bool_decide (nm = "columns") && is_lazy (data node) then
    schema ← lift (data_collect_schema (data node));
    mret (AttrColumns (map fst schema))
  else
    match data_getattr (data node) nm with
    | NoAttr => raise (Raise AttributeError ("'Node' object has no attribute '" +:+ nm +:+ "'"))
    | PlainAttr v => mret (AttrValue v)
    | Method => mret (AttrWrapper (data node) nm)
    end.

(** The closure [wrapper(args, kwargs)] returned by [Node.__getattr__]. *)
Definition Node_wrapper (self : node_id) (d : Data) (nm : string) (args : Args)
  : M node_result :=
  result ← lift (data_invoke d nm args);
  let wrap (r : Data) : M node_result :=
    node ← get_node self;
    new_node ← Node_init r (Some (nm +:+ "_" +:+ name node)) (Some (workspace node)) [self]
                 (Some (nm +:+ "(" +:+ name node +:+ ")"));
    node' ← get_node self;
    add_node (workspace node') new_node;;
    mret (NRNode new_node) in
  match result with
  | ResData r => wrap r
  | ResSeries c => wrap (PlDataFrame [c])           (* [result.to_frame()] *)
  | ResIntermediate h => mret (NRProxy h self nm)   (* [_create_intermediate_proxy] *)
  | ResOther _ => mret (NRValue result)
  end.

(** The closure [wrapper] of [IntermediateProxy.__getattr__]. *)
Definition Proxy_wrapper (h : Handle) (parent_node : node_id) (operation_name : string)
    (nm : string) (args : Args) : M node_result :=
  result ← lift (handle_invoke h nm args);
  match result with
  | ResData (DocLF _) => mret (NRValue result)
  | ResData r =>
      p ← get_node parent_node;
      new_node ← Node_init r (Some (operation_name +:+ "_" +:+ nm +:+ "_" +:+ name p))
                   (Some (workspace p)) [parent_node]
                   (Some (operation_name +:+ "." +:+ nm +:+ "(" +:+ name p +:+ ")"));
      p' ← get_node parent_node;
      add_node (workspace p') new_node;;
      mret (NRNode new_node)
  | _ => mret (NRValue result)
  end.

(** The Python expression [node.nm(args, kwargs)] for a name [nm] that
    [Node] does not define itself: attribute access through
    [Node.__getattr__], then the call. *)
Definition Node_call (self : node_id) (nm : string) (args : Args) : M node_result :=
  attr ← Node_getattr self nm;
  match attr with
  | AttrWrapper d nm => Node_wrapper self d nm args
  | AttrValue _ | AttrColumns _ => raise (Raise TypeError "object is not callable")
  end.

(** [proxy.nm(args, kwargs)] on an [IntermediateProxy]. *)
Definition Proxy_call (h : Handle) (parent_node : node_id) (operation_name : string)
    (nm : string) (args : Args) : M node_result :=
  match handle_getattr h nm with
  | NoAttr => raise (Raise AttributeError nm)
  | PlainAttr _ => raise (Raise TypeError "object is not callable")
  | Method => Proxy_wrapper h parent_node operation_name nm args
  end.

End WithEngine.

(** ** Workspace methods *)

Fixpoint for_each {A} (l : list A) (body : A → M unit) : M unit :=
  match l with
  | [] => mret tt
  | x :: l' => body x;; for_each l' body
  end.

(** [if node in parent.children: parent.children.remove(node)] *)
Definition drop_child (node : node_id) (parent : Node) : Node :=
  if decide (node ∈ children parent)
  then set_children (list_remove node (children parent)) parent
  else parent.

(** [Workspace.remove_node(node_id, materialize_children)] *)
Definition remove_node (self : ws_id) (node_id : node_id) (materialize_children : bool)
  : M bool :=
  s ← get_state;
  if bool_decide (node_id ∈ ws_nodes self s) then
    node ← get_node node_id;
    (if materialize_children
     then for_each (children node) (fun child => Node_materialize child;; mret tt)
     else mret tt);;
    node ← get_node node_id;
    for_each (parents node) (fun parent => modify (upd_node (drop_child node_id) parent));;
    modify (upd_ws (fun ws => set_nodes (dict_del node_id (nodes ws)) ws) self);;
    mret true
  else mret false.

(** [Workspace.__len__] *)
Definition Workspace_len (self : ws_id) (s : State) : nat := length (ws_nodes self s).

(** [Workspace.__bool__] *)
Definition Workspace_bool (self : ws_id) (s : State) : bool := true.

(** [Workspace.is_connected] *)
Definition is_connected (self : ws_id) (s : State) : bool := true.

(** [Workspace.has_cycles] *)
Definition has_cycles (self : ws_id) (s : State) : bool := false.

(** ** Persistence: Node.serialize, Workspace.serialize and their inverses

    The JSON text written by [json.dump] and read back by [json.load] is
    represented by the parsed value: cells are JSON-native, so dumping and
    loading them is the identity. *)

(** [df.to_dict(as_series=False)] *)
Definition to_dict (df : DataFrame) : list (string * list cell) :=
  map (fun c => (col_name c, col_cells c)) df.

(** The value under [serialized_data]. *)
Inductive payload :=
| PDict (d : list (string * list cell))
    (* polars: the dict of column lists *)
| PDocDataFrame (document_column_name : string) (d : list (string * list cell))
    (* the JSON text of [DocDataFrame.serialize]: metadata and data *)
| PDocLazyFrame (ty : string) (inner : payload) (document_column : option string)
    (* the JSON text of [DocLazyFrame.serialize]: type, data, document_column *)
| PString (s : string).

(** [DocDataFrame.serialize(format=json)] *)
Definition DocDataFrame_serialize (d : DocDataFrame) : payload :=
  PDocDataFrame (ddf_document_column_name d) (to_dict (ddf_df d)).

(** [DocLazyFrame.serialize(format=json)] *)
Definition DocLazyFrame_serialize (d : DocLazyFrame) : exn + payload :=
  match DocLazyFrame_collect d with
  | inl e => inl e
  | inr collected =>
      inr (PDocLazyFrame "DocLazyFrame" (DocDataFrame_serialize collected)
             (dlf_document_column_name d))
  end.

(** One entry of the [nodes] object of the document: [node_metadata],
    [data_metadata], [serialized_data] and the optional key [error]. *)
Record serialized_node := MkSerializedNode {
  sn_id : node_id;
  sn_name : string;
  sn_operation : option string;
  sn_data_type : string;
  sn_is_lazy : bool;
  sn_type : string;
  sn_serialized_data : payload;
  sn_error : option string
}.

(** The branch of [Node.serialize] on the kind of data: the type tag and
    the payload. *)
Definition data_serialize (d : Data) : exn + (string * payload) :=
  match d with
  | DocDF d => inr ("DocDataFrame", DocDataFrame_serialize d)
  | DocLF d =>
      match DocLazyFrame_serialize d with
      | inl e => inl e
      | inr p => inr ("DocLazyFrame", p)
      end
  | PlDataFrame df => inr ("polars_DataFrame", PDict (to_dict df))
  | PlLazyFrame lf =>
      match lf_collect lf with
      | inl e => inl e
      | inr df => inr ("polars_LazyFrame", PDict (to_dict df))
      end
  end.

(** [Node.serialize(format=json)] *)
Definition Node_serialize (i : node_id) (n : Node) : exn + serialized_node :=
  match data_serialize (data n) with
  | inl e => inl e
  | inr (ty, p) =>
      inr (MkSerializedNode i (name n) (operation n) (type_name (data n)) (is_lazy (data n))
             ty p None)
  end.

(** The entry [Workspace.serialize] writes when [node.serialize] raised. *)
Definition error_entry (i : node_id) (n : Node) (e : exn) : serialized_node :=
  MkSerializedNode i (name n) (operation n) ("builtins." +:+ type_name (data n))
    (is_lazy (data n)) "error" (PString (exn_msg e)) (Some (exn_msg e)).

(** The persisted document. *)
Record workspace_data := MkWorkspaceData {
  wd_id : ws_id;
  wd_name : string;
  wd_metadata : list (string * string);
  wd_nodes : list (node_id * serialized_node);
  wd_relationships : list (node_id * node_id)     (* (parent_id, child_id) *)
}.

Definition serialize_entry (s : State) (i : node_id) : option (node_id * serialized_node) :=
  match heap s !! i with
  | Some n =>
      Some (i, match Node_serialize i n with
               | inr sn => sn
               | inl e => error_entry i n e
               end)
  | None => None
  end.

(** [Workspace.serialize]: the document written to the file.  The first
    loop runs over [self.nodes.items()], the second over the children of
    each of these nodes. *)
Definition Workspace_serialize (self : ws_id) (s : State) : option workspace_data :=
  match spaces s !! self with
  | Some ws =>
      Some (MkWorkspaceData self (ws_name ws) (ws_metadata ws)
              (omap (serialize_entry s) (nodes ws))
              (i ← nodes ws; map (fun c => (i, c)) (node_children i s)))
  | None => None
  end.

Section Loading.
Context `{Engine}.

(** [DocDataFrame.deserialize(source)] on a JSON text. *)
Definition DocDataFrame_deserialize (p : payload) : exn + DocDataFrame :=
  match p with
  | PDocDataFrame c d =>
      match pl_from_dict d with
      | inl e => inl e
      | inr df => DocDataFrame_init df (Some c)
      end
  | _ => inl (Raise OtherError "not a serialized DocDataFrame")
  end.

(** [DocLazyFrame.deserialize(source)] on a JSON text. *)
Definition DocLazyFrame_deserialize (p : payload) : exn + DocLazyFrame :=
  match p with
  | PDocLazyFrame ty inner document_column =>
      if decide (ty = "DocLazyFrame") then
        match DocDataFrame_deserialize inner with
        | inl e => inl e
        | inr doc_df => DocLazyFrame_init (df_lazy (ddf_df doc_df)) document_column
        end
      else inl (Raise ValueError ("Expected DocLazyFrame data, got " +:+ ty))
  | _ => inl (Raise OtherError "not a serialized DocLazyFrame")
  end.

(** The dispatch of [Node.deserialize] on [data_metadata.type], for a
    payload of the shape the tag announces ([payload_fits]): a dict of
    column lists under the polars tags, a string under [string_fallback].
    What the engine builds from a value of another shape is not rendered;
    the branches for it are never reached from a document that
    [Workspace.serialize] wrote. *)
Definition data_deserialize (ty : string) (p : payload) : exn + Data :=
  if decide (ty = "DocDataFrame") then
    match DocDataFrame_deserialize p with inl e => inl e | inr d => inr (DocDF d) end
  else if decide (ty = "DocLazyFrame") then
    match DocLazyFrame_deserialize p with inl e => inl e | inr d => inr (DocLF d) end
  else if decide (ty ∈ ["polars_DataFrame"; "polars_LazyFrame"]) then
    match p with
    | PDict d =>
        match pl_from_dict d with
        | inl e => inl e
        | inr df =>
            inr (if decide (ty = "polars_LazyFrame") then PlLazyFrame (df_lazy df)
                 else PlDataFrame df)
        end
    | _ => inl (Raise TypeError "DataFrame constructor called with unsupported type")
    end
  else if decide (ty = "string_fallback") then
    match p with
    | PString str =>
        match pl_from_dict [("data", [CStr str])] with
        | inl e => inl e
        | inr df => inr (PlDataFrame df)
        end
    | _ => inl (Raise TypeError "DataFrame constructor called with unsupported type")
    end
  else inl (Raise ValueError ("Unknown data type: " +:+ ty)).

(** [Node.deserialize(serialized_node, workspace)]: the node it builds; it
    is stored under its own id, in the heap and in [workspace.nodes]. *)
Definition Node_deserialize (sn : serialized_node) (workspace : ws_id) : exn + Node :=
  match data_deserialize (sn_type sn) (sn_serialized_data sn) with
  | inl e => inl e
  | inr d => inr (MkNode (sn_name sn) d [] [] workspace (sn_operation sn))
  end.

(** One turn of the first loop of [Workspace.deserialize]: the store and
    [node_map] after the entry [sn] under key [key].  The node built is
    stored under the id the entry records, the store identifying a node with
    its id: this renders the documents in which no two entries record the
    same id ([document_in_model]), among them every document
    [Workspace.serialize] writes. *)
Definition load_node (w : ws_id) (acc : State * gmap node_id node_id)
    (entry : node_id * serialized_node) : State * gmap node_id node_id :=
  let '(key, sn) := entry in
  match sn_error sn with
  | Some _ => acc
  | None =>
      match Node_deserialize sn w with
      | inl _ => acc
      | inr node =>
          (register_in w (sn_id sn)
             (MkState (<[sn_id sn := node]> (heap acc.1)) (spaces acc.1)),
           <[key := sn_id sn]> acc.2)
      end
  end.

Definition append_parent (p : node_id) (n : Node) : Node :=
  set_parents (parents n ++ [p]) n.

(** One turn of the second loop: one recorded relationship. *)
Definition link (node_map : gmap node_id node_id) (s : State) (rel : node_id * node_id)
  : State :=
  match node_map !! rel.1, node_map !! rel.2 with
  | Some parent, Some child =>
      let s1 := if decide (child ∈ node_children parent s) then s
                else upd_node (append_child child) parent s in
      if decide (parent ∈ node_parents child s1) then s1
      else upd_node (append_parent parent) child s1
  | _, _ => s
  end.

(** [Workspace.deserialize]: the reloaded workspace, in a store of its own. *)
Definition Workspace_deserialize (d : workspace_data) : State :=
  let s0 := MkState ∅ {[wd_id d := MkWorkspace (wd_name d) [] (wd_metadata d)]} in
  let loaded := foldl (load_node (wd_id d)) (s0, ∅) (wd_nodes d) in
  foldl (link loaded.2) loaded.1 (wd_relationships d).

End Loading.

(** ** Graph vocabulary for the statements *)

(** [c] is in the children list of the allocated node [p]. *)
Definition child_edge (s : State) (p c : node_id) : Prop := c ∈ node_children p s.

(** Reachability along child edges, zero or more steps. *)
Definition reachable (s : State) : node_id → node_id → Prop := rtc (child_edge s).

(** [i] is an allocated node whose workspace pointer is [w]. *)
Definition workspace_is (s : State) (i : node_id) (w : ws_id) : Prop :=
  ∃ n, heap s !! i = Some n ∧ workspace n = w.

Definition registered (s : State) (w : ws_id) (i : node_id) : Prop := i ∈ ws_nodes w s.

Global Instance registered_dec s w i : Decision (registered s w i).
Proof. unfold registered. apply _. Defined.

(** What one [collect()] on the lazy node [node] of id [self] leaves behind:
    [c] is the one node allocated between [s] and [s1]; it is eager, holds
    the collected table [d'], has [self] as its only parent, is registered in
    the workspace of [self], and is appended to the children of [self], which
    is otherwise as before; every other node is untouched. *)
Definition collected_child (s : State) (self : node_id) (node : Node) (d' : Data)
    (c : node_id) (s1 : State) : Prop :=
  heap s !! c = None ∧
  dom (heap s1) = {[c]} ∪ dom (heap s) ∧
  (∃ n, heap s1 !! c = Some n ∧ data n = d' ∧ is_lazy (data n) = false ∧
        parents n = [self] ∧ children n = [] ∧ workspace n = workspace node) ∧
  registered s1 (workspace node) c ∧
  heap s1 !! self = Some (set_children (children node ++ [c]) node) ∧
  (∀ j, j ≠ self → j ≠ c → heap s1 !! j = heap s !! j).

(** Everything of a node but its workspace pointer. *)
Definition node_shape (n : Node) : string * Data * list node_id * list node_id * option string :=
  (name n, data n, parents n, children n, operation n).

(** [s'] has the nodes of [s], each with its name, data, edges and operation. *)
Definition same_shape (s s' : State) : Prop :=
  ∀ j, node_shape <$> heap s' !! j = node_shape <$> heap s !! j.

(** Two successive [collect()] calls on the lazy node [node] of id [self]:
    each returns the one node it created, the two are distinct, eager, hold
    the same table, and both are children of [self], which keeps its data. *)
Definition collects_twice (s : State) (self : node_id) (node : Node) (d' : Data) : Prop :=
  ∃ c1 s1 c2 s2,
    Node_collect self s = (Ret c1, s1) ∧
    collected_child s self node d' c1 s1 ∧
    Node_collect self s1 = (Ret c2, s2) ∧
    collected_child s1 self (set_children (children node ++ [c1]) node) d' c2 s2 ∧
    c1 ≠ c2 ∧
    (∃ n1 n2, heap s2 !! c1 = Some n1 ∧ heap s2 !! c2 = Some n2 ∧
              data n1 = data n2 ∧ is_lazy (data n1) = false ∧ is_lazy (data n2) = false) ∧
    node_children self s2 = children node ++ [c1; c2] ∧
    (∃ n, heap s2 !! self = Some n ∧ data n = data node ∧ is_lazy (data n) = true).

(** Number of occurrences of [x] in [l]. *)
Definition count (x : node_id) (l : list node_id) : nat :=
  length (filter (fun y => y = x) l).

(** The edges and the owner of a node. *)
Definition node_links (n : Node) : list node_id * list node_id * ws_id :=
  (parents n, children n, workspace n).

(** [s'] has the registries of [s] and the nodes of [s] with the same edges
    and owners (data may differ). *)
Definition same_links (s s' : State) : Prop :=
  spaces s' = spaces s ∧ ∀ j, node_links <$> heap s' !! j = node_links <$> heap s !! j.

(** Every entry for [i] in a children list is matched by an entry for that
    node in the parents list of [i] (edges are created in pairs). *)
Definition children_matched (s : State) (i : node_id) : Prop :=
  map_Forall (fun j n => count i (children n) ≤ count j (node_parents i s)) (heap s).

(** Invariants of the stores the API builds. *)

(** Single ownership: a node registered in a workspace is allocated and its
    workspace pointer names that workspace. *)
Definition ownership (s : State) : Prop :=
  map_Forall (fun w ws => Forall (fun i => workspace <$> heap s !! i = Some w) (nodes ws))
             (spaces s).

(** Every entry of a children list denotes an allocated node. *)
Definition children_allocated (s : State) : Prop :=
  map_Forall (fun _ n => Forall (fun c => is_Some (heap s !! c)) (children n)) (heap s).

(** The registry of [w] contains the children of each of its nodes. *)
Definition closed_under_children (s : State) (w : ws_id) : Prop :=
  Forall (fun p => Forall (fun c => c ∈ ws_nodes w s) (node_children p s)) (ws_nodes w s).

(** [i] is registered in no workspace but [w]. *)
Definition only_in (s : State) (w : ws_id) (i : node_id) : Prop :=
  ∀ w', registered s w' i → w' = w.

(** [i] is where it was: same record, same registrations. *)
Definition untouched (s s' : State) (i : node_id) : Prop :=
  heap s' !! i = heap s !! i ∧ ∀ w, registered s' w i ↔ registered s w i.

(** The registry of [w] only grew between [s] and [s']. *)
Definition grows (s s' : State) (w : ws_id) : Prop :=
  ∀ j, registered s w j → registered s' w j.

(** Every node registered in [w] between [s] and [s'] has its children
    registered in [w] at [s']. *)
Definition new_nodes_closed (s s' : State) (w : ws_id) : Prop :=
  ∀ p c, registered s' w p → ¬ registered s w p → c ∈ node_children p s → registered s' w c.

(** The loop of [move_children_recursive] over the children [l], from [s]. *)
Definition move_children_loop (fuel : nat) (self : ws_id) (l : list node_id) (s : State)
  : option State :=
  foldl (fun acc child =>
           match acc with
           | None => None
           | Some s =>
               if decide (child ∈ ws_nodes self s) then Some s
               else move_children_recursive fuel self child (adopt self child s)
           end)
        (Some s) l.

(** Two tables of the same kind with the same content: the same eager
    table, or lazy tables that collect to the same outcome; a document
    designation is part of the content. *)
Definition content_eq (d d' : Data) : Prop :=
  match d, d' with
  | PlDataFrame a, PlDataFrame b => a = b
  | PlLazyFrame a, PlLazyFrame b => lf_collect a = lf_collect b
  | DocDF a, DocDF b => a = b
  | DocLF a, DocLF b =>
      lf_collect (dlf_df a) = lf_collect (dlf_df b) ∧
      dlf_document_column_name a = dlf_document_column_name b
  | _, _ => False
  end.

Section Survival.
Context `{Engine}.

(** The engine rebuilds the table from its dict of column lists. *)
Definition frame_survives (df : DataFrame) : Prop := pl_from_dict (to_dict df) = inr df.

(** The data of a node can be written and read back: a lazy table
    collects, the collected table survives the dict encoding, and a document
    designation names a string column of it. *)
Definition data_survives (d : Data) : Prop :=
  match d with
  | PlDataFrame df => frame_survives df
  | PlLazyFrame lf =>
      match lf_collect lf with
      | inr df => frame_survives df
      | inl _ => False
      end
  | DocDF dd =>
      frame_survives (ddf_df dd) ∧
      schema_lookup (df_schema (ddf_df dd)) (ddf_document_column_name dd) = Some Utf8
  | DocLF dl =>
      match lf_collect (dlf_df dl), dlf_document_column_name dl with
      | inr df, Some c => frame_survives df ∧ schema_lookup (df_schema df) c = Some Utf8
      | _, _ => False
      end
  end.

(** Every node registered in [w] is allocated and its data survives. *)
Definition serializable (s : State) (w : ws_id) : Prop :=
  Forall (fun i => match heap s !! i with
                   | Some n => data_survives (data n)
                   | None => False
                   end) (ws_nodes w s).

(** The node [Workspace.deserialize] builds for the node [i] of [s]. *)
Definition reload (s : State) (w : ws_id) (i : node_id) : option Node :=
  match heap s !! i with
  | Some n =>
      match Node_serialize i n with
      | inr sn =>
          match Node_deserialize sn w with
          | inr n' => Some n'
          | inl _ => None
          end
      | inl _ => None
      end
  | None => None
  end.

End Survival.

(** The reloaded store [s'] agrees with the workspace [w] of [s]: same
    name, metadata and node ids (hence node count); per node the same name,
    operation, laziness and content; and the same (parent, child) pairs. *)
Definition round_trip_equal (s : State) (w : ws_id) (s' : State) : Prop :=
  (∃ ws ws', spaces s !! w = Some ws ∧ spaces s' !! w = Some ws' ∧
             ws_name ws' = ws_name ws ∧ ws_metadata ws' = ws_metadata ws ∧
             nodes ws' = nodes ws) ∧
  (∀ i, registered s w i →
        ∃ n n', heap s !! i = Some n ∧ heap s' !! i = Some n' ∧
                name n' = name n ∧ operation n' = operation n ∧
                is_lazy (data n') = is_lazy (data n) ∧ content_eq (data n) (data n')) ∧
  (∀ p c, registered s w p ∧ c ∈ node_children p s ↔
          registered s' w p ∧ c ∈ node_children p s').

(** What a relationship never changes in a node. *)
Definition node_label (n : Node) : string * Data * option string * ws_id :=
  (name n, data n, operation n, workspace n).

(** [node_map] maps each loaded id, and nothing else, to the node of that id. *)
Definition maps_ids (node_map : gmap node_id node_id) (ids : list node_id) : Prop :=
  ∀ j, node_map !! j = if decide (j ∈ ids) then Some j else None.

(** ** A small engine and small stores for the examples *)

Definition kw_lookup (k : string) (a : Args) : option pyval :=
  match list_find (fun p => fst p = k) (keywords a) with
  | Some (_, p) => Some (snd p)
  | None => None
  end.

(** The index pairs of an inner join on two key columns, left-major. *)
Definition row_pairs (lk rk : list cell) : list (nat * nat) :=
  i ← seq 0 (length lk);
  j ← seq 0 (length rk);
  match lk !! i, rk !! j with
  | Some a, Some b => if bool_decide (a = b) && bool_decide (a ≠ CNull) then [(i, j)] else []
  | _, _ => []
  end.

Definition pick (idx : list nat) (cells : list cell) : list cell :=
  omap (fun i => cells !! i) idx.

(** Inner join on one key column; a right column whose name the left table
    has gets the suffix [_right]. *)
Definition inner_join (on : string) (l r : DataFrame) : exn + DataFrame :=
  match list_find (fun c => col_name c = on) l, list_find (fun c => col_name c = on) r with
  | Some (_, lc), Some (_, rc) =>
      let ps := row_pairs (col_cells lc) (col_cells rc) in
      inr (map (fun c => Column (col_name c) (col_dtype c) (pick (map fst ps) (col_cells c))) l ++
           map (fun c => Column (if bool_decide (col_name c ∈ df_columns l)
                                 then col_name c +:+ "_right" else col_name c)
                                (col_dtype c) (pick (map snd ps) (col_cells c)))
               (filter (fun c => col_name c ≠ on) r))
  | _, _ => inl (Raise OtherError "ColumnNotFoundError")
  end.

Definition example_df_join (df : DataFrame) (other : Data) (kw : Args) : exn + DataFrame :=
  match other with
  | PlDataFrame r =>
      match kw_lookup "on" kw with
      | Some (VStr on) => inner_join on df r
      | _ => inl (Raise OtherError "unsupported join arguments")
      end
  | _ => inl (Raise TypeError "expected other join table to be a DataFrame")
  end.

Definition example_lf_join (lf : LazyFrame) (other : Data) (kw : Args) : exn + LazyFrame :=
  match other with
  | PlLazyFrame r =>
      let result :=
        match lf_collect lf, lf_collect r with
        | inr a, inr b => example_df_join a (PlDataFrame b) kw
        | inl e, _ => inl e
        | _, inl e => inl e
        end in
      inr (LazyFrameOf (match result with inr df => inr (df_schema df) | inl e => inl e end) result)
  | _ => inl (Raise TypeError "expected other join table to be a LazyFrame")
  end.

(** [head(n)] on each kind, keeping the document designation. *)
Definition example_head (n : nat) (d : Data) : Data :=
  let lazy_head lf :=
    LazyFrameOf (lf_collect_schema lf)
      (match lf_collect lf with inr df => inr (df_head n df) | inl e => inl e end) in
  match d with
  | PlDataFrame df => PlDataFrame (df_head n df)
  | PlLazyFrame lf => PlLazyFrame (lazy_head lf)
  | DocDF dd => DocDF (MkDocDataFrame (df_head n (ddf_df dd)) (ddf_document_column_name dd))
  | DocLF dl => DocLF (MkDocLazyFrame (lazy_head (dlf_df dl)) (dlf_document_column_name dl))
  end.

Definition example_invoke (d : Data) (nm : string) (args : Args) : exn + engine_result :=
  if bool_decide (nm = "head") then
    match positional args with
    | [VInt n] => inr (ResData (example_head (Z.to_nat n) d))
    | _ => inl (Raise TypeError "head() takes one integer")
    end
  else if bool_decide (nm = "filter") || bool_decide (nm = "slice") then
    inl (Raise OtherError ("ColumnNotFoundError in " +:+ nm))
  else inl (Raise AttributeError nm).

(** [pl.DataFrame(d)]: the dtype of a column is that of its first non-null
    cell, [Null] if it has none. *)
Definition infer_dtype (cells : list cell) : dtype :=
  match omap (fun c => match c with
                       | CNull => None
                       | CInt _ => Some Int64
                       | CStr _ => Some Utf8
                       | CBool _ => Some Boolean
                       end) cells with
  | ty :: _ => ty
  | [] => Null
  end.

Definition example_from_dict (d : list (string * list cell)) : exn + DataFrame :=
  inr (map (fun p => Column (fst p) (infer_dtype (snd p)) (snd p)) d).

Definition example_engine : Engine := {|
  pl_df_join := example_df_join;
  pl_lf_join := example_lf_join;
  data_getattr := fun _ nm =>
    if bool_decide (nm ∈ ["head"; "filter"; "slice"]) then Method else NoAttr;
  data_invoke := example_invoke;
  handle_getattr := fun _ _ => NoAttr;
  handle_invoke := fun _ nm _ => inl (Raise AttributeError nm);
  pl_from_dict := example_from_dict
|}.

Definition empty_state : State := MkState ∅ ∅.

(** the store a program leaves *)
Definition run {A} (m : M A) (s : State) : State := snd (m s).

Definition texts_df : DataFrame :=
  [Column "id" Int64 [CInt 1; CInt 2]; Column "text" Utf8 [CStr "a"; CStr "bb"]].
Definition values_df : DataFrame :=
  [Column "id" Int64 [CInt 1; CInt 2]; Column "v" Int64 [CInt 10; CInt 20]].
Definition texts_doc : DocDataFrame := MkDocDataFrame texts_df "text".

Definition on_id : Args := MkArgs [] [("on", VStr "id")].

(** [w = Workspace("w"); Node(pl.LazyFrame(...), "lazyroot", w)] *)
Definition lazyroot_state : State :=
  run (w ← Workspace_init (Some "w");
       Node_init (PlLazyFrame (df_lazy texts_df)) (Some "lazyroot") (Some w) [] None)
      empty_state.
Definition lazyroot_node : Node :=
  MkNode "lazyroot" (PlLazyFrame (df_lazy texts_df)) [] [] 0 None.

(** A lazy node whose [collect()] raises [TypeError]. *)
Definition broken_lf : LazyFrame :=
  LazyFrameOf (inr [("id", Int64)]) (inl (Raise TypeError "cannot collect")).
Definition broken_state : State :=
  run (w ← Workspace_init (Some "w");
       Node_init (PlLazyFrame broken_lf) (Some "broken") (Some w) [] None)
      empty_state.
Definition broken_node : Node := MkNode "broken" (PlLazyFrame broken_lf) [] [] 0 None.

(** [w = Workspace("w"); a = Node(DocDataFrame(..., "text"), "docs", w);
     b = Node(pl.LazyFrame(...), "values", w)] *)
Definition doc_and_lazy_state : State :=
  run (w ← Workspace_init (Some "w");
       Node_init (DocDF texts_doc) (Some "docs") (Some w) [] None;;
       Node_init (PlLazyFrame (df_lazy values_df)) (Some "values") (Some w) [] None)
      empty_state.
Definition docs_node : Node := MkNode "docs" (DocDF texts_doc) [] [] 0 None.

Definition head1 : Args := MkArgs [VInt 1] [].

(** [w = Workspace("w"); root = Node(df, "root", w); root.head(1)] *)
Definition root_child_state : State :=
  run (w ← Workspace_init (Some "w");
       root ← Node_init (PlDataFrame values_df) (Some "root") (Some w) [] None;
       Node_call (H:=example_engine) root "head" head1)
      empty_state.

(** The same, followed by [w2 = Workspace("w2")]. *)
Definition two_workspaces_state : State :=
  run (Workspace_init (Some "w2")) root_child_state.

(** [w1 = Workspace("w1"); w3 = Workspace("w3"); n = Node(df, "n", w3);
     c = Node(df, "c", w1, [n]); g = c.head(1);
     w2 = Workspace("w2"); w2.add_node(g)]:
    [n] (id 0) is in [w3] (id 1), its child [c] (id 1) in [w1] (id 0), and
    the grandchild [g] (id 2) has been moved to [w2] (id 2). *)
Definition scattered_state : State :=
  run (w1 ← Workspace_init (Some "w1");
       w3 ← Workspace_init (Some "w3");
       n ← Node_init (PlDataFrame values_df) (Some "n") (Some w3) [] None;
       c ← Node_init (PlDataFrame values_df) (Some "c") (Some w1) [n] None;
       g ← Node_call (H:=example_engine) c "head" head1;
       w2 ← Workspace_init (Some "w2");
       match g with
       | NRNode g => add_node w2 g
       | _ => mret 0
       end)
      empty_state.

(** [root_child_state] with a second workspace [w2] to which the child was
    moved by [w2.add_node(child)]: the root, still in [w], lists a child
    that [w] no longer holds. *)
Definition moved_child_state : State :=
  run (add_node 1 1) two_workspaces_state.

(** [DocLazyFrame(pl.LazyFrame(...))] on a table without string column:
    the constructor finds no document column and stores [None]. *)
Definition undesignated : DocLazyFrame := MkDocLazyFrame (df_lazy values_df) None.

(** [w = Workspace("w"); Node(undesignated, "numbers", w)] *)
Definition undesignated_state : State :=
  run (w ← Workspace_init (Some "w");
       Node_init (DocLF undesignated) (Some "numbers") (Some w) [] None)
      empty_state.

(** A workspace with one node of each kind, a self-join and a collect. *)
Definition four_kinds_state : State :=
  run (w ← Workspace_init (Some "w");
       a ← Node_init (PlDataFrame values_df) (Some "a") (Some w) [] None;
       Node_init (PlLazyFrame (df_lazy values_df)) (Some "b") (Some w) [] None;;
       Node_init (DocDF texts_doc) (Some "c") (Some w) [] None;;
       d ← Node_init (DocLF (MkDocLazyFrame (df_lazy texts_df) (Some "text"))) (Some "d")
             (Some w) [] None;
       Node_join (H:=example_engine) a a on_id;;
       Node_collect d)
      empty_state.

(** A second engine, whose tables answer [slice(offset, length)] and
    [group_by(...)], and whose group objects answer [len()] and [ngroups()]. *)
Definition df_slice (offset length : nat) (df : DataFrame) : DataFrame :=
  map (fun c => Column (col_name c) (col_dtype c) (take length (drop offset (col_cells c)))) df.

Definition slicing_invoke (d : Data) (nm : string) (args : Args) : exn + engine_result :=
  if bool_decide (nm = "slice") then
    match d, positional args with
    | PlDataFrame df, [VInt offset; VInt length] =>
        inr (ResData (PlDataFrame (df_slice (Z.to_nat offset) (Z.to_nat length) df)))
    | _, _ => inl (Raise TypeError "slice() takes offset and length")
    end
  else if bool_decide (nm = "filter") then
    match positional args with
    | [VBool true] => inr (ResData d)
    | _ => inl (Raise OtherError "ColumnNotFoundError in filter")
    end
  else if bool_decide (nm = "group_by") then inr (ResIntermediate "GroupBy")
  else if bool_decide (nm = "height") then inr (ResOther (VInt 2))
  else inl (Raise AttributeError nm).

Definition slicing_engine : Engine := {|
  pl_df_join := example_df_join;
  pl_lf_join := example_lf_join;
  data_getattr := fun _ nm =>
    if bool_decide (nm ∈ ["slice"; "filter"; "group_by"; "height"]) then Method else NoAttr;
  data_invoke := slicing_invoke;
  handle_getattr := fun _ nm =>
    if bool_decide (nm ∈ ["len"; "ngroups"]) then Method else NoAttr;
  handle_invoke := fun _ nm _ =>
    if bool_decide (nm = "len")
    then inr (ResData (PlDataFrame [Column "len" Int64 [CInt 2]]))
    else if bool_decide (nm = "ngroups") then inr (ResOther (VInt 1))
    else inl (Raise AttributeError nm);
  pl_from_dict := example_from_dict
|}.

(** [w = Workspace("w"); Node(df, "root", w)] *)
Definition root_state : State :=
  run (w ← Workspace_init (Some "w");
       Node_init (PlDataFrame values_df) (Some "root") (Some w) [] None)
      empty_state.
Definition root_node : Node := MkNode "root" (PlDataFrame values_df) [] [] 0 None.

(** ** docframe: conversions and re-designation *)

(** [DocDataFrame.to_doclazyframe] *)
Definition to_doclazyframe (d : DocDataFrame) : exn + DocLazyFrame :=
  DocLazyFrame_init (df_lazy (ddf_df d)) (Some (ddf_document_column_name d)).

(** [DocLazyFrame.to_docdataframe] *)
Definition to_docdataframe (d : DocLazyFrame) : exn + DocDataFrame :=
  DocLazyFrame_collect d.

(** [DocDataFrame.set_document(column_name)] *)
Definition set_document (d : DocDataFrame) (column_name : string) : exn + DocDataFrame :=
  match schema_lookup (df_schema (ddf_df d)) column_name with
  | None => inl (Raise ValueError ("Document column '" +:+ column_name +:+ "' not found"))
  | Some ty =>
      if decide (ty = Utf8) then DocDataFrame_init (ddf_df d) (Some column_name)
      else inl (Raise ValueError ("Column '" +:+ column_name +:+ "' is not a string column"))
  end.

(** [DocLazyFrame.with_document_column(column_name)] *)
Definition with_document_column (d : DocLazyFrame) (column_name : string)
  : exn + DocLazyFrame :=
  DocLazyFrame_init (dlf_df d) (Some column_name).

(** The class invariant of [DocDataFrame]: the designated column exists and
    holds strings. *)
Definition designated (d : DocDataFrame) : Prop :=
  schema_lookup (df_schema (ddf_df d)) (ddf_document_column_name d) = Some Utf8.

(** The key [guess_document_column] maximises: the mean length of the
    column's strings over the sample, 0 when it has none. *)
Definition mean_length (sample : DataFrame) (k : string) : nat * nat :=
  avg_or_0 (len_chars_mean (column_cells sample k)).

(** ** Workspace queries *)

(** [Workspace.list_nodes]: the values of [self.nodes], in insertion order. *)
Definition list_nodes (self : ws_id) (s : State) : list node_id := ws_nodes self s.

(** [Workspace.get_root_nodes] *)
Definition get_root_nodes (self : ws_id) (s : State) : list node_id :=
  filter (fun i => node_parents i s = []) (ws_nodes self s).

(** [Workspace.get_leaf_nodes] *)
Definition get_leaf_nodes (self : ws_id) (s : State) : list node_id :=
  filter (fun i => node_children i s = []) (ws_nodes self s).

(** [Workspace.get_topological_order] *)
Definition get_topological_order (self : ws_id) (s : State) : list node_id :=
  let roots := get_root_nodes self s in
  let others := filter (fun i => i ∉ roots) (ws_nodes self s) in
  roots ++ others.

(** The two variables the closure [traverse] of [get_descendants] and
    [get_ancestors] mutates: the set [visited] and the result list. *)
Record walk := MkWalk { visited : gset node_id; found : list node_id }.

(** [for x in node.<list>: result.append(x); traverse(x)] *)
Definition visit_all (traverse : node_id → walk → option walk) (l : list node_id) (st : walk)
  : option walk :=
  foldl (fun acc x =>
           match acc with
           | None => None
           | Some st => traverse x (MkWalk (visited st) (found st ++ [x]))
           end)
        (Some st) l.

(** The closure [traverse]; [next] is the list it follows (children or
    parents), [fuel] bounds the depth of the recursion and [None] reports
    exhaustion. *)
Fixpoint traverse (fuel : nat) (next : node_id → list node_id) (node : node_id) (st : walk)
  : option walk :=
  match fuel with
  | 0 => None
  | S fuel' =>
      if decide (node ∈ visited st) then Some st
      else visit_all (traverse fuel' next) (next node)
             (MkWalk ({[node]} ∪ visited st) (found st))
  end.

(** Fuel that always suffices (see [traverse_total]): below the first call,
    each level of the recursion has visited one more allocated node. *)
Definition traverse_fuel (s : State) : nat := S (size (dom (heap s))).

(** A list of nodes, as the queries return it. *)
Definition node_list : Type := list node_id.

(** [Workspace.get_descendants(node_id)] *)
Definition get_descendants (self : ws_id) (node_id : node_id) (s : State)
  : option node_list :=
  if decide (node_id ∈ ws_nodes self s) then
    found <$> traverse (traverse_fuel s) (fun i => node_children i s) node_id (MkWalk ∅ [])
  else Some [].

(** [Workspace.get_ancestors(node_id)] *)
Definition get_ancestors (self : ws_id) (node_id : node_id) (s : State)
  : option node_list :=
  if decide (node_id ∈ ws_nodes self s) then
    found <$> traverse (traverse_fuel s) (fun i => node_parents i s) node_id (MkWalk ∅ [])
  else Some [].

(** What one call of [traverse] on [node] does to the walk [st]: it only
    adds; it visits [node]; each node it visits is reachable from [node] and
    has all its successors visited and recorded; each recorded node is a
    successor of a node reachable from [node]. *)
Definition traverse_post (next : node_id → list node_id) (node : node_id) (st st' : walk)
  : Prop :=
  ∃ new, found st' = found st ++ new ∧
    visited st ⊆ visited st' ∧ node ∈ visited st' ∧
    (∀ v, v ∈ visited st' → v ∉ visited st →
          rtc (fun p c => c ∈ next p) node v ∧
          ∀ c, c ∈ next v → c ∈ visited st' ∧ c ∈ new) ∧
    (∀ d, d ∈ new → ∃ p, rtc (fun p c => c ∈ next p) node p ∧ d ∈ next p).

(** [p] is in the parents list of the allocated node [c]. *)
Definition parent_edge (s : State) (c p : node_id) : Prop := p ∈ node_parents c s.

(** The metadata dict: [d.get(key)] and [d[key] = value]. *)
Definition meta_get (key : string) (d : list (string * string)) : option string :=
  match list_find (fun p => fst p = key) d with
  | Some (_, p) => Some (snd p)
  | None => None
  end.

Fixpoint meta_set (key value : string) (d : list (string * string)) : list (string * string) :=
  match d with
  | [] => [(key, value)]
  | (k, v) :: d' => if decide (k = key) then (k, value) :: d' else (k, v) :: meta_set key value d'
  end.

(** [Workspace.get_metadata(key)] *)
Definition get_metadata (self : ws_id) (key : string) (s : State) : option string :=
  match spaces s !! self with
  | Some ws => meta_get key (ws_metadata ws)
  | None => None
  end.

(** [Workspace.set_metadata(key, value)] *)
Definition set_metadata (self : ws_id) (key value : string) : M unit :=
  modify (upd_ws (fun ws => MkWorkspace (ws_name ws) (nodes ws)
                              (meta_set key value (ws_metadata ws))) self).

(** No node of the list comes before one of its parents. *)
Definition parents_first (s : State) (l : list node_id) : Prop :=
  StronglySorted (fun c later => later ∉ node_parents c s) l.

(** A table with two string columns, [body] holding the longer strings. *)
Definition two_texts_df : DataFrame :=
  [Column "title" Utf8 [CStr "ab"; CStr "c"]; Column "body" Utf8 [CStr "abcd"; CStr "efg"]].

(** A table whose shorter text takes more bytes than its longer one. *)
Definition accented_df : DataFrame :=
  [Column "a" Utf8 [CStr "éé"]; Column "b" Utf8 [CStr "abc"]].


(** ** Vocabulary for loading a document *)

(** What [Workspace.deserialize] maintains while it loads into the
    workspace [w]: [w] is the only workspace; every allocated node points to
    [w] and is registered there; every registered id and every value of
    [node_map] is allocated. *)
Definition loading_inv (w : ws_id) (s : State) (node_map : gmap node_id node_id) : Prop :=
  (∀ w', w' ≠ w → spaces s !! w' = None) ∧
  (∀ i n, heap s !! i = Some n → workspace n = w ∧ i ∈ ws_nodes w s) ∧
  (∀ i, i ∈ ws_nodes w s → is_Some (heap s !! i)) ∧
  (∀ k i, node_map !! k = Some i → is_Some (heap s !! i)) ∧
  NoDup (ws_nodes w s).

(** Every edge is recorded at both ends, and only between allocated nodes. *)
Definition edges_paired (s : State) : Prop :=
  (∀ p c, c ∈ node_children p s ↔ p ∈ node_parents c s) ∧
  (∀ p c, c ∈ node_children p s → is_Some (heap s !! p) ∧ is_Some (heap s !! c)).

(** No node has an edge yet. *)
Definition bare (s : State) : Prop :=
  ∀ i n, heap s !! i = Some n → parents n = [] ∧ children n = [].

(** The workspace [w] exists under the given name and metadata. *)
Definition labelled (w : ws_id) (nm : string) (meta : list (string * string)) (s : State)
  : Prop :=
  ∃ ws, spaces s !! w = Some ws ∧ ws_name ws = nm ∧ ws_metadata ws = meta.

(** An entry of the document that [Workspace.deserialize] turns into a node. *)
Definition loadable `{Engine} (sn : serialized_node) : Prop :=
  sn_error sn = None ∧
  ∃ d, data_deserialize (sn_type sn) (sn_serialized_data sn) = inr d.

(** The data [materialize()] leaves in a node that held [d], when collecting
    raises nothing. *)
Definition materialized (d : Data) : Data :=
  if is_lazy d then match data_collect d with inr d' => d' | inl _ => d end else d.

(** [c] is a node that [materialize()] can make eager. *)
Definition collects (s : State) (c : node_id) : Prop :=
  ∃ n, heap s !! c = Some n ∧
       (is_lazy (data n) = true → ∃ d', data_collect (data n) = inr d').

(** [w = Workspace("w"); root = Node(df, "root", w);
     Node(pl.LazyFrame(...), "lazy", w, [root])] *)
Definition lazy_child_state : State :=
  run (w ← Workspace_init (Some "w");
       root ← Node_init (PlDataFrame values_df) (Some "root") (Some w) [] None;
       Node_init (PlLazyFrame (df_lazy values_df)) (Some "lazy") (Some w) [root] None)
      empty_state.
Definition lazy_child_root : Node := MkNode "root" (PlDataFrame values_df) [] [1] 0 None.

(** Every edge is recorded at both ends, as often at one as at the other. *)
Definition edges_counted (s : State) : Prop :=
  ∀ p c, count c (node_children p s) = count p (node_parents c s).

(** [d[k] = d.get(k, 0) + 1] on a dict of counters. *)
Fixpoint tally (k : string) (d : list (string * nat)) : list (string * nat) :=
  match d with
  | [] => [(k, 1)]
  | (k', n) :: d' => if decide (k' = k) then (k', S n) :: d' else (k', n) :: tally k d'
  end.

(** The dict [Workspace.summary] returns. *)
Record Summary := MkSummary {
  sm_id : ws_id;
  sm_name : string;
  total_nodes : nat;
  root_nodes : nat;
  leaf_nodes : nat;
  node_types : list (string * nat);
  status_counts : list (string * nat);
  metadata_keys : list string
}.

(** [self.nodes.values()] *)
Definition ws_values (self : ws_id) (s : State) : list Node :=
  omap (fun i => heap s !! i) (ws_nodes self s).

(** [Workspace.summary] *)
Definition summary (self : ws_id) (s : State) : option Summary :=
  match spaces s !! self with
  | Some ws =>
      let counted :=
        foldl (fun acc node =>
                 (tally (type_name (data node)) acc.1,
                  tally (if is_lazy (data node) then "lazy" else "materialized") acc.2))
              ([], [("lazy", 0); ("materialized", 0)]) (ws_values self s) in
      Some (MkSummary self (ws_name ws) (length (nodes ws))
              (length (get_root_nodes self s)) (length (get_leaf_nodes self s))
              counted.1 counted.2 (map fst (ws_metadata ws)))
  | None => None
  end.

(** The counters of a dict, added up. *)
Definition counted_total (d : list (string * nat)) : nat := foldr Nat.add 0 (map snd d).

(** The payload has the shape that the type tag of its entry announces, or
    the tag is unknown.  A plain string under a document tag would be read
    as a file path, and a value of another shape under a polars tag or
    under [string_fallback] is handed to the engine as it is; such entries
    are not rendered by [data_deserialize]. *)
Definition payload_fits (ty : string) (p : payload) : bool :=
  match p with
  | PDict _ => negb (bool_decide (ty = "string_fallback"))
  | PString _ =>
      negb (bool_decide (ty ∈ ["DocDataFrame"; "DocLazyFrame";
                               "polars_DataFrame"; "polars_LazyFrame"]))
  | PDocDataFrame _ _ | PDocLazyFrame _ _ _ =>
      negb (bool_decide (ty ∈ ["polars_DataFrame"; "polars_LazyFrame"; "string_fallback"]))
  end.

(** The documents the store model renders: the keys of the [nodes] object
    are distinct, as in every JSON object once parsed; no two entries record
    the same node id, so that a loaded node is determined by its id; and
    each payload fits its type tag. *)
Definition document_in_model (d : workspace_data) : Prop :=
  NoDup (map fst (wd_nodes d)) ∧
  NoDup (map (fun e => sn_id e.2) (wd_nodes d)) ∧
  Forall (fun e => payload_fits (sn_type e.2) (sn_serialized_data e.2) = true) (wd_nodes d).

(** A document written by hand: its keys differ from the recorded ids, one
    entry carries an error marker, one an unknown type tag, one relationship
    is recorded twice and two name a node that was not loaded. *)
Definition patched_document : workspace_data :=
  MkWorkspaceData 7 "restored" [("owner", "lab")]
    [(10, MkSerializedNode 0 "a" None "DataFrame" false "polars_DataFrame"
            (PDict (to_dict values_df)) None);
     (11, MkSerializedNode 1 "b" (Some "head(a)") "DataFrame" false "polars_DataFrame"
            (PDict (to_dict values_df)) None);
     (12, MkSerializedNode 2 "c" None "LazyFrame" true "error"
            (PString "cannot collect") (Some "cannot collect"));
     (13, MkSerializedNode 3 "d" None "Mystery" false "mystery" (PString "x") None)]
    [(10, 11); (10, 11); (10, 12); (11, 99)].

(** ** Vocabulary for the further properties *)

(** What a derived node looks like after an operation on the node [node] of
    id [self]: [c] is the one node allocated between [s] and [s1]; it holds
    [d] under the name [nm] and the operation label [op], has [self] as its
    only parent and no child, belongs to the workspace of [self] and is
    registered there; [self] has [c] appended to its children and is
    otherwise as before; every other node is untouched. *)
Definition derived_child (s : State) (self : node_id) (node : Node) (d : Data)
    (nm op : string) (c : node_id) (s1 : State) : Prop :=
  heap s !! c = None ∧
  dom (heap s1) = {[c]} ∪ dom (heap s) ∧
  heap s1 !! c = Some (MkNode nm d [self] [] (workspace node) (Some op)) ∧
  registered s1 (workspace node) c ∧
  heap s1 !! self = Some (set_children (children node ++ [c]) node) ∧
  (∀ j, j ≠ self → j ≠ c → heap s1 !! j = heap s !! j).

(** The table a wrapper of [Node.__getattr__] turns into a node, if any: one
    of the four kinds, or a series promoted by [to_frame()]. *)
Definition table_of (r : engine_result) : option Data :=
  match r with
  | ResData d => Some d
  | ResSeries c => Some (PlDataFrame [c])
  | ResIntermediate _ | ResOther _ => None
  end.

(** The tables the wrapper of an intermediate proxy turns into a node:
    [isinstance(result, (pl.DataFrame, pl.LazyFrame, DocDataFrame))]. *)
Definition proxy_table_of (r : engine_result) : option Data :=
  match r with
  | ResData (DocLF _) => None
  | ResData d => Some d
  | _ => None
  end.

(** A store with a cycle of child edges, which only direct manipulation of
    the lists can build: nodes 0 and 1 are each other's child, in workspace
    0; workspace 1 is empty. *)
Definition cyclic_state : State :=
  MkState
    (<[0 := MkNode "a" (PlDataFrame values_df) [1] [1] 0 None]>
       (<[1 := MkNode "b" (PlDataFrame values_df) [0] [0] 0 None]> ∅))
    (<[0 := MkWorkspace "w" [0; 1] []]> (<[1 := MkWorkspace "w2" [] []]> ∅)).

(** * Properties *)

(** ** Dicts and lists *)

Lemma elem_of_dict_set k i d : k ∈ dict_set i d ↔ k = i ∨ k ∈ d.
Proof.
  unfold dict_set. case_decide as Hi; [naive_solver|].
  rewrite elem_of_app, list_elem_of_singleton. tauto.
Qed.

Lemma elem_of_dict_del k i d : k ∈ dict_del i d ↔ k ≠ i ∧ k ∈ d.
Proof. unfold dict_del. by rewrite list_elem_of_filter. Qed.

Lemma dict_set_NoDup i d : NoDup d → NoDup (dict_set i d).
Proof.
  intros Hd. unfold dict_set. case_decide; [done|].
  apply NoDup_app. split_and!; [done| |apply NoDup_singleton].
  intros x Hx ->%list_elem_of_singleton. done.
Qed.

(** ** Fresh ids *)

Lemma elem_of_registered_ids s w i : i ∈ ws_nodes w s → i ∈ registered_ids s.
Proof.
  unfold ws_nodes, registered_ids. destruct (spaces s !! w) as [ws|] eqn:Hw; [|set_solver].
  intros Hi. apply elem_of_list_to_set, list_elem_of_bind.
  exists (w, ws). split; [done|]. by apply elem_of_map_to_list.
Qed.

Lemma fresh_node_id_heap s : heap s !! fresh_node_id s = None.
Proof.
  apply not_elem_of_dom. unfold fresh_node_id.
  pose proof (is_fresh (dom (heap s) ∪ registered_ids s)). set_solver.
Qed.

Lemma fresh_node_id_unregistered s w : fresh_node_id s ∉ ws_nodes w s.
Proof.
  intros Hi%elem_of_registered_ids. unfold fresh_node_id in Hi.
  pose proof (is_fresh (dom (heap s) ∪ registered_ids s)). set_solver.
Qed.

(** ** Node.__init__ in closed form *)

Lemma set_workspace_id n : set_workspace (workspace n) n = n.
Proof. by destruct n. Qed.

Lemma add_node_registered w i s : i ∈ ws_nodes w s → add_node w i s = (Ret i, s).
Proof. intros Hi. unfold add_node, add_node_with. by rewrite decide_True. Qed.

Lemma add_node_new_leaf w i s n0 :
  heap s !! i = Some n0 → workspace n0 = w → children n0 = [] → i ∉ ws_nodes w s →
  add_node w i s = (Ret i, register_in w i s).
Proof.
  intros Hi Hw Hc Hunreg. unfold add_node, add_node_with. rewrite decide_False by done.
  assert (Hadopt : adopt w i s = register_in w i s).
  { unfold adopt, detach. rewrite Hi, decide_True by done.
    unfold register_in, upd_node, upd_ws. simpl. destruct s as [h sp]; simpl in *.
    f_equal. apply map_eq. intros j. rewrite lookup_alter.
    case_decide as Hj; [|done]. subst j. rewrite Hi. simpl.
    by rewrite <- Hw, set_workspace_id. }
  rewrite Hadopt. unfold add_node_fuel. simpl.
  unfold node_children. simpl. rewrite Hi, Hc. done.
Qed.

Lemma Node_init_eq d nm w ps op s :
  let i := fresh_node_id s in
  Node_init d nm (Some w) ps op s =
    (Ret i, with_new_node i (MkNode (or_default nm ("node_" +:+ id_prefix i)) d ps [] w op) ps s).
Proof.
  intros i. unfold Node_init, mbind, M_bind, bind, mret, M_ret, ret, modify. simpl.
  fold i.
  set (n0 := MkNode _ d ps [] w op).
  set (s1 := MkState (<[i:=n0]> (heap s)) (spaces s)).
  assert (Hunreg : i ∉ ws_nodes w s1) by exact (fresh_node_id_unregistered s w).
  rewrite bool_decide_eq_false_2 by done.
  erewrite add_node_new_leaf; [done|apply lookup_insert_eq|done|done|done].
Qed.

Lemma with_new_node_heap1 i n0 p s :
  heap (with_new_node i n0 [p] s) = alter (append_child i) p (<[i:=n0]> (heap s)).
Proof. done. Qed.

Lemma with_new_node_heap2 i n0 p q s :
  heap (with_new_node i n0 [p; q] s) =
    alter (append_child i) q (alter (append_child i) p (<[i:=n0]> (heap s))).
Proof. done. Qed.

Lemma link_parents_spaces i ps s : spaces (link_parents i ps s) = spaces s.
Proof. revert s. induction ps as [|p ps IH]; intros s; [done|]. simpl. by rewrite IH. Qed.

Lemma with_new_node_spaces i n0 ps s :
  spaces (with_new_node i n0 ps s) =
    alter (fun ws => set_nodes (dict_set i (nodes ws)) ws) (workspace n0) (spaces s).
Proof. unfold with_new_node. by rewrite link_parents_spaces. Qed.

Lemma with_new_node_registered i n0 ps s :
  is_Some (spaces s !! workspace n0) → i ∈ ws_nodes (workspace n0) (with_new_node i n0 ps s).
Proof.
  intros [ws Hws]. unfold ws_nodes. rewrite with_new_node_spaces, lookup_alter_eq, Hws. simpl.
  apply elem_of_dict_set. by left.
Qed.

Lemma data_collect_eager d d' : data_collect d = inr d' → is_lazy d' = false.
Proof.
  destruct d as [df|lf|dd|dl]; simpl; try discriminate.
  - destruct (lf_collect lf); [discriminate|]. by intros [= <-].
  - destruct (DocLazyFrame_collect dl); [discriminate|]. by intros [= <-].
Qed.

(** ** Node.collect *)

(** The node [Node.collect] builds from a lazy node [node] of id [self]. *)
Lemma collect_lazy_once s self node d' :
  heap s !! self = Some node →
  is_lazy (data node) = true →
  data_collect (data node) = inr d' →
  is_Some (spaces s !! workspace node) →
  let c := fresh_node_id s in
  let n0 := MkNode ("collect_" +:+ name node) d' [self] [] (workspace node)
              (Some ("collect(" +:+ name node +:+ ")")) in
  Node_collect self s = (Ret c, with_new_node c n0 [self] s).
Proof.
  intros Hself Hlazy Hcollect Hws c n0.
  unfold Node_collect, mbind, M_bind, bind, get_node. rewrite Hself, Hlazy.
  unfold try_except, lift. rewrite Hcollect. unfold ret.
  rewrite Node_init_eq. simpl. fold c n0.
  assert (Hne : self ≠ c).
  { intros ->. pose proof (fresh_node_id_heap s) as Hf. unfold c in Hself. congruence. }
  rewrite lookup_alter_eq, lookup_insert_ne, Hself by done. simpl.
  rewrite add_node_registered; [done|].
  by apply (with_new_node_registered c n0 [self] s).
Qed.

Lemma collect_lazy_post s self node d' :
  heap s !! self = Some node →
  data_collect (data node) = inr d' →
  is_Some (spaces s !! workspace node) →
  let c := fresh_node_id s in
  let n0 := MkNode ("collect_" +:+ name node) d' [self] [] (workspace node)
              (Some ("collect(" +:+ name node +:+ ")")) in
  collected_child s self node d' c (with_new_node c n0 [self] s).
Proof.
  intros Hself Hcollect Hws c n0.
  pose proof (fresh_node_id_heap s) as Hfresh. fold c in Hfresh.
  assert (Hne : self ≠ c) by (intros ->; congruence).
  unfold collected_child. rewrite with_new_node_heap1. split_and!.
  - done.
  - by rewrite dom_alter_L, dom_insert_L.
  - exists n0. rewrite lookup_alter_ne, lookup_insert_eq by done.
    split_and!; try done. simpl. by eapply data_collect_eager.
  - by apply (with_new_node_registered c n0 [self] s).
  - by rewrite lookup_alter_eq, lookup_insert_ne, Hself.
  - intros j Hj1 Hj2. by rewrite lookup_alter_ne, lookup_insert_ne.
Qed.

(** C3, as the code has it.  A [collect()] on a lazy node whose data
    collects without raising creates exactly one new node: eager, a direct
    child of the caller, registered in the caller's workspace, and returned;
    the caller keeps its data and stays lazy.  A second [collect()] yields a
    second, distinct child holding the same collected table.  On an eager
    node [collect()] returns the node itself and leaves the store as it
    was. *)
Theorem collect_asymmetry :
  (∀ s self node d',
     heap s !! self = Some node →
     is_lazy (data node) = true →
     data_collect (data node) = inr d' →
     is_Some (spaces s !! workspace node) →
     collects_twice s self node d') ∧
  (∀ s self node,
     heap s !! self = Some node →
     is_lazy (data node) = false →
     Node_collect self s = (Ret self, s)).
Proof.
  split.
  - intros s self node d' Hself Hlazy Hcollect Hws.
    pose proof (collect_lazy_once s self node d' Hself Hlazy Hcollect Hws) as Hrun1.
    pose proof (collect_lazy_post s self node d' Hself Hcollect Hws) as Hpost1.
    simpl in Hrun1, Hpost1.
    set (c1 := fresh_node_id s) in *.
    set (s1 := with_new_node c1 _ [self] s) in *.
    destruct Hpost1 as (Hnew1 & Hdom1 & (n1 & Hc1 & Hd1 & He1 & Hp1 & Hch1 & Hw1) & Hreg1 & Hself1 & Hoth1).
    set (node1 := set_children (children node ++ [c1]) node) in *.
    assert (Hws1 : is_Some (spaces s1 !! workspace node1)).
    { unfold s1. rewrite with_new_node_spaces. simpl. by apply lookup_alter_is_Some. }
    pose proof (collect_lazy_once s1 self node1 d' Hself1 Hlazy Hcollect Hws1) as Hrun2.
    pose proof (collect_lazy_post s1 self node1 d' Hself1 Hcollect Hws1) as Hpost2.
    simpl in Hrun2, Hpost2.
    set (c2 := fresh_node_id s1) in *.
    set (s2 := with_new_node c2 _ [self] s1) in *.
    assert (Hne : c1 ≠ c2).
    { intros Heq. destruct Hpost2 as (Hnew2 & _). rewrite <- Heq in Hnew2. congruence. }
    assert (Hne1 : c1 ≠ self) by (intros ->; congruence).
    unfold collects_twice. exists c1, s1, c2, s2. split_and!; try done.
    + unfold collected_child. split_and!; eauto 10.
    + destruct Hpost2 as (Hnew2 & Hdom2 & (n2 & Hc2 & Hd2 & He2 & _) & _ & Hself2 & Hoth2).
      exists n1, n2. split_and!; try done.
      * by rewrite Hoth2.
      * congruence.
    + destruct Hpost2 as (_ & _ & _ & _ & Hself2 & _).
      unfold node_children. rewrite Hself2. simpl. by rewrite <- app_assoc.
    + destruct Hpost2 as (_ & _ & _ & _ & Hself2 & _).
      eexists. split; [exact Hself2|]. done.
  - intros s self node Hself Hlazy.
    unfold Node_collect, mbind, M_bind, bind, get_node. by rewrite Hself, Hlazy.
Qed.

(** ** Workspace.add_node: what it never touches *)

Lemma heap_adopt w i s : heap (adopt w i s) = alter (set_workspace w) i (heap s).
Proof.
  unfold adopt, detach. simpl.
  destruct (heap s !! i) as [n|]; [|done]. by case_decide.
Qed.

Lemma move_children_foldl_None (f : State → node_id → option State) l :
  foldl (fun acc child => match acc with None => None | Some s => f s child end) None l = None.
Proof. by induction l. Qed.

(** An invariant of [adopt] is an invariant of the recursive move. *)
Lemma move_children_recursive_inv (P : State → Prop) w :
  (∀ s i, P s → P (adopt w i s)) →
  ∀ fuel cur s s', P s → move_children_recursive fuel w cur s = Some s' → P s'.
Proof.
  intros Hadopt. induction fuel as [|fuel IH]; intros cur s s' Hs; [done|].
  simpl. generalize (node_children cur s). intros l. revert s Hs.
  induction l as [|child l IHl]; intros s Hs; simpl.
  - by intros [= <-].
  - case_decide as Hreg; [by apply IHl|].
    destruct (move_children_recursive fuel w child (adopt w child s)) as [s1|] eqn:Hrec.
    + apply IHl. eapply IH; [|done]. by apply Hadopt.
    + by rewrite move_children_foldl_None.
Qed.

Lemma add_node_with_inv (P : State → Prop) w :
  (∀ s i, P s → P (adopt w i s)) →
  ∀ fuel node s s', P s → add_node_with fuel w node s = Some s' → P s'.
Proof.
  intros Hadopt fuel node s s' Hs. unfold add_node_with. case_decide; [by intros [= <-]|].
  apply move_children_recursive_inv; [done|]. by apply Hadopt.
Qed.

Global Instance same_shape_refl : Reflexive same_shape.
Proof. by intros s j. Qed.
Global Instance same_shape_trans : Transitive same_shape.
Proof. intros s1 s2 s3 H12 H23 j. by rewrite H23, H12. Qed.

Lemma same_shape_adopt w i s : same_shape s (adopt w i s).
Proof.
  intros j. rewrite heap_adopt, lookup_alter. case_decide; [|done].
  subst. by destruct (heap s !! j).
Qed.

Lemma add_node_same_shape w node s r s' : add_node w node s = (r, s') → same_shape s s'.
Proof.
  unfold add_node. destruct (add_node_with _ w node s) as [s1|] eqn:Hrun; intros [= <- <-]; [|reflexivity].
  eapply (add_node_with_inv (same_shape s)); [|reflexivity|done].
  intros s2 i Hs2. etrans; [done|]. apply same_shape_adopt.
Qed.

Lemma same_shape_parents s s' i n :
  same_shape s s' → heap s !! i = Some n →
  ∃ n', heap s' !! i = Some n' ∧ node_shape n' = node_shape n.
Proof.
  intros Hsh Hi. specialize (Hsh i). rewrite Hi in Hsh.
  destruct (heap s' !! i) as [n'|]; [|done]. exists n'. split; [done|].
  simpl in Hsh. congruence.
Qed.

(** ** Node.join: lineage *)

Lemma parents_append_child c n : parents (append_child c n) = parents n.
Proof. done. Qed.

Section JoinLineage.
Context `{Engine}.

(** What a successful [Node.join] did: both operands were allocated, the
    operands and the engine join succeeded, and the returned node holds the
    joined table under the parents [[self; other]]. *)
Lemma Node_join_inv s self other kw new_node s' :
  Node_join self other kw s = (Ret new_node, s') →
  ∃ a b operands joined_data n,
    heap s !! self = Some a ∧ heap s !! other = Some b ∧
    join_operands (data a) (data b) = inr operands ∧
    data_join operands.1 operands.2 kw = inr joined_data ∧
    heap s' !! new_node = Some n ∧ parents n = [self; other] ∧ data n = joined_data.
Proof.
  unfold Node_join, mbind, M_bind, bind, get_node, lift, raise, ret.
  destruct (heap s !! self) as [a|] eqn:Ha; [|done].
  destruct (heap s !! other) as [b|] eqn:Hb; [|done].
  destruct (join_operands (data a) (data b)) as [e|operands] eqn:Hops; [done|].
  destruct (data_join operands.1 operands.2 kw) as [e|joined_data] eqn:Hjoin; [done|].
  rewrite Node_init_eq. simpl.
  set (c := fresh_node_id s). set (n0 := MkNode _ joined_data [self; other] [] _ _).
  set (s1 := with_new_node c n0 [self; other] s).
  assert (Hc : ∃ n, heap s1 !! c = Some n ∧ parents n = [self; other] ∧ data n = joined_data).
  { unfold s1. rewrite with_new_node_heap2.
    assert (Hins : <[c:=n0]> (heap s) !! c = Some n0) by apply lookup_insert_eq.
    destruct (decide (self = c)) as [->|Hs], (decide (other = c)) as [->|Ho];
      rewrite ?lookup_alter_eq, ?lookup_alter_ne, ?lookup_alter_eq, ?Hins by done;
      simpl; eauto. }
  change (alter (append_child c) other (alter (append_child c) self (<[c:=n0]> (heap s))))
    with (heap s1).
  destruct (heap s1 !! self) as [a'|]; [|done].
  destruct (add_node (workspace a') c s1) as [r s2] eqn:Hadd.
  apply add_node_same_shape in Hadd.
  destruct r; intros [= <- <-].
  destruct Hc as (n & Hn & Hp & Hd).
  destruct (same_shape_parents _ _ _ _ Hadd Hn) as (n' & Hn' & Hshape).
  exists a, b, operands, joined_data, n'. unfold node_shape in Hshape.
  split_and!; try done; congruence.
Qed.

(** C5.  Whenever [A.join(B, ...)] returns a node, that node's parents list
    is exactly [[A; B]], in that order. *)
Theorem join_parents s self other kw new_node s' :
  Node_join self other kw s = (Ret new_node, s') →
  ∃ n, heap s' !! new_node = Some n ∧ parents n = [self; other].
Proof.
  intros (a & b & operands & joined_data & n & _ & _ & _ & _ & Hn & Hp & _)%Node_join_inv.
  eauto.
Qed.

(** The kind of the first operand decides the kind of the joined table. *)
Lemma data_join_is_doc self_data other_data kw r :
  data_join self_data other_data kw = inr r → is_doc r = is_doc self_data.
Proof.
  destruct self_data as [df|lf|dd|dl]; simpl.
  - destruct (pl_df_join _ _ _); [done|]. by intros [= <-].
  - destruct (pl_lf_join _ _ _); [done|]. by intros [= <-].
  - destruct (DocDataFrame_join _ _ _); [done|]. by intros [= <-].
  - destruct (pl_lf_join _ _ _); [done|].
    destruct (DocLazyFrame_wrap _ _); [done|]. by intros [= <-].
Qed.

Lemma data_collect_is_doc d d' : data_collect d = inr d' → is_doc d' = is_doc d.
Proof.
  destruct d as [df|lf|dd|dl]; simpl; try done.
  - destruct (lf_collect lf); [done|]. by intros [= <-].
  - destruct (DocLazyFrame_collect dl); [done|]. by intros [= <-].
Qed.

(** With equal laziness the first operand is always unwrapped; with mixed
    laziness it keeps its document designation. *)
Lemma join_operands_is_doc self_d other_d operands :
  join_operands self_d other_d = inr operands →
  is_doc operands.1 =
    if bool_decide (is_lazy self_d = is_lazy other_d) then false else is_doc self_d.
Proof.
  unfold join_operands.
  destruct self_d as [df|lf|dd|dl], other_d as [df'|lf'|dd'|dl']; simpl;
    try (intros [= <-]; done);
    match goal with
    | |- context [lf_collect ?x] => destruct (lf_collect x); try done
    | |- context [DocLazyFrame_collect ?x] => destruct (DocLazyFrame_collect x); try done
    end; by intros [= <-].
Qed.

(** The kind of table a join produces: plain when the two inputs agree in
    laziness, and of the receiver's designation when they do not. *)
Lemma join_result_is_doc s self other kw new_node s' :
  Node_join self other kw s = (Ret new_node, s') →
  ∃ a b n, heap s !! self = Some a ∧ heap s !! other = Some b ∧
           heap s' !! new_node = Some n ∧
           is_doc (data n) =
             if bool_decide (is_lazy (data a) = is_lazy (data b)) then false
             else is_doc (data a).
Proof.
  intros (a & b & operands & joined & n & Ha & Hb & Hops & Hjoin & Hn & _ & Hd)%Node_join_inv.
  exists a, b, n. split_and!; try done.
  rewrite Hd, (data_join_is_doc _ _ _ _ Hjoin). by apply join_operands_is_doc.
Qed.

End JoinLineage.

(** ** Exceptions of the underlying data *)

(** C8.  When [collect()] of a lazy node's data raises [AttributeError] or
    [TypeError], [Node.collect] returns the node itself and [Node.materialize]
    returns the node itself, both without raising and without any change to
    the store: no node is created, no workspace changes, and the node's data
    is what it was (still lazy). *)
Theorem collect_materialize_swallow s self node e :
  heap s !! self = Some node →
  is_lazy (data node) = true →
  data_collect (data node) = inl e →
  exn_cls e = AttributeError ∨ exn_cls e = TypeError →
  Node_collect self s = (Ret self, s) ∧ Node_materialize self s = (Ret self, s).
Proof.
  intros Hself Hlazy Hraise Hcls.
  assert (Hin : exn_cls e ∈ [AttributeError; TypeError]) by (destruct Hcls as [-> | ->]; set_solver).
  unfold Node_collect, Node_materialize, mbind, M_bind, bind, get_node.
  rewrite Hself, Hlazy. unfold try_except, lift. rewrite Hraise. unfold raise.
  rewrite !decide_True by done. split; reflexivity.
Qed.

Section Delegation.
Context `{Engine}.

(** C7, as the code has it.  When the engine call behind a delegated
    operation raises, the operation raises that very exception and the store
    is as before the call: no node is allocated or registered and no
    children list changes.  This holds for a call through
    [Node.__getattr__], for a call on an intermediate proxy, and for
    [filter], [slice] and [join].  It holds for [collect] and [materialize]
    when the exception is of a class other than [AttributeError] and
    [TypeError]; those two classes they swallow. *)
Theorem delegated_raise_propagates s self node e :
  heap s !! self = Some node →
  (∀ nm args,
     bool_decide (nm = "columns") && is_lazy (data node) = false →
     data_getattr (data node) nm = Method →
     data_invoke (data node) nm args = inl e →
     Node_call self nm args s = (Exc e, s)) ∧
  (∀ d nm args,
     data_invoke d nm args = inl e →
     Node_wrapper self d nm args s = (Exc e, s)) ∧
  (∀ h operation_name nm args,
     handle_invoke h nm args = inl e →
     Proxy_wrapper h self operation_name nm args s = (Exc e, s)) ∧
  (∀ args,
     data_getattr (data node) "filter" = Method →
     data_invoke (data node) "filter" args = inl e →
     Node_filter self args s = (Exc e, s)) ∧
  (∀ args,
     data_getattr (data node) "slice" = Method →
     data_invoke (data node) "slice" (slice_args args) = inl e →
     Node_slice self args s = (Exc e, s)) ∧
  (∀ other b kw,
     heap s !! other = Some b →
     join_operands (data node) (data b) = inl e ∨
     (∃ operands, join_operands (data node) (data b) = inr operands ∧
                  data_join operands.1 operands.2 kw = inl e) →
     Node_join self other kw s = (Exc e, s)) ∧
  (is_lazy (data node) = true →
   data_collect (data node) = inl e →
   exn_cls e ∉ [AttributeError; TypeError] →
   Node_collect self s = (Exc e, s) ∧ Node_materialize self s = (Exc e, s)).
Proof.
  intros Hself. split_and!.
  - intros nm args Hcols Hattr Hraise.
    unfold Node_call, Node_getattr, Node_wrapper, mbind, M_bind, bind, get_node.
    rewrite Hself, Hcols, Hattr. simpl. unfold lift. by rewrite Hraise.
  - intros d nm args Hraise.
    unfold Node_wrapper, mbind, M_bind, bind, lift. by rewrite Hraise.
  - intros h op nm args Hraise.
    unfold Proxy_wrapper, mbind, M_bind, bind, lift. by rewrite Hraise.
  - intros args Hattr Hraise.
    unfold Node_filter, guarded_invoke, mbind, M_bind, bind, get_node, lift.
    by rewrite Hself, Hattr, Hraise.
  - intros args Hattr Hraise.
    unfold Node_slice, guarded_invoke, mbind, M_bind, bind, get_node, lift.
    by rewrite Hself, Hattr, Hraise.
  - intros other b kw Hother Hraise.
    unfold Node_join, mbind, M_bind, bind, get_node, lift.
    rewrite Hself, Hother.
    destruct Hraise as [Hraise | (operands & Hops & Hraise)].
    + by rewrite Hraise.
    + rewrite Hops. simpl. by rewrite Hraise.
  - intros Hlazy Hraise Hcls. split.
    + unfold Node_collect, mbind, M_bind, bind, get_node, try_except, lift.
      rewrite Hself, Hlazy, Hraise. simpl. by rewrite decide_False.
    + unfold Node_materialize, mbind, M_bind, bind, get_node, try_except, lift.
      rewrite Hself, Hlazy, Hraise. simpl. by rewrite decide_False.
Qed.

End Delegation.

(** ** Constant answers of the workspace *)

(** C9.  [has_cycles()] is [False] and [is_connected()] is [True] on every
    workspace in every store, whatever the edges are. *)
Theorem has_cycles_is_connected_constant self s :
  has_cycles self s = false ∧ is_connected self s = true.
Proof. done. Qed.

(** C10.  [bool(W)] is [True] for every workspace, in particular for one
    with no node ([len(W) == 0]). *)
Theorem workspace_always_truthy self s :
  Workspace_bool self s = true ∧
  (Workspace_len self s = 0 → Workspace_bool self s = true).
Proof. done. Qed.

(** ** Workspace.add_node: registries under [adopt] *)

Lemma same_shape_children s s' p : same_shape s s' → node_children p s' = node_children p s.
Proof.
  intros Hsh. specialize (Hsh p). unfold node_children.
  destruct (heap s' !! p) as [n'|], (heap s !! p) as [n|]; simpl in *; try done.
  unfold node_shape in Hsh. congruence.
Qed.

Lemma move_children_recursive_same_shape fuel w cur s s' :
  move_children_recursive fuel w cur s = Some s' → same_shape s s'.
Proof.
  apply (move_children_recursive_inv (same_shape s)); [|reflexivity].
  intros s2 i Hs2. etrans; [done|]. apply same_shape_adopt.
Qed.

Lemma spaces_detach_ne i w s w' :
  w' = w → spaces (detach i w s) !! w' = spaces s !! w'.
Proof.
  intros ->. unfold detach. destruct (heap s !! i) as [n|]; [|done].
  case_decide; [done|]. simpl. by rewrite lookup_alter_ne.
Qed.

Lemma ws_nodes_adopt_self w i s j :
  j ∈ ws_nodes w (adopt w i s) ↔ (is_Some (spaces s !! w) ∧ j = i) ∨ j ∈ ws_nodes w s.
Proof.
  unfold ws_nodes, adopt. simpl. rewrite lookup_alter_eq, spaces_detach_ne by done.
  destruct (spaces s !! w) as [ws|]; simpl.
  - rewrite elem_of_dict_set. split; [intros [->|?]; eauto|intros [[_ ->]|?]; eauto].
  - split; [by intros ?%elem_of_nil|]. intros [[[] _]|?]; done.
Qed.

Lemma ws_nodes_adopt_other w i s w' j :
  w' ≠ w →
  j ∈ ws_nodes w' (adopt w i s) ↔ j ∈ ws_nodes w' s ∧ ¬ (j = i ∧ workspace_is s i w').
Proof.
  intros Hw. unfold ws_nodes, adopt, workspace_is. simpl. rewrite lookup_alter_ne by done.
  unfold detach. destruct (heap s !! i) as [n|] eqn:Hi; [|naive_solver].
  case_decide as Hown; [naive_solver|]. simpl.
  destruct (decide (workspace n = w')) as [<-|Hne].
  - rewrite lookup_alter_eq. destruct (spaces s !! workspace n) as [ws|]; simpl.
    + rewrite elem_of_dict_del. naive_solver.
    + split; [by intros ?%elem_of_nil|naive_solver].
  - rewrite lookup_alter_ne by done. naive_solver.
Qed.

Lemma registered_adopt_mono w i s j : registered s w j → registered (adopt w i s) w j.
Proof. unfold registered. rewrite ws_nodes_adopt_self. auto. Qed.

Lemma spaces_adopt_is_Some w i s w' :
  is_Some (spaces (adopt w i s) !! w') ↔ is_Some (spaces s !! w').
Proof.
  unfold adopt. simpl. rewrite lookup_alter_is_Some.
  unfold detach. destruct (heap s !! i) as [n|]; [|done].
  case_decide; [done|]. simpl. by rewrite lookup_alter_is_Some.
Qed.

Lemma node_children_adopt w i s p : node_children p (adopt w i s) = node_children p s.
Proof. apply same_shape_children, same_shape_adopt. Qed.

(** ** Workspace.add_node: the recursion closes the registry *)

Lemma move_children_recursive_S fuel w cur s :
  move_children_recursive (S fuel) w cur s = move_children_loop fuel w (node_children cur s) s.
Proof. done. Qed.

Lemma move_children_loop_cons fuel w c l s :
  move_children_loop fuel w (c :: l) s =
    if decide (c ∈ ws_nodes w s) then move_children_loop fuel w l s
    else match move_children_recursive fuel w c (adopt w c s) with
         | Some s1 => move_children_loop fuel w l s1
         | None => None
         end.
Proof.
  unfold move_children_loop. simpl. case_decide; [done|].
  destruct (move_children_recursive fuel w c (adopt w c s)); [done|].
  apply move_children_foldl_None.
Qed.

Lemma move_children_recursive_allocated fuel w cur s s' w' :
  move_children_recursive fuel w cur s = Some s' →
  is_Some (spaces s !! w') → is_Some (spaces s' !! w').
Proof.
  intros Hrun Hs.
  eapply (move_children_recursive_inv (fun s => is_Some (spaces s !! w'))); [|done|done].
  intros s2 i. by rewrite spaces_adopt_is_Some.
Qed.

Lemma move_children_closure fuel w cur s s' :
  is_Some (spaces s !! w) →
  move_children_recursive fuel w cur s = Some s' →
  grows s s' w ∧ (∀ c, c ∈ node_children cur s → registered s' w c) ∧ new_nodes_closed s s' w.
Proof.
  revert cur s s'. induction fuel as [|fuel IH]; intros cur s s' Hw; [done|].
  rewrite move_children_recursive_S. generalize (node_children cur s). intros l.
  revert s Hw. induction l as [|c l IHl]; intros s Hw.
  - intros [= <-]. split_and!; [by intros j|by intros c ?%elem_of_nil|by intros p c Hp Hnp].
  - rewrite move_children_loop_cons. case_decide as Hc.
    + intros (Hgrow & Hl & Hnew)%IHl; [|done]. split_and!; [done| |done].
      intros c' [->|?]%elem_of_cons; [by apply Hgrow|by apply Hl].
    + destruct (move_children_recursive fuel w c (adopt w c s)) as [s1|] eqn:Hrec; [|done].
      assert (Hwa : is_Some (spaces (adopt w c s) !! w)) by by apply spaces_adopt_is_Some.
      assert (Hw1 : is_Some (spaces s1 !! w)) by by eapply move_children_recursive_allocated.
      destruct (IH _ _ _ Hwa Hrec) as (Hgrow1 & Hch1 & Hnew1).
      pose proof (move_children_recursive_same_shape _ _ _ _ _ Hrec) as Hsh1.
      intros (Hgrow2 & Hl2 & Hnew2)%IHl; [|done].
      assert (Hca : registered (adopt w c s) w c).
      { unfold registered. rewrite ws_nodes_adopt_self. by left. }
      split_and!.
      * intros j Hj. by apply Hgrow2, Hgrow1, registered_adopt_mono.
      * intros c' [->|?]%elem_of_cons; [by apply Hgrow2, Hgrow1|by apply Hl2].
      * intros p c' Hp' Hp Hc'.
        destruct (decide (registered s1 w p)) as [Hp1|Hp1].
        -- apply Hgrow2.
           destruct (decide (registered (adopt w c s) w p)) as [Hpa|Hpa].
           ++ unfold registered in Hpa. rewrite ws_nodes_adopt_self in Hpa.
              destruct Hpa as [[_ ->]|Hpa]; [|done].
              apply Hch1. by rewrite node_children_adopt.
           ++ eapply Hnew1; [done|done|]. by rewrite node_children_adopt.
        -- eapply Hnew2; [done|done|].
           by rewrite (same_shape_children _ _ _ Hsh1), node_children_adopt.
Qed.

(** ** Workspace.add_node terminates *)

Lemma elem_of_child_ids s p c : c ∈ node_children p s → c ∈ child_ids s.
Proof.
  unfold node_children, child_ids. destruct (heap s !! p) as [n|] eqn:Hp; [|by intros ?%elem_of_nil].
  intros Hc. apply elem_of_list_to_set, list_elem_of_bind.
  exists (p, n). split; [done|]. by apply elem_of_map_to_list.
Qed.

(** The ids of [X] not yet registered in [w]. *)
Lemma unregistered_shrinks (X : gset node_id) w s s' c :
  grows s s' w → c ∈ X → ¬ registered s w c → registered s' w c →
  size (X ∖ list_to_set (ws_nodes w s')) < size (X ∖ list_to_set (ws_nodes w s)).
Proof.
  intros Hgrow HX Hc Hc'. apply subset_size. unfold grows, registered in *.
  apply strict_spec_alt. split.
  - intros x. rewrite !elem_of_difference, !elem_of_list_to_set. naive_solver.
  - intros Heq. assert (Hin : c ∈ X ∖ list_to_set (ws_nodes w s)).
    { rewrite elem_of_difference, elem_of_list_to_set. done. }
    rewrite <- Heq in Hin. rewrite elem_of_difference, elem_of_list_to_set in Hin. naive_solver.
Qed.

Lemma unregistered_mono (X : gset node_id) w s s' :
  grows s s' w →
  size (X ∖ list_to_set (ws_nodes w s')) ≤ size (X ∖ list_to_set (ws_nodes w s)).
Proof.
  intros Hgrow. apply subseteq_size. unfold grows, registered in *.
  intros x. rewrite !elem_of_difference, !elem_of_list_to_set. naive_solver.
Qed.

Lemma grows_adopt w i s : grows s (adopt w i s) w.
Proof. intros j. apply registered_adopt_mono. Qed.

(** With more fuel than there are unregistered ids in children lists, the
    recursive move returns. *)
Lemma move_children_total (X : gset node_id) w fuel cur s :
  is_Some (spaces s !! w) →
  (∀ p c, c ∈ node_children p s → c ∈ X) →
  size (X ∖ list_to_set (ws_nodes w s)) < fuel →
  is_Some (move_children_recursive fuel w cur s).
Proof.
  revert cur s. induction fuel as [|fuel IH]; intros cur s Hw HX Hfuel.
  { lia. }
  rewrite move_children_recursive_S.
  assert (Hl : ∀ c, c ∈ node_children cur s → c ∈ X) by eauto.
  revert Hl. generalize (node_children cur s). intros l.
  revert s Hw HX Hfuel. induction l as [|c l IHl]; intros s Hw HX Hfuel Hl; [by eexists|].
  rewrite move_children_loop_cons. case_decide as Hc.
  { apply IHl; [done|done|done|]. intros c' ?. apply Hl. by right. }
  assert (Hwa : is_Some (spaces (adopt w c s) !! w)) by by apply spaces_adopt_is_Some.
  assert (Hca : registered (adopt w c s) w c).
  { unfold registered. rewrite ws_nodes_adopt_self. by left. }
  assert (HXa : ∀ p c', c' ∈ node_children p (adopt w c s) → c' ∈ X).
  { intros p c'. rewrite node_children_adopt. apply HX. }
  assert (Hlt : size (X ∖ list_to_set (ws_nodes w (adopt w c s))) < fuel).
  { assert (HcX : c ∈ X) by (apply Hl; by left).
    pose proof (unregistered_shrinks X w s (adopt w c s) c (grows_adopt w c s) HcX Hc Hca).
    lia. }
  destruct (IH c (adopt w c s) Hwa HXa Hlt) as [s1 Hrec]. rewrite Hrec.
  destruct (move_children_closure _ _ _ _ _ Hwa Hrec) as (Hgrow1 & _ & _).
  pose proof (move_children_recursive_same_shape _ _ _ _ _ Hrec) as Hsh1.
  apply IHl.
  - by eapply move_children_recursive_allocated.
  - intros p c'. rewrite (same_shape_children _ _ _ Hsh1). apply HXa.
  - pose proof (unregistered_mono X w (adopt w c s) s1 Hgrow1). lia.
  - intros c' ?. apply Hl. by right.
Qed.

(** [add_node] on an allocated workspace always returns its argument. *)
Lemma add_node_total w node s :
  is_Some (spaces s !! w) → ∃ s', add_node w node s = (Ret node, s').
Proof.
  intros Hw. unfold add_node, add_node_with. case_decide as Hreg; [by eexists|].
  destruct (move_children_total (child_ids s) w (add_node_fuel s) node (adopt w node s))
    as [s' Hrun].
  - by apply spaces_adopt_is_Some.
  - intros p c. rewrite node_children_adopt. apply elem_of_child_ids.
  - unfold add_node_fuel.
    pose proof (subseteq_size (child_ids s ∖ list_to_set (ws_nodes w (adopt w node s)))
                  (child_ids s)) as Hle.
    assert (child_ids s ∖ list_to_set (ws_nodes w (adopt w node s)) ⊆ child_ids s) as Hsub
      by set_solver.
    specialize (Hle Hsub). lia.
  - rewrite Hrun. by eexists.
Qed.

(** ** Workspace.add_node: ownership and the nodes left alone *)

Lemma move_children_recursive_inv_visited (P : State → Prop) (Q : node_id → Prop) w :
  (∀ s cur i, P s → Q cur → i ∈ node_children cur s → i ∉ ws_nodes w s →
              P (adopt w i s) ∧ Q i) →
  ∀ fuel cur s s', P s → Q cur → move_children_recursive fuel w cur s = Some s' → P s'.
Proof.
  intros Hadopt. induction fuel as [|fuel IH]; intros cur s s' Hs Hcur; [done|].
  rewrite move_children_recursive_S.
  assert (Hl : ∀ c, c ∈ node_children cur s → c ∈ node_children cur s) by done.
  revert Hl. generalize (node_children cur s) at 1 3. intros l.
  revert s Hs. induction l as [|c l IHl]; intros s Hs Hl.
  - by intros [= <-].
  - rewrite move_children_loop_cons. case_decide as Hc.
    { apply IHl; [done|]. intros c' ?. apply Hl. by right. }
    destruct (move_children_recursive fuel w c (adopt w c s)) as [s1|] eqn:Hrec; [|done].
    destruct (Hadopt s cur c) as [Hsa Hqc]; [done|done|apply Hl; by left|done|].
    pose proof (move_children_recursive_same_shape _ _ _ _ _ Hrec) as Hsh1.
    apply IHl; [by eapply IH|].
    intros c' ?. rewrite (same_shape_children _ _ _ Hsh1), node_children_adopt.
    apply Hl. by right.
Qed.

Lemma ownership_spec s :
  ownership s ↔ ∀ w j, registered s w j → workspace <$> heap s !! j = Some w.
Proof.
  unfold ownership, registered, ws_nodes. rewrite map_Forall_lookup. split.
  - intros Hown w j. destruct (spaces s !! w) as [ws|] eqn:Hw; [|by intros ?%elem_of_nil].
    intros Hj. specialize (Hown w ws Hw). rewrite Forall_forall in Hown. by apply Hown.
  - intros Hown w ws Hw. apply Forall_forall. intros j Hj. apply Hown. by rewrite Hw.
Qed.

Lemma children_allocated_spec s :
  children_allocated s ↔ ∀ p c, c ∈ node_children p s → is_Some (heap s !! c).
Proof.
  unfold children_allocated, node_children. rewrite map_Forall_lookup. split.
  - intros Hall p c. destruct (heap s !! p) as [n|] eqn:Hp; [|by intros ?%elem_of_nil].
    intros Hc. specialize (Hall p n Hp). rewrite Forall_forall in Hall. by apply Hall.
  - intros Hall p n Hp. apply Forall_forall. intros c Hc. apply (Hall p). by rewrite Hp.
Qed.

Lemma closed_under_children_spec s w :
  closed_under_children s w ↔
  ∀ p c, registered s w p → c ∈ node_children p s → registered s w c.
Proof.
  unfold closed_under_children, registered. rewrite Forall_forall.
  split; intros Hcl p; [intros c Hp|intros Hp]; specialize (Hcl p);
    rewrite ?Forall_forall in *; eauto.
Qed.

Lemma adopt_ownership w i s :
  ownership s → is_Some (heap s !! i) → i ∉ ws_nodes w s → ownership (adopt w i s).
Proof.
  rewrite !ownership_spec. intros Hown [n Hi] Hunreg w' j. unfold registered.
  rewrite heap_adopt. destruct (decide (w' = w)) as [->|Hw'].
  - rewrite ws_nodes_adopt_self. intros [[_ ->]|Hj].
    + by rewrite lookup_alter_eq, Hi.
    + rewrite lookup_alter_ne by (intros ->; done). by apply Hown.
  - rewrite ws_nodes_adopt_other by done. intros [Hj Hnot].
    specialize (Hown w' j Hj).
    destruct (decide (j = i)) as [->|Hne].
    + exfalso. apply Hnot. split; [done|]. rewrite Hi in Hown. exists n. naive_solver.
    + by rewrite lookup_alter_ne.
Qed.

Lemma adopt_children_allocated w i s : children_allocated s → children_allocated (adopt w i s).
Proof.
  rewrite !children_allocated_spec. intros Hall p c. rewrite node_children_adopt, heap_adopt.
  rewrite lookup_alter_is_Some. apply Hall.
Qed.

Lemma adopt_untouched w i s j : j ≠ i → untouched s (adopt w i s) j.
Proof.
  intros Hne. split.
  - by rewrite heap_adopt, lookup_alter_ne.
  - intros w'. unfold registered. destruct (decide (w' = w)) as [->|Hw'].
    + rewrite ws_nodes_adopt_self. naive_solver.
    + rewrite ws_nodes_adopt_other by done. naive_solver.
Qed.

Lemma untouched_trans s1 s2 s3 j : untouched s1 s2 j → untouched s2 s3 j → untouched s1 s3 j.
Proof.
  intros [Hh12 Hr12] [Hh23 Hr23]. split; [congruence|].
  intros w. by rewrite Hr23, Hr12.
Qed.

Lemma closed_reachable s w n d :
  closed_under_children s w → registered s w n → reachable s n d → registered s w d.
Proof.
  rewrite closed_under_children_spec. intros Hcl Hn Hreach.
  induction Hreach as [|x y z Hxy _ IH]; [done|]. apply IH. by eapply Hcl.
Qed.

Lemma same_shape_reachable s s' n d : same_shape s s' → reachable s' n d → reachable s n d.
Proof.
  intros Hsh Hreach. induction Hreach as [|x y z Hxy _ IH]; [constructor|].
  eapply rtc_l; [|done]. unfold child_edge in *. by rewrite <- (same_shape_children _ _ _ Hsh).
Qed.

(** What [add_node] ran when it returned. *)
Lemma add_node_inv w node s r s' :
  add_node w node s = (Ret r, s') →
  (registered s w node ∧ s' = s) ∨
  (¬ registered s w node ∧
   move_children_recursive (add_node_fuel s) w node (adopt w node s) = Some s').
Proof.
  unfold add_node, add_node_with, registered. case_decide as Hreg.
  - intros [= _ <-]. by left.
  - destruct (move_children_recursive _ _ _ _) as [s1|]; [|done]. intros [= _ <-]. by right.
Qed.

(** C6, as the code has it.  On a store where registered nodes point to
    their workspace and the workspace [W] contains the children of its
    nodes, [W.add_node(N)] returns, and afterwards every node reachable from
    [N] along child edges is registered in [W], points to [W] and is
    registered nowhere else, while every node not reachable from [N] (an
    ancestor of [N] in particular, in an acyclic graph) is where it was. *)
Theorem add_node_descendant_closure s self node :
  is_Some (spaces s !! self) →
  is_Some (heap s !! node) →
  ownership s →
  children_allocated s →
  closed_under_children s self →
  ∃ s', add_node self node s = (Ret node, s') ∧
        same_shape s s' ∧
        (∀ d, reachable s' node d →
              registered s' self d ∧ workspace_is s' d self ∧ only_in s' self d) ∧
        (∀ a, ¬ reachable s node a → untouched s s' a).
Proof.
  intros Hw Hnode Hown Hall Hclosed.
  destruct (add_node_total self node s Hw) as [s' Hrun]. exists s'.
  pose proof (add_node_same_shape _ _ _ _ _ Hrun) as Hshape.
  assert (Hpost : ownership s' ∧ closed_under_children s' self ∧ registered s' self node ∧
                  ∀ a, ¬ reachable s node a → untouched s s' a).
  { destruct (add_node_inv _ _ _ _ _ Hrun) as [[Hreg ->]|[Hreg Hmove]]; [by split_and!|].
    assert (Hwa : is_Some (spaces (adopt self node s) !! self)) by by apply spaces_adopt_is_Some.
    destruct (move_children_closure _ _ _ _ _ Hwa Hmove) as (Hgrow & Hch & Hnew).
    assert (Hna : registered (adopt self node s) self node).
    { unfold registered. rewrite ws_nodes_adopt_self. by left. }
    split_and!.
    - apply (move_children_recursive_inv_visited
               (fun s1 => ownership s1 ∧ children_allocated s1) (fun _ => True) self)
        with (fuel := add_node_fuel s) (cur := node) (s := adopt self node s) in Hmove;
        [by destruct Hmove| |by split; [apply adopt_ownership|apply adopt_children_allocated]|done].
      intros s1 cur i [Hown1 Hall1] _ Hi Hunreg. split; [|done].
      split; [|by apply adopt_children_allocated].
      apply adopt_ownership; [done| |done].
      rewrite children_allocated_spec in Hall1. by eapply Hall1.
    - apply closed_under_children_spec. intros p c Hp Hc.
      rewrite (same_shape_children _ _ _ Hshape) in Hc.
      destruct (decide (registered (adopt self node s) self p)) as [Hpa|Hpa].
      + unfold registered in Hpa. rewrite ws_nodes_adopt_self in Hpa.
        destruct Hpa as [[_ ->]|Hps].
        * apply Hch. by rewrite node_children_adopt.
        * apply Hgrow, registered_adopt_mono.
          rewrite closed_under_children_spec in Hclosed. by eapply Hclosed.
      + eapply Hnew; [done|done|]. by rewrite node_children_adopt.
    - by apply Hgrow.
    - apply (move_children_recursive_inv_visited
               (fun s1 => same_shape s s1 ∧ ∀ a, ¬ reachable s node a → untouched s s1 a)
               (fun i => reachable s node i) self)
        with (fuel := add_node_fuel s) (cur := node) (s := adopt self node s) in Hmove;
        [by destruct Hmove| | |by constructor].
      + intros s1 cur i [Hsh1 Hunt1] Hcur Hi Hunreg.
        assert (Hri : reachable s node i).
        { eapply rtc_r; [done|]. unfold child_edge.
          by rewrite <- (same_shape_children _ _ _ Hsh1). }
        split; [|done]. split.
        * etrans; [done|]. apply same_shape_adopt.
        * intros a Ha. eapply untouched_trans; [by apply Hunt1|].
          apply adopt_untouched. by intros ->.
      + split; [apply same_shape_adopt|].
        intros a Ha. apply adopt_untouched. intros ->. apply Ha. constructor. }
  destruct Hpost as (Hown' & Hclosed' & Hreg' & Huntouched).
  split_and!; [done|done| |done].
  intros d Hd.
  assert (Hdreg : registered s' self d) by by eapply closed_reachable.
  rewrite ownership_spec in Hown'.
  split_and!; [done| |].
  - specialize (Hown' self d Hdreg). unfold workspace_is.
    destruct (heap s' !! d) as [n|]; [|done]. exists n. naive_solver.
  - intros w' Hw'. pose proof (Hown' _ _ Hw') as H1. pose proof (Hown' _ _ Hdreg) as H2.
    congruence.
Qed.

(** ** Workspace.remove_node *)

Global Instance same_links_refl : Reflexive same_links.
Proof. by intros s. Qed.
Global Instance same_links_trans : Transitive same_links.
Proof.
  intros s1 s2 s3 [Hs12 H12] [Hs23 H23]. split; [congruence|].
  intros j. by rewrite H23, H12.
Qed.

Lemma Node_materialize_links c s r s' : Node_materialize c s = (r, s') → same_links s s'.
Proof.
  unfold Node_materialize, mbind, M_bind, bind, get_node, try_except, lift, modify.
  destruct (heap s !! c) as [n|] eqn:Hc; [|by intros [= <- <-]].
  destruct (is_lazy (data n)); [|by intros [= <- <-]].
  destruct (data_collect (data n)) as [e|d]; simpl.
  - case_decide; by intros [= <- <-].
  - intros [= <- <-]. split; [done|]. intros j. simpl.
    rewrite lookup_alter. case_decide; [|done]. subst. by rewrite Hc.
Qed.

Lemma bind_run {A B} (m : M A) (k : A → M B) s :
  (m ≫= k) s =
    match m s with
    | (Ret a, s') => k a s'
    | (Exc e, s') => (Exc e, s')
    | (OutOfFuel, s') => (OutOfFuel, s')
    end.
Proof. done. Qed.

Lemma for_each_materialize_links l s r s' :
  for_each l (fun child => Node_materialize child;; mret tt) s = (r, s') → same_links s s'.
Proof.
  revert s. induction l as [|c l IH]; intros s; simpl.
  - by intros [= <- <-].
  - rewrite !bind_run.
    destruct (Node_materialize c s) as [o s1] eqn:Hm.
    apply Node_materialize_links in Hm.
    destruct o; simpl; try (intros [= <- <-]; done).
    intros Hrest%IH. by etrans.
Qed.

Lemma for_each_modify {A} (f : A → State → State) l s :
  for_each l (fun x => modify (f x)) s = (Ret tt, foldl (fun s x => f x s) s l).
Proof. revert s. induction l as [|x l IH]; intros s; [done|]. simpl. apply IH. Qed.

Lemma foldl_upd_node_spaces f l s :
  spaces (foldl (fun s p => upd_node f p s) s l) = spaces s.
Proof. revert s. induction l as [|p l IH]; intros s; [done|]. simpl. by rewrite IH. Qed.

Lemma foldl_upd_node_lookup f l s j :
  heap (foldl (fun s p => upd_node f p s) s l) !! j = Nat.iter (count j l) f <$> heap s !! j.
Proof.
  revert s. induction l as [|p l IH]; intros s; simpl.
  - by destruct (heap s !! j).
  - rewrite IH. simpl. unfold count. rewrite filter_cons.
    destruct (decide (p = j)) as [->|Hp].
    + rewrite lookup_alter_eq. simpl.
      destruct (heap s !! j) as [n|]; simpl; [|done].
      f_equal. symmetry. apply (Nat.iter_succ_r _ f n).
    + by rewrite lookup_alter_ne.
Qed.

Lemma count_list_remove x l : count x (list_remove x l) = pred (count x l).
Proof.
  unfold count. induction l as [|y l IH]; [done|]. simpl.
  case_decide as Hy.
  - subst. by rewrite filter_cons, decide_True.
  - by rewrite !filter_cons, !decide_False.
Qed.

Lemma count_zero x l : count x l = 0 ↔ x ∉ l.
Proof.
  unfold count. induction l as [|y l IH]; [by split; [intros _; apply not_elem_of_nil|]|].
  rewrite filter_cons, not_elem_of_cons. case_decide; simpl; [|naive_solver].
  subst. naive_solver.
Qed.

Lemma drop_child_links x n :
  parents (drop_child x n) = parents n ∧ workspace (drop_child x n) = workspace n ∧
  count x (children (drop_child x n)) = pred (count x (children n)).
Proof.
  unfold drop_child. case_decide as Hx; simpl.
  - by rewrite count_list_remove.
  - apply count_zero in Hx. by rewrite Hx.
Qed.

Lemma iter_drop_child_links x k n :
  parents (Nat.iter k (drop_child x) n) = parents n ∧
  count x (children (Nat.iter k (drop_child x) n)) = count x (children n) - k.
Proof.
  induction k as [|k [IHp IHc]]; simpl; [split; [done|lia]|].
  destruct (drop_child_links x (Nat.iter k (drop_child x) n)) as (Hp & _ & Hc).
  rewrite Hp, Hc, IHc. split; [done|lia].
Qed.

(** C1, as the code has it.  After [remove_node(id)] returned [True] the id
    is no longer registered in the workspace, and no node lists it among its
    children, provided the children entries for it were matched by its own
    parents entries.  Parents lists are not touched: a child of the removed
    node still lists it as a parent. *)
Theorem remove_node_severs_children s self node_id materialize_children s' :
  remove_node self node_id materialize_children s = (Ret true, s') →
  children_matched s node_id →
  ¬ registered s' self node_id ∧
  (∀ j, node_id ∉ node_children j s') ∧
  (∀ j, node_parents j s' = node_parents j s).
Proof.
  unfold remove_node. rewrite bind_run. unfold get_state.
  case_bool_decide as Hreg; [|done].
  rewrite bind_run. unfold get_node at 1.
  destruct (heap s !! node_id) as [node|] eqn:Hnode; [|done].
  rewrite bind_run.
  destruct ((if materialize_children
             then for_each (children node) (fun child => Node_materialize child;; mret tt)
             else mret tt) s) as [o s1] eqn:Hmat.
  assert (Hlinks : same_links s s1).
  { destruct materialize_children.
    - by eapply for_each_materialize_links.
    - injection Hmat as <- <-. reflexivity. }
  destruct o; [|done|done].
  rewrite bind_run. unfold get_node at 1.
  destruct (heap s1 !! node_id) as [node1|] eqn:Hnode1; [|done].
  rewrite bind_run, for_each_modify, bind_run.
  unfold modify, mret, M_ret, ret. intros [= <-] Hmatched.
  destruct Hlinks as [Hspaces Hlinks].
  assert (Hparents1 : parents node1 = parents node).
  { specialize (Hlinks node_id). rewrite Hnode, Hnode1 in Hlinks.
    unfold node_links in Hlinks. simpl in Hlinks. congruence. }
  split_and!.
  - unfold registered, ws_nodes. simpl. rewrite foldl_upd_node_spaces, lookup_alter_eq.
    destruct (spaces s1 !! self) as [ws|]; simpl; [|apply not_elem_of_nil].
    rewrite elem_of_dict_del. naive_solver.
  - intros j. unfold node_children. simpl. rewrite foldl_upd_node_lookup.
    destruct (heap s1 !! j) as [n1|] eqn:Hj1; simpl; [|apply not_elem_of_nil].
    apply count_zero.
    destruct (iter_drop_child_links node_id (count j (parents node1)) n1) as [_ ->].
    specialize (Hlinks j). rewrite Hj1 in Hlinks.
    destruct (heap s !! j) as [n|] eqn:Hj; [|done].
    specialize (Hmatched j n Hj). unfold node_parents in Hmatched. rewrite Hnode in Hmatched.
    unfold node_links in Hlinks. simpl in Hlinks.
    assert (children n1 = children n) as -> by congruence.
    rewrite Hparents1. lia.
  - intros j. unfold node_parents. simpl. rewrite foldl_upd_node_lookup.
    specialize (Hlinks j).
    destruct (heap s1 !! j) as [n1|], (heap s !! j) as [n|]; simpl in *; try done.
    destruct (iter_drop_child_links node_id (count j (parents node1)) n1) as [-> _].
    unfold node_links in Hlinks. congruence.
Qed.

(** ** Persistence: one node *)

Section RoundTrip.
Context `{Engine}.

Lemma content_eq_is_lazy d d' : content_eq d d' → is_lazy d' = is_lazy d.
Proof. by destruct d, d'. Qed.

Lemma DocDataFrame_init_valid df c :
  schema_lookup (df_schema df) c = Some Utf8 →
  DocDataFrame_init df (Some c) = inr (MkDocDataFrame df c).
Proof. intros Hc. unfold DocDataFrame_init. rewrite Hc. by rewrite decide_True. Qed.

Lemma DocLazyFrame_init_valid df c :
  schema_lookup (df_schema df) c = Some Utf8 →
  DocLazyFrame_init (df_lazy df) (Some c) = inr (MkDocLazyFrame (df_lazy df) (Some c)).
Proof. intros Hc. unfold DocLazyFrame_init. simpl. rewrite Hc. by rewrite decide_True. Qed.

Local Arguments DocDataFrame_init : simpl never.
Local Arguments DocLazyFrame_init : simpl never.

(** Data that survives is written and read back with the same content. *)
Lemma data_round_trip d :
  data_survives d →
  ∃ ty p d', data_serialize d = inr (ty, p) ∧ data_deserialize ty p = inr d' ∧
             content_eq d d'.
Proof.
  destruct d as [df|lf|dd|dl]; simpl; intros Hsurv.
  - exists "polars_DataFrame", (PDict (to_dict df)), (PlDataFrame df).
    split; [done|split; [|done]]. unfold data_deserialize. simpl. by rewrite Hsurv.
  - destruct (lf_collect lf) as [e|df] eqn:Hc; [done|].
    exists "polars_LazyFrame", (PDict (to_dict df)), (PlLazyFrame (df_lazy df)).
    split; [done|split; [|done]]. unfold data_deserialize. simpl. by rewrite Hsurv.
  - destruct Hsurv as [Hsurv Hcol]. destruct dd as [df c]. simpl in *.
    exists "DocDataFrame", (PDocDataFrame c (to_dict df)), (DocDF (MkDocDataFrame df c)).
    split; [done|split; [|done]]. unfold data_deserialize. simpl.
    by rewrite Hsurv, (DocDataFrame_init_valid _ _ Hcol).
  - destruct dl as [lf dc]. simpl in *.
    destruct (lf_collect lf) as [e|df] eqn:Hc; [done|].
    destruct dc as [c|]; [|done]. destruct Hsurv as [Hsurv Hcol].
    exists "DocLazyFrame",
      (PDocLazyFrame "DocLazyFrame" (PDocDataFrame c (to_dict df)) (Some c)),
      (DocLF (MkDocLazyFrame (df_lazy df) (Some c))).
    split; [|split; [|done]].
    + unfold DocLazyFrame_serialize, DocLazyFrame_collect. simpl.
      by rewrite Hc, (DocDataFrame_init_valid _ _ Hcol).
    + unfold data_deserialize. simpl.
      rewrite Hsurv, (DocDataFrame_init_valid _ _ Hcol). simpl.
      by rewrite (DocLazyFrame_init_valid _ _ Hcol).
Qed.

(** A node whose data survives is written without error marker and read
    back with the same name, operation and content. *)
Lemma reload_survivor s w i n :
  heap s !! i = Some n → data_survives (data n) →
  ∃ sn n', Node_serialize i n = inr sn ∧ sn_error sn = None ∧ sn_id sn = i ∧
           Node_deserialize sn w = inr n' ∧ reload s w i = Some n' ∧
           name n' = name n ∧ operation n' = operation n ∧ workspace n' = w ∧
           parents n' = [] ∧ children n' = [] ∧ content_eq (data n) (data n').
Proof.
  intros Hi (ty & p & d' & Hser & Hde & Hcontent)%data_round_trip.
  unfold reload. rewrite Hi. unfold Node_serialize. rewrite Hser.
  unfold Node_deserialize. simpl. rewrite Hde.
  eexists _, (MkNode (name n) d' [] [] w (operation n)).
  split; [reflexivity|]. simpl. rewrite Hde. by split_and!.
Qed.

(** ** Persistence: the first loop of [Workspace.deserialize] *)

Lemma foldl_dict_set_fresh l ids :
  NoDup (l ++ ids) → foldl (fun l i => dict_set i l) l ids = l ++ ids.
Proof.
  revert l. induction ids as [|i ids IH]; intros l Hnd; simpl; [by rewrite app_nil_r|].
  unfold dict_set at 2. rewrite decide_False.
  - rewrite IH; [by rewrite <- app_assoc|]. by rewrite <- app_assoc.
  - apply NoDup_app in Hnd as (_ & Hdisj & _). intros Hi. apply (Hdisj i Hi). by left.
Qed.

Local Arguments load_node : simpl never.

Lemma omap_cons_Some {A B} (f : A → option B) x y l :
  f x = Some y → omap f (x :: l) = y :: omap f l.
Proof. intros Hx. simpl. by rewrite Hx. Qed.

Lemma load_nodes s w ids acc :
  Forall (fun i => match heap s !! i with
                   | Some n => data_survives (data n)
                   | None => False
                   end) ids →
  let acc' := foldl (load_node w) acc (omap (serialize_entry s) ids) in
  (∀ j, heap acc'.1 !! j = if decide (j ∈ ids) then reload s w j else heap acc.1 !! j) ∧
  (∀ j, acc'.2 !! j = if decide (j ∈ ids) then Some j else acc.2 !! j) ∧
  spaces acc'.1 !! w =
    (fun ws => set_nodes (foldl (fun l i => dict_set i l) (nodes ws) ids) ws)
      <$> spaces acc.1 !! w.
Proof.
  revert acc. induction ids as [|i ids IH]; intros acc Hgood; cbv zeta.
  - simpl. split_and!; [done|done|]. destruct (spaces acc.1 !! w) as [[]|]; done.
  - apply Forall_cons in Hgood as [Hi Hgood].
    destruct (heap s !! i) as [n|] eqn:Hn; [|done].
    destruct (reload_survivor s w i n Hn Hi)
      as (sn & n' & Hser & Herr & Hid & Hde & Hre & _).
    assert (Hentry : serialize_entry s i = Some (i, sn)).
    { unfold serialize_entry. by rewrite Hn, Hser. }
    rewrite (omap_cons_Some _ _ _ _ Hentry). cbn [foldl].
    set (acc1 := (register_in w i (MkState (<[i:=n']> (heap acc.1)) (spaces acc.1)),
                  <[i:=i]> acc.2)).
    assert (Hstep : load_node w acc (i, sn) = acc1).
    { unfold load_node. by rewrite Herr, Hde, Hid. }
    rewrite Hstep.
    destruct (IH acc1 Hgood) as (Hheap & Hmap & Hspaces). split_and!.
    + intros j. rewrite Hheap. destruct (decide (j = i)) as [->|Hne].
      * rewrite (decide_True (P := i ∈ i :: ids)) by (by left).
        case_decide; [done|]. simpl. by rewrite lookup_insert_eq.
      * simpl. rewrite lookup_insert_ne by done.
        destruct (decide (j ∈ ids)) as [Hj|Hj].
        -- by rewrite decide_True by (by right).
        -- rewrite decide_False; [done|]. by intros [?|?]%elem_of_cons.
    + intros j. rewrite Hmap. destruct (decide (j = i)) as [->|Hne].
      * rewrite (decide_True (P := i ∈ i :: ids)) by (by left).
        case_decide; [done|]. simpl. by rewrite lookup_insert_eq.
      * simpl. rewrite lookup_insert_ne by done.
        destruct (decide (j ∈ ids)) as [Hj|Hj].
        -- by rewrite decide_True by (by right).
        -- rewrite decide_False; [done|]. by intros [?|?]%elem_of_cons.
    + rewrite Hspaces. simpl. rewrite lookup_alter_eq.
      by destruct (spaces acc.1 !! w) as [[]|].
Qed.

(** ** Persistence: the second loop of [Workspace.deserialize] *)

Lemma node_children_upd_parents f i s p :
  (∀ n, children (f n) = children n) →
  node_children p (upd_node f i s) = node_children p s.
Proof.
  intros Hf. unfold node_children. simpl. rewrite lookup_alter.
  case_decide; [|done]. subst. destruct (heap s !! p); simpl; [apply Hf|done].
Qed.

Lemma node_parents_upd_children f i s c :
  (∀ n, parents (f n) = parents n) →
  node_parents c (upd_node f i s) = node_parents c s.
Proof.
  intros Hf. unfold node_parents. simpl. rewrite lookup_alter.
  case_decide; [|done]. subst. destruct (heap s !! c); simpl; [apply Hf|done].
Qed.

Lemma elem_of_node_children_append c p s p' c' :
  c' ∈ node_children p' (upd_node (append_child c) p s) ↔
  c' ∈ node_children p' s ∨ (p' = p ∧ c' = c ∧ is_Some (heap s !! p)).
Proof.
  unfold node_children. simpl. rewrite lookup_alter. case_decide as Hp.
  - subst p'. destruct (heap s !! p) as [n|]; simpl.
    + rewrite elem_of_app, list_elem_of_singleton. naive_solver.
    + split; [by intros ?%elem_of_nil|]. intros [?%elem_of_nil|(_ & _ & [])]; done.
  - naive_solver.
Qed.

Lemma elem_of_node_parents_append p c s c' p' :
  p' ∈ node_parents c' (upd_node (append_parent p) c s) ↔
  p' ∈ node_parents c' s ∨ (c' = c ∧ p' = p ∧ is_Some (heap s !! c)).
Proof.
  unfold node_parents. simpl. rewrite lookup_alter. case_decide as Hc.
  - subst c'. destruct (heap s !! c) as [n|]; simpl.
    + rewrite elem_of_app, list_elem_of_singleton. naive_solver.
    + split; [by intros ?%elem_of_nil|]. intros [?%elem_of_nil|(_ & _ & [])]; done.
  - naive_solver.
Qed.

Lemma link_unmapped nm ids s p c :
  maps_ids nm ids → ¬ (p ∈ ids ∧ c ∈ ids) → link nm s (p, c) = s.
Proof.
  intros Hnm Hnot. unfold link. simpl. rewrite !Hnm.
  repeat case_decide; naive_solver.
Qed.

Lemma link_mapped nm ids s p c :
  maps_ids nm ids → p ∈ ids → c ∈ ids →
  link nm s (p, c) =
    let s1 := if decide (c ∈ node_children p s) then s
              else upd_node (append_child c) p s in
    if decide (p ∈ node_parents c s1) then s1 else upd_node (append_parent p) c s1.
Proof.
  intros Hnm Hp Hc. unfold link. simpl.
  by rewrite !Hnm, (decide_True (P := p ∈ ids)), (decide_True (P := c ∈ ids)).
Qed.

Lemma link_adds_child nm ids s p c p' c' :
  maps_ids nm ids →
  c' ∈ node_children p' (link nm s (p, c)) ↔
  c' ∈ node_children p' s ∨ (p' = p ∧ c' = c ∧ p ∈ ids ∧ c ∈ ids ∧ is_Some (heap s !! p)).
Proof.
  intros Hnm. destruct (decide (p ∈ ids ∧ c ∈ ids)) as [[Hp Hc]|Hnot].
  - rewrite (link_mapped nm ids) by done. cbv zeta.
    assert (Hkeep : ∀ t, node_children p'
                           (if decide (p ∈ node_parents c t) then t
                            else upd_node (append_parent p) c t) = node_children p' t).
    { intros t. case_decide; [done|]. by apply node_children_upd_parents. }
    rewrite Hkeep. case_decide as Hin.
    + naive_solver.
    + rewrite elem_of_node_children_append. naive_solver.
  - rewrite (link_unmapped nm ids) by done. naive_solver.
Qed.

Lemma link_adds_parent nm ids s p c p' c' :
  maps_ids nm ids →
  p' ∈ node_parents c' (link nm s (p, c)) ↔
  p' ∈ node_parents c' s ∨ (p' = p ∧ c' = c ∧ p ∈ ids ∧ c ∈ ids ∧ is_Some (heap s !! c)).
Proof.
  intros Hnm. destruct (decide (p ∈ ids ∧ c ∈ ids)) as [[Hp Hc]|Hnot].
  - rewrite (link_mapped nm ids) by done. cbv zeta.
    set (s1 := if decide (c ∈ node_children p s) then s else upd_node (append_child c) p s).
    assert (Hpar : ∀ x, node_parents x s1 = node_parents x s).
    { intros x. unfold s1. case_decide; [done|]. by apply node_parents_upd_children. }
    assert (Hsome : is_Some (heap s1 !! c) ↔ is_Some (heap s !! c)).
    { unfold s1. case_decide; [done|]. simpl. by rewrite lookup_alter_is_Some. }
    case_decide as Hin.
    + rewrite Hpar in *. naive_solver.
    + rewrite elem_of_node_parents_append, Hpar, Hsome. naive_solver.
  - rewrite (link_unmapped nm ids) by done. naive_solver.
Qed.

Lemma link_label nm s rel :
  spaces (link nm s rel) = spaces s ∧
  ∀ j, node_label <$> heap (link nm s rel) !! j = node_label <$> heap s !! j.
Proof.
  unfold link. destruct (nm !! rel.1) as [p|]; [|done]. destruct (nm !! rel.2) as [c|]; [|done].
  assert (Hupd : ∀ f i t, (∀ n, node_label (f n) = node_label n) →
            spaces (upd_node f i t) = spaces t ∧
            ∀ j, node_label <$> heap (upd_node f i t) !! j = node_label <$> heap t !! j).
  { intros f i t Hf. split; [done|]. intros j. simpl. rewrite lookup_alter.
    case_decide; [|done]. subst. destruct (heap t !! j); simpl; [by rewrite Hf|done]. }
  repeat case_decide; try done.
  - by apply Hupd.
  - by apply Hupd.
  - destruct (Hupd (append_child c) p s) as [Hs1 Hl1]; [done|].
    destruct (Hupd (append_parent p) c (upd_node (append_child c) p s)) as [Hs2 Hl2]; [done|].
    split; [congruence|]. intros j. by rewrite Hl2, Hl1.
Qed.

Lemma links_label nm rels s :
  spaces (foldl (link nm) s rels) = spaces s ∧
  ∀ j, node_label <$> heap (foldl (link nm) s rels) !! j = node_label <$> heap s !! j.
Proof.
  revert s. induction rels as [|rel rels IH]; intros s; [done|]. simpl.
  destruct (IH (link nm s rel)) as [Hs Hl]. destruct (link_label nm s rel) as [Hs1 Hl1].
  split; [congruence|]. intros j. by rewrite Hl, Hl1.
Qed.

Lemma label_is_Some s s' j :
  node_label <$> heap s' !! j = node_label <$> heap s !! j →
  is_Some (heap s' !! j) ↔ is_Some (heap s !! j).
Proof. intros Hl. rewrite <- !(fmap_is_Some node_label). by rewrite Hl. Qed.

Lemma links_add_children nm ids rels s p' c' :
  maps_ids nm ids →
  c' ∈ node_children p' (foldl (link nm) s rels) ↔
  c' ∈ node_children p' s ∨
  ((p', c') ∈ rels ∧ p' ∈ ids ∧ c' ∈ ids ∧ is_Some (heap s !! p')).
Proof.
  intros Hnm. revert s. induction rels as [|[p c] rels IH]; intros s; simpl.
  - split; [by left|]. intros [?|[?%elem_of_nil _]]; done.
  - rewrite IH, (link_adds_child nm ids) by done.
    destruct (link_label nm s (p, c)) as [_ Hl].
    rewrite (label_is_Some _ _ _ (Hl p')), elem_of_cons. naive_solver.
Qed.

Lemma links_add_parents nm ids rels s p' c' :
  maps_ids nm ids →
  p' ∈ node_parents c' (foldl (link nm) s rels) ↔
  p' ∈ node_parents c' s ∨
  ((p', c') ∈ rels ∧ p' ∈ ids ∧ c' ∈ ids ∧ is_Some (heap s !! c')).
Proof.
  intros Hnm. revert s. induction rels as [|[p c] rels IH]; intros s; simpl.
  - split; [by left|]. intros [?|[?%elem_of_nil _]]; done.
  - rewrite IH, (link_adds_parent nm ids) by done.
    destruct (link_label nm s (p, c)) as [_ Hl].
    rewrite (label_is_Some _ _ _ (Hl c')), elem_of_cons. naive_solver.
Qed.

(** ** Persistence: the round trip of a workspace *)

Lemma elem_of_relationships (ids : list node_id) s p c :
  (p, c) ∈ (i ← ids; map (fun c => (i, c)) (node_children i s)) ↔
  p ∈ ids ∧ c ∈ node_children p s.
Proof.
  rewrite list_elem_of_bind. split.
  - intros (i & Hpc & Hi). apply list_elem_of_fmap in Hpc as (c0 & [= -> ->] & Hc). done.
  - intros [Hp Hc]. exists p. split; [|done]. apply list_elem_of_fmap. by exists c.
Qed.

(** C4, as the code has it.  For a workspace whose registered nodes are
    allocated and survive the encoding of their tables, whose registry has no
    repeated key, and which contains the children of its nodes,
    [deserialize(serialize(W))] has the same name, metadata and node ids (so
    the same node count), per node the same name, operation, laziness and
    content, and the same set of (parent, child) pairs; in the reloaded
    store the parents lists mirror the children lists. *)
Theorem round_trip s w :
  is_Some (spaces s !! w) →
  NoDup (ws_nodes w s) →
  serializable s w →
  closed_under_children s w →
  ∃ doc, Workspace_serialize w s = Some doc ∧
         round_trip_equal s w (Workspace_deserialize doc) ∧
         ∀ p c, c ∈ node_children p (Workspace_deserialize doc) ↔
                p ∈ node_parents c (Workspace_deserialize doc).
Proof.
  intros [ws Hws] Hnd Hser Hclosed.
  assert (Hids : ws_nodes w s = nodes ws) by (unfold ws_nodes; by rewrite Hws).
  unfold serializable in Hser. rewrite Hids in Hnd, Hser.
  rewrite closed_under_children_spec in Hclosed. unfold registered in Hclosed.
  setoid_rewrite Hids in Hclosed.
  unfold Workspace_serialize. rewrite Hws. eexists. split; [done|].
  unfold Workspace_deserialize. cbn [wd_id wd_name wd_metadata wd_nodes wd_relationships].
  set (s0 := MkState ∅ {[w := MkWorkspace (ws_name ws) [] (ws_metadata ws)]}).
  destruct (load_nodes s w (nodes ws) (s0, ∅) Hser) as (Hheap & Hmap & Hspaces).
  set (loaded := foldl (load_node w) (s0, ∅) (omap (serialize_entry s) (nodes ws))) in *.
  set (rels := i ← nodes ws; map (fun c => (i, c)) (node_children i s)).
  set (s' := foldl (link loaded.2) loaded.1 rels).
  assert (Hnm : maps_ids loaded.2 (nodes ws)).
  { intros j. rewrite Hmap. by case_decide. }
  destruct (links_label loaded.2 rels loaded.1) as [Hsp' Hlabel]. fold s' in Hsp', Hlabel.
  assert (Hws' : spaces s' !! w = Some (MkWorkspace (ws_name ws) (nodes ws) (ws_metadata ws))).
  { rewrite Hsp', Hspaces. simpl. rewrite lookup_singleton_eq. simpl.
    unfold set_nodes. simpl. by rewrite (foldl_dict_set_fresh [] (nodes ws)). }
  assert (Hids' : ws_nodes w s' = nodes ws) by (unfold ws_nodes; by rewrite Hws').
  assert (Hloaded : ∀ j, j ∈ nodes ws →
            ∃ n n', heap s !! j = Some n ∧ heap loaded.1 !! j = Some n' ∧
                    name n' = name n ∧ operation n' = operation n ∧
                    parents n' = [] ∧ children n' = [] ∧ content_eq (data n) (data n')).
  { intros j Hj. rewrite Forall_forall in Hser. specialize (Hser j Hj).
    destruct (heap s !! j) as [n|] eqn:Hn; [|done].
    destruct (reload_survivor s w j n Hn Hser)
      as (sn & n' & _ & _ & _ & _ & Hre & Hname & Hop & _ & Hpar & Hch & Hcontent).
    exists n, n'. rewrite Hheap, decide_True by done. by split_and!. }
  assert (Hnochildren : ∀ j, node_children j loaded.1 = []).
  { intros j. unfold node_children. rewrite Hheap. case_decide as Hj; [|done].
    destruct (Hloaded j Hj) as (n & n' & _ & Hn' & _ & _ & _ & Hch & _).
    rewrite Hheap, decide_True in Hn' by done. by rewrite Hn'. }
  assert (Hnoparents : ∀ j, node_parents j loaded.1 = []).
  { intros j. unfold node_parents. rewrite Hheap. case_decide as Hj; [|done].
    destruct (Hloaded j Hj) as (n & n' & _ & Hn' & _ & _ & Hpar & _).
    rewrite Hheap, decide_True in Hn' by done. by rewrite Hn'. }
  assert (Halloc : ∀ j, j ∈ nodes ws → is_Some (heap loaded.1 !! j)).
  { intros j Hj. destruct (Hloaded j Hj) as (n & n' & _ & Hn' & _). by eexists. }
  assert (Hchildren' : ∀ p c, c ∈ node_children p s' ↔ p ∈ nodes ws ∧ c ∈ node_children p s).
  { intros p c. unfold s'. rewrite (links_add_children _ (nodes ws)) by done.
    rewrite Hnochildren. unfold rels. rewrite elem_of_relationships. split.
    - intros [?%elem_of_nil|?]; [done|]. naive_solver.
    - intros [Hp Hc]. right. split_and!; eauto. }
  assert (Hparents' : ∀ p c, p ∈ node_parents c s' ↔ p ∈ nodes ws ∧ c ∈ node_children p s).
  { intros p c. unfold s'. rewrite (links_add_parents _ (nodes ws)) by done.
    rewrite Hnoparents. unfold rels. rewrite elem_of_relationships. split.
    - intros [?%elem_of_nil|?]; [done|]. naive_solver.
    - intros [Hp Hc]. right. split_and!; eauto. }
  split; [|intros p c; by rewrite Hchildren', Hparents'].
  unfold round_trip_equal. split_and!.
  - exists ws, (MkWorkspace (ws_name ws) (nodes ws) (ws_metadata ws)). by split_and!.
  - intros i Hi. unfold registered in Hi. rewrite Hids in Hi.
    destruct (Hloaded i Hi) as (n & n' & Hn & Hn' & Hname & Hop & _ & _ & Hcontent).
    specialize (Hlabel i). rewrite Hn' in Hlabel.
    destruct (heap s' !! i) as [n''|]; [|done].
    simpl in Hlabel. unfold node_label in Hlabel.
    assert (Hd : data n'' = data n') by congruence.
    exists n, n''. rewrite Hd. split_and!; try done; try congruence.
    by apply content_eq_is_lazy.
  - intros p c. unfold registered. rewrite Hids, Hids', Hchildren'. naive_solver.
Qed.

End RoundTrip.

(** * Further properties of the graph engine *)

(** ** Registering and removing *)

Lemma dict_del_absent k d : k ∉ d → dict_del k d = d.
Proof.
  unfold dict_del. induction d as [|x d IH]; [done|].
  intros [Hx Hd]%not_elem_of_cons. rewrite filter_cons_True by done. by rewrite IH.
Qed.

(** X1.  [remove_node] returns [False] exactly when the id is not a key of
    the workspace, and then changes nothing.  When it returns [True] it
    deletes that one key and no other, leaves every other workspace's
    registry alone, and frees no node object. *)
Theorem remove_node_registry s self node_id materialize_children b s' :
  remove_node self node_id materialize_children s = (Ret b, s') →
  (b = false ↔ node_id ∉ ws_nodes self s) ∧
  (b = false → s' = s) ∧
  ws_nodes self s' = dict_del node_id (ws_nodes self s) ∧
  (∀ w, w ≠ self → ws_nodes w s' = ws_nodes w s) ∧
  dom (heap s') = dom (heap s).
Proof.
  unfold remove_node. rewrite bind_run. unfold get_state.
  case_bool_decide as Hreg.
  2:{ intros [= <- <-]. split_and!; try done. by rewrite dict_del_absent. }
  rewrite bind_run. unfold get_node at 1.
  destruct (heap s !! node_id) as [node|] eqn:Hnode; [|done].
  rewrite bind_run.
  destruct ((if materialize_children
             then for_each (children node) (fun child => Node_materialize child;; mret tt)
             else mret tt) s) as [o s1] eqn:Hmat.
  assert (Hlinks : same_links s s1).
  { destruct materialize_children.
    - by eapply for_each_materialize_links.
    - injection Hmat as <- <-. reflexivity. }
  destruct o; [|done|done].
  rewrite bind_run. unfold get_node at 1.
  destruct (heap s1 !! node_id) as [node1|] eqn:Hnode1; [|done].
  rewrite bind_run, for_each_modify, bind_run.
  unfold modify, mret, M_ret, ret. intros [= <- <-].
  destruct Hlinks as [Hspaces Hlinks].
  split_and!.
  - split; [done|]. by intros ?.
  - done.
  - unfold ws_nodes. simpl. rewrite foldl_upd_node_spaces, lookup_alter_eq, Hspaces.
    by destruct (spaces s !! self).
  - intros w Hw. unfold ws_nodes. simpl.
    by rewrite foldl_upd_node_spaces, lookup_alter_ne, Hspaces.
  - apply set_eq. intros j. rewrite !elem_of_dom. simpl. rewrite foldl_upd_node_lookup.
    rewrite fmap_is_Some. specialize (Hlinks j).
    rewrite <- !(fmap_is_Some node_links). by rewrite Hlinks.
Qed.

(** X2.  [add_node] is idempotent: on an existing workspace, adding a node
    again right after adding it returns the node and leaves the store as the
    first call left it. *)
Theorem add_node_idempotent s self node r s1 :
  is_Some (spaces s !! self) →
  add_node self node s = (Ret r, s1) →
  add_node self node s1 = (Ret node, s1).
Proof.
  intros Hw Hrun. apply add_node_registered.
  destruct (add_node_inv _ _ _ _ _ Hrun) as [[Hreg ->]|[Hreg Hmove]]; [done|].
  assert (Hwa : is_Some (spaces (adopt self node s) !! self)) by by apply spaces_adopt_is_Some.
  destruct (move_children_closure _ _ _ _ _ Hwa Hmove) as (Hgrow & _ & _).
  apply Hgrow. unfold registered. rewrite ws_nodes_adopt_self. by left.
Qed.

(** X3.  [add_node] on an existing workspace always returns, whatever the
    child edges are (cycles included), and it only moves nodes: no node is
    allocated or freed, and no name, table, parents list, children list or
    operation label changes. *)
Theorem add_node_terminates s self node :
  is_Some (spaces s !! self) →
  ∃ s', add_node self node s = (Ret node, s') ∧
        same_shape s s' ∧ dom (heap s') = dom (heap s).
Proof.
  intros Hw. destruct (add_node_total self node s Hw) as [s' Hrun].
  exists s'. pose proof (add_node_same_shape _ _ _ _ _ Hrun) as Hshape.
  split_and!; [done|done|].
  apply set_eq. intros j. rewrite !elem_of_dom.
  rewrite <- !(fmap_is_Some node_shape). by rewrite (Hshape j).
Qed.

(** X4.  [add_node] keeps single ownership: if every registered node pointed
    to the workspace registering it before the call (and children lists
    mention allocated nodes only), the same holds after moving an allocated
    node, wherever the moved nodes came from. *)
Theorem add_node_preserves_ownership s self node r s' :
  is_Some (heap s !! node) →
  ownership s →
  children_allocated s →
  add_node self node s = (Ret r, s') →
  ownership s' ∧ children_allocated s'.
Proof.
  intros Hnode Hown Hall Hrun.
  destruct (add_node_inv _ _ _ _ _ Hrun) as [[Hreg ->]|[Hreg Hmove]]; [done|].
  apply (move_children_recursive_inv_visited
           (fun s1 => ownership s1 ∧ children_allocated s1) (fun _ => True) self)
    with (fuel := add_node_fuel s) (cur := node) (s := adopt self node s); [| |done|done].
  - intros s1 cur i [Hown1 Hall1] _ Hi Hunreg. split; [|done].
    split; [|by apply adopt_children_allocated].
    apply adopt_ownership; [done| |done].
    rewrite children_allocated_spec in Hall1. by eapply Hall1.
  - split; [by apply adopt_ownership|by apply adopt_children_allocated].
Qed.

(** ** Deriving a node *)

Lemma append_nonempty a b : b ≠ EmptyString → a +:+ b ≠ EmptyString.
Proof. intros Hb. destruct a; simpl; [done|discriminate]. Qed.

Lemma or_default_nonempty nm dflt : nm ≠ EmptyString → or_default (Some nm) dflt = nm.
Proof. intros Hnm. unfold or_default. by rewrite decide_False. Qed.

(** The tail shared by [collect], [filter], [slice] and the two wrappers:
    construct the node, register it, return it. *)
Lemma spawn_child_run {A} s self node d nm op (k : node_id → A) :
  heap s !! self = Some node →
  is_Some (spaces s !! workspace node) →
  nm ≠ EmptyString →
  (new_node ← Node_init d (Some nm) (Some (workspace node)) [self] (Some op);
   node' ← get_node self;
   add_node (workspace node') new_node;;
   mret (k new_node)) s
  = (Ret (k (fresh_node_id s)),
     with_new_node (fresh_node_id s) (MkNode nm d [self] [] (workspace node) (Some op))
       [self] s).
Proof.
  intros Hself Hws Hnm. rewrite bind_run, Node_init_eq, (or_default_nonempty _ _ Hnm).
  set (c := fresh_node_id s). set (n0 := MkNode nm d [self] [] (workspace node) (Some op)).
  assert (Hne : self ≠ c).
  { intros ->. pose proof (fresh_node_id_heap s) as Hf. unfold c in Hself. congruence. }
  rewrite bind_run. unfold get_node.
  rewrite with_new_node_heap1, lookup_alter_eq, lookup_insert_ne, Hself by done. simpl.
  rewrite bind_run, add_node_registered; [done|].
  by apply (with_new_node_registered c n0 [self] s).
Qed.

Lemma spawn_child_post s self node d nm op :
  heap s !! self = Some node →
  is_Some (spaces s !! workspace node) →
  derived_child s self node d nm op (fresh_node_id s)
    (with_new_node (fresh_node_id s) (MkNode nm d [self] [] (workspace node) (Some op))
       [self] s).
Proof.
  intros Hself Hws. set (c := fresh_node_id s).
  set (n0 := MkNode nm d [self] [] (workspace node) (Some op)).
  pose proof (fresh_node_id_heap s) as Hfresh. fold c in Hfresh.
  assert (Hne : self ≠ c) by (intros ->; congruence).
  unfold derived_child. rewrite with_new_node_heap1. split_and!.
  - done.
  - by rewrite dom_alter_L, dom_insert_L.
  - by rewrite lookup_alter_ne, lookup_insert_eq.
  - by apply (with_new_node_registered c n0 [self] s).
  - by rewrite lookup_alter_eq, lookup_insert_ne, Hself.
  - intros j Hj1 Hj2. by rewrite lookup_alter_ne, lookup_insert_ne.
Qed.

(** X5.  [materialize()] works in place: on a lazy node whose data collects,
    it returns the node itself and replaces the node's data by the collected
    eager table; the node keeps its name, edges, workspace and operation, no
    other node changes, no node is created and no registry changes.  After
    it, [collect()] and a second [materialize()] return the node and change
    nothing. *)
Theorem materialize_in_place s self node d' :
  heap s !! self = Some node →
  is_lazy (data node) = true →
  data_collect (data node) = inr d' →
  ∃ s', Node_materialize self s = (Ret self, s') ∧
        heap s' !! self = Some (set_data d' node) ∧ is_lazy d' = false ∧
        (∀ j, j ≠ self → heap s' !! j = heap s !! j) ∧
        spaces s' = spaces s ∧
        Node_collect self s' = (Ret self, s') ∧
        Node_materialize self s' = (Ret self, s').
Proof.
  intros Hself Hlazy Hcollect.
  pose proof (data_collect_eager _ _ Hcollect) as Heager.
  exists (upd_node (set_data d') self s).
  assert (Hself' : heap (upd_node (set_data d') self s) !! self = Some (set_data d' node)).
  { simpl. by rewrite lookup_alter_eq, Hself. }
  split_and!; try done.
  - unfold Node_materialize. rewrite !bind_run. unfold get_node. rewrite Hself, Hlazy.
    unfold try_except. rewrite bind_run. unfold lift. by rewrite Hcollect.
  - intros j Hj. simpl. by rewrite lookup_alter_ne.
  - unfold Node_collect. rewrite bind_run. unfold get_node. rewrite Hself'. simpl.
    by rewrite Heager.
  - unfold Node_materialize. rewrite !bind_run. unfold get_node. rewrite Hself'. simpl.
    by rewrite Heager.
Qed.

Section Wrappers.
Context `{Engine}.

(** X6.  The wrapper returned by [Node.__getattr__] classifies what the call
    returned.  A table (one of the four kinds, or a series, promoted to a
    one-column table) becomes exactly one new node, named after the
    operation and the caller, with the caller as only parent, in the
    caller's workspace.  An intermediate engine object becomes a proxy and
    anything else is returned as it is; in both cases the store is
    untouched. *)
Theorem getattr_wrapper_classifies s self node d nm args r :
  heap s !! self = Some node →
  is_Some (spaces s !! workspace node) →
  data_invoke d nm args = inr r →
  match table_of r with
  | Some t =>
      ∃ c s1, Node_wrapper self d nm args s = (Ret (NRNode c), s1) ∧
              derived_child s self node t (nm +:+ "_" +:+ name node)
                (nm +:+ "(" +:+ name node +:+ ")") c s1
  | None =>
      Node_wrapper self d nm args s =
        (Ret (match r with
              | ResIntermediate h => NRProxy h self nm
              | _ => NRValue r
              end), s)
  end.
Proof.
  intros Hself Hws Hcall.
  assert (Hrun : ∀ t, (node0 ← get_node self;
                       new_node ← Node_init t (Some (nm +:+ "_" +:+ name node0))
                                    (Some (workspace node0)) [self]
                                    (Some (nm +:+ "(" +:+ name node0 +:+ ")"));
                       node' ← get_node self;
                       add_node (workspace node') new_node;;
                       mret (NRNode new_node)) s
          = (Ret (NRNode (fresh_node_id s)),
             with_new_node (fresh_node_id s)
               (MkNode (nm +:+ "_" +:+ name node) t [self] [] (workspace node)
                  (Some (nm +:+ "(" +:+ name node +:+ ")"))) [self] s)).
  { intros t. rewrite bind_run. unfold get_node at 1. rewrite Hself.
    apply (spawn_child_run s self node t _ _ NRNode Hself Hws).
    by apply append_nonempty. }
  unfold Node_wrapper. rewrite bind_run. unfold lift. rewrite Hcall. unfold ret.
  destruct r as [t|col|h|v]; simpl; try done.
  - eexists _, _. split; [apply Hrun|]. by apply spawn_child_post.
  - eexists _, _. split; [apply Hrun|]. by apply spawn_child_post.
Qed.

(** X7.  The wrapper of an intermediate proxy turns a plain eager table, a
    plain lazy table or an eager document table into one new child of the
    node the proxy came from, named after both operations.  A lazy document
    table, a series and every other value are returned as they are, with
    the store untouched. *)
Theorem proxy_wrapper_classifies s h parent_node p operation_name nm args r :
  heap s !! parent_node = Some p →
  is_Some (spaces s !! workspace p) →
  handle_invoke h nm args = inr r →
  match proxy_table_of r with
  | Some t =>
      ∃ c s1, Proxy_wrapper h parent_node operation_name nm args s = (Ret (NRNode c), s1) ∧
              derived_child s parent_node p t
                (operation_name +:+ "_" +:+ nm +:+ "_" +:+ name p)
                (operation_name +:+ "." +:+ nm +:+ "(" +:+ name p +:+ ")") c s1
  | None => Proxy_wrapper h parent_node operation_name nm args s = (Ret (NRValue r), s)
  end.
Proof.
  intros Hp Hws Hcall.
  assert (Hrun : ∀ t, (p0 ← get_node parent_node;
                       new_node ← Node_init t
                                    (Some (operation_name +:+ "_" +:+ nm +:+ "_" +:+ name p0))
                                    (Some (workspace p0)) [parent_node]
                                    (Some (operation_name +:+ "." +:+ nm +:+ "(" +:+ name p0
                                           +:+ ")"));
                       p' ← get_node parent_node;
                       add_node (workspace p') new_node;;
                       mret (NRNode new_node)) s
          = (Ret (NRNode (fresh_node_id s)),
             with_new_node (fresh_node_id s)
               (MkNode (operation_name +:+ "_" +:+ nm +:+ "_" +:+ name p) t [parent_node] []
                  (workspace p)
                  (Some (operation_name +:+ "." +:+ nm +:+ "(" +:+ name p +:+ ")")))
               [parent_node] s)).
  { intros t. rewrite bind_run. unfold get_node at 1. rewrite Hp.
    apply (spawn_child_run s parent_node p t _ _ NRNode Hp Hws).
    by apply append_nonempty. }
  unfold Proxy_wrapper. rewrite bind_run. unfold lift. rewrite Hcall. unfold ret.
  destruct r as [[df|lf|dd|dl]|col|h'|v]; simpl; try done.
  - eexists _, _. split; [apply Hrun|]. by apply spawn_child_post.
  - eexists _, _. split; [apply Hrun|]. by apply spawn_child_post.
  - eexists _, _. split; [apply Hrun|]. by apply spawn_child_post.
Qed.

(** X8.  Whenever [filter] returns a node, the engine's [filter] returned one
    of the four kinds of table, and the node is the one new node of the
    store: it holds that table, has the caller as only parent and no child,
    is registered in the caller's workspace and is named [filter_<name>];
    the caller gained it as last child and no other node changed. *)
Theorem filter_lineage s self node args c s1 :
  heap s !! self = Some node →
  is_Some (spaces s !! workspace node) →
  Node_filter self args s = (Ret c, s1) →
  ∃ d, data_invoke (data node) "filter" args = inr (ResData d) ∧
       derived_child s self node d ("filter_" +:+ name node)
         ("filter(" +:+ name node +:+ ")") c s1.
Proof.
  intros Hself Hws.
  unfold Node_filter. rewrite bind_run. unfold get_node at 1. rewrite Hself.
  rewrite bind_run. unfold guarded_invoke.
  destruct (data_getattr (data node) "filter"); try done.
  unfold lift. destruct (data_invoke (data node) "filter" args) as [e|r]; [done|].
  unfold ret. destruct r as [d| | |]; try done.
  unfold Node_of_result.
  rewrite (spawn_child_run s self node d _ _ (fun i => i) Hself Hws) by done.
  intros [= <- <-]. exists d. split; [done|]. by apply spawn_child_post.
Qed.

(** X9.  Whenever [slice] returns a node, the engine's [slice] was called
    with the translated arguments (a single slice object becomes offset and
    length, or the offset alone when it has no stop) and returned one of the
    four kinds of table; the node is the one new node of the store, holds
    that table, has the caller as only parent, is registered in the caller's
    workspace and is named [slice_<name>]. *)
Theorem slice_lineage s self node args c s1 :
  heap s !! self = Some node →
  is_Some (spaces s !! workspace node) →
  Node_slice self args s = (Ret c, s1) →
  ∃ d, data_invoke (data node) "slice" (slice_args args) = inr (ResData d) ∧
       derived_child s self node d ("slice_" +:+ name node)
         ("slice(" +:+ name node +:+ ")") c s1.
Proof.
  intros Hself Hws.
  unfold Node_slice. rewrite bind_run. unfold get_node at 1. rewrite Hself.
  rewrite bind_run. unfold guarded_invoke.
  destruct (data_getattr (data node) "slice"); try done.
  unfold lift. destruct (data_invoke (data node) "slice" (slice_args args)) as [e|r]; [done|].
  unfold ret. destruct r as [d| | |]; try done.
  unfold Node_of_result.
  rewrite (spawn_child_run s self node d _ _ (fun i => i) Hself Hws) by done.
  intros [= <- <-]. exists d. split; [done|]. by apply spawn_child_post.
Qed.

End Wrappers.

(** ** Traversals *)

Lemma visit_all_spec next (U : gset node_id) fuel :
  (∀ node st, size (U ∖ visited st) < fuel →
              ∃ st', traverse fuel next node st = Some st' ∧ traverse_post next node st st') →
  ∀ l st0, size (U ∖ visited st0) < fuel →
    ∃ st' new, visit_all (traverse fuel next) l st0 = Some st' ∧
      found st' = found st0 ++ new ∧
      visited st0 ⊆ visited st' ∧
      (∀ c, c ∈ l → c ∈ visited st' ∧ c ∈ new) ∧
      (∀ v, v ∈ visited st' → v ∉ visited st0 →
            (∃ c, c ∈ l ∧ rtc (fun p c => c ∈ next p) c v) ∧
            ∀ c, c ∈ next v → c ∈ visited st' ∧ c ∈ new) ∧
      (∀ d, d ∈ new →
            d ∈ l ∨ ∃ c p, c ∈ l ∧ rtc (fun p c => c ∈ next p) c p ∧ d ∈ next p).
Proof.
  intros IH l. induction l as [|c l IHl]; intros st0 Hsize.
  - exists st0, []. simpl. rewrite app_nil_r. split_and!; try done.
    + intros c Hc. by apply elem_of_nil in Hc.
    + intros d Hd. by apply elem_of_nil in Hd.
  - unfold visit_all. simpl.
    destruct (IH c (MkWalk (visited st0) (found st0 ++ [c])) Hsize)
      as (st1 & -> & new1 & Hf1 & Hsub1 & Hc1 & Hnew1 & Hsound1).
    simpl in *.
    assert (Hsize1 : size (U ∖ visited st1) < fuel).
    { eapply Nat.le_lt_trans; [|exact Hsize]. apply subseteq_size. set_solver. }
    destruct (IHl st1 Hsize1) as (st2 & new2 & Hrun & Hf2 & Hsub2 & Hl2 & Hnew2 & Hsound2).
    exists st2, ([c] ++ new1 ++ new2). split; [exact Hrun|].
    split; [by rewrite Hf2, Hf1, <- !app_assoc|].
    split; [set_solver|].
    split_and!.
    + intros c' [->|Hc']%elem_of_cons.
      * split; [set_solver|]. set_solver.
      * destruct (Hl2 c' Hc'). split; [done|]. set_solver.
    + intros v Hv Hv0. destruct (decide (v ∈ visited st1)) as [Hv1|Hv1].
      * destruct (Hnew1 v Hv1 Hv0) as [Hr Hch]. split.
        -- exists c. split; [set_solver|done].
        -- intros c' Hc'. destruct (Hch c' Hc'). split; [set_solver|set_solver].
      * destruct (Hnew2 v Hv Hv1) as [(c' & Hc' & Hr) Hch]. split.
        -- exists c'. split; [set_solver|done].
        -- intros c'' Hc''. destruct (Hch c'' Hc''). split; [done|set_solver].
    + intros d Hd. rewrite !elem_of_app, list_elem_of_singleton in Hd.
      destruct Hd as [->|[Hd|Hd]].
      * left. set_solver.
      * right. destruct (Hsound1 d Hd) as (p & Hr & Hp). exists c, p. set_solver.
      * destruct (Hsound2 d Hd) as [Hd'|(c' & p & Hc' & Hr & Hp)].
        -- left. set_solver.
        -- right. exists c', p. set_solver.
Qed.

Lemma traverse_total next (U : gset node_id) fuel node st :
  (∀ v, next v ≠ [] → v ∈ U) →
  size (U ∖ visited st) < fuel →
  ∃ st', traverse fuel next node st = Some st' ∧ traverse_post next node st st'.
Proof.
  intros next_in_U. revert node st.
  induction fuel as [|fuel IH]; intros node st Hsize; [lia|].
  simpl. destruct (decide (node ∈ visited st)) as [Hin|Hnin].
  - exists st. split; [done|]. exists []. rewrite app_nil_r. split_and!; try done.
    intros d Hd. by apply elem_of_nil in Hd.
  - destruct (decide (next node = [])) as [Hnil|Hne].
    + rewrite Hnil. eexists. split; [reflexivity|]. exists []. simpl.
      rewrite app_nil_r. split_and!; try done; [set_solver|set_solver| |].
      * intros v Hv Hv'. assert (v = node) as -> by set_solver. split; [done|].
        intros c Hc. rewrite Hnil in Hc. by apply elem_of_nil in Hc.
      * intros d Hd. by apply elem_of_nil in Hd.
    + pose proof (next_in_U node Hne) as HU.
      assert (Hsize' : size (U ∖ ({[node]} ∪ visited st)) < fuel).
      { assert (size (U ∖ ({[node]} ∪ visited st)) < size (U ∖ visited st)); [|lia].
        apply subset_size. apply (strict_spec_alt _ _). split; [set_solver|].
        intros Heq. assert (node ∈ U ∖ ({[node]} ∪ visited st)) by (rewrite Heq; set_solver).
        set_solver. }
      destruct (visit_all_spec next U fuel IH (next node)
                  (MkWalk ({[node]} ∪ visited st) (found st)) Hsize')
        as (st' & new & Hrun & Hf & Hsub & Hl & Hnew & Hsound).
      simpl in *. exists st'. split; [exact Hrun|]. exists new. split_and!.
      * done.
      * set_solver.
      * set_solver.
      * intros v Hv Hv'. destruct (decide (v = node)) as [->|Hvn].
        -- split; [done|]. intros c Hc. by apply Hl.
        -- destruct (Hnew v Hv) as [(c & Hc & Hr) Hch]; [set_solver|].
           split; [|done]. by eapply rtc_l.
      * intros d Hd. destruct (Hsound d Hd) as [Hd'|(c & p & Hc & Hr & Hp)].
        -- by exists node.
        -- exists p. split; [|done]. by eapply rtc_l.
Qed.

(** A whole traversal, from an empty walk. *)
Lemma traverse_from_scratch next (U : gset node_id) fuel node :
  (∀ v, next v ≠ [] → v ∈ U) →
  size U < fuel →
  ∃ st', traverse fuel next node (MkWalk ∅ []) = Some st' ∧
    ∀ d, d ∈ found st' ↔ ∃ p, rtc (fun p c => c ∈ next p) node p ∧ d ∈ next p.
Proof.
  intros next_in_U Hsize.
  destruct (traverse_total next U fuel node (MkWalk ∅ []) next_in_U) as (st' & Hrun & new & Hf & _ & Hnode & Hnew & Hsound).
  { simpl. eapply Nat.le_lt_trans; [|exact Hsize]. apply subseteq_size. set_solver. }
  simpl in *. exists st'. split; [done|]. subst new. intros d. split; [apply Hsound|].
  intros (p & Hr & Hd).
  assert (Hp : p ∈ visited st').
  { clear Hd. revert p Hr. apply rtc_ind_r; [done|].
    intros y z _ Hyz Hy. by apply (Hnew y Hy). }
  by apply (Hnew p Hp).
Qed.

Lemma edges_allocated s (next : node_id → State → list node_id) :
  (next = node_children ∨ next = node_parents) →
  ∀ v, next v s ≠ [] → v ∈ dom (heap s).
Proof.
  intros [->| ->] v Hv; apply elem_of_dom.
  - unfold node_children in Hv. by destruct (heap s !! v).
  - unfold node_parents in Hv. by destruct (heap s !! v).
Qed.

(** X10.  [get_descendants] always returns, also on a store whose child
    lists form cycles.  For an id the workspace does not hold it returns the
    empty list.  For a registered node it returns a list that contains
    exactly the nodes reachable from it along one or more child edges,
    wherever they are registered (the node itself only if it lies on a
    cycle). *)
Theorem get_descendants_spec self node_id s :
  ∃ l, get_descendants self node_id s = Some l ∧
       (¬ registered s self node_id → l = []) ∧
       (registered s self node_id →
        ∀ d, d ∈ l ↔ ∃ p, reachable s node_id p ∧ child_edge s p d).
Proof.
  unfold get_descendants, registered.
  destruct (decide (node_id ∈ ws_nodes self s)) as [Hreg|Hreg].
  - destruct (traverse_from_scratch (fun i => node_children i s) (dom (heap s))
                (traverse_fuel s) node_id) as (st' & -> & Hspec).
    { intros v. by apply (edges_allocated s node_children); left. }
    { unfold traverse_fuel. lia. }
    exists (found st'). split; [done|]. split; [done|]. intros _. exact Hspec.
  - exists []. split; [done|]. split; [done|]. done.
Qed.

(** X11.  [get_ancestors] always returns.  For an id the workspace does not
    hold it returns the empty list.  For a registered node it returns a
    list that contains exactly the nodes reachable from it along one or
    more entries of parents lists. *)
Theorem get_ancestors_spec self node_id s :
  ∃ l, get_ancestors self node_id s = Some l ∧
       (¬ registered s self node_id → l = []) ∧
       (registered s self node_id →
        ∀ a, a ∈ l ↔ ∃ c, rtc (parent_edge s) node_id c ∧ parent_edge s c a).
Proof.
  unfold get_ancestors, registered.
  destruct (decide (node_id ∈ ws_nodes self s)) as [Hreg|Hreg].
  - destruct (traverse_from_scratch (fun i => node_parents i s) (dom (heap s))
                (traverse_fuel s) node_id) as (st' & -> & Hspec).
    { intros v. by apply (edges_allocated s node_parents); right. }
    { unfold traverse_fuel. lia. }
    exists (found st'). split; [done|]. split; [done|]. intros _. exact Hspec.
  - exists []. split; [done|]. split; [done|]. done.
Qed.

(** ** Orders and metadata *)

Lemma filter_not_in_filter (P : node_id → Prop) `{∀ x, Decision (P x)} (l l0 : list node_id) :
  (∀ x, x ∈ l → x ∈ l0) →
  filter (fun i => i ∉ filter P l0) l = filter (fun i => ¬ P i) l.
Proof.
  induction l as [|x l IH]; intros Hsub; [done|].
  assert (Hx : x ∈ l0) by (apply Hsub; left).
  assert (Hl : ∀ y, y ∈ l → y ∈ l0) by (intros y Hy; apply Hsub; by right).
  destruct (decide (P x)) as [HP|HP].
  - rewrite !filter_cons_False; [by apply IH|by intros ?|].
    intros Hn. apply Hn. by apply list_elem_of_filter.
  - rewrite !filter_cons_True; [by rewrite IH|done|].
    intros [? _]%list_elem_of_filter. done.
Qed.

Lemma StronglySorted_filter {A} (R : relation A) (P : A → Prop) `{∀ x, Decision (P x)} l :
  StronglySorted R l → StronglySorted R (filter P l).
Proof.
  induction l as [|x l IH]; intros Hs; [constructor|].
  apply StronglySorted_cons in Hs as [Hx Hl].
  destruct (decide (P x)).
  - rewrite filter_cons_True by done. apply StronglySorted_cons. split; [|by apply IH].
    rewrite Forall_forall in Hx |- *. intros y [_ Hy]%list_elem_of_filter. by apply Hx.
  - rewrite filter_cons_False by done. by apply IH.
Qed.

(** X12.  [get_topological_order] returns every node of the workspace
    exactly as often as the registry holds it: the root nodes first, in
    registry order, then the nodes that have a parent, in registry order. *)
Theorem topological_order_permutation self s :
  get_topological_order self s ≡ₚ list_nodes self s ∧
  get_topological_order self s =
    get_root_nodes self s ++ filter (fun i => node_parents i s ≠ []) (ws_nodes self s).
Proof.
  unfold get_topological_order, get_root_nodes, list_nodes.
  rewrite (filter_not_in_filter (fun i => node_parents i s = [])) by done.
  split; [apply filter_app_complement|done].
Qed.

(** X13.  If no node of the registry comes before one of its parents, then
    no node of [get_topological_order] comes before one of its parents: on
    such a workspace the order is topological. *)
Theorem topological_order_parents_first self s :
  parents_first s (list_nodes self s) →
  parents_first s (get_topological_order self s).
Proof.
  unfold parents_first, list_nodes, get_topological_order, get_root_nodes. intros Hs.
  apply StronglySorted_app_2.
  - intros r x [Hr _]%list_elem_of_filter _. rewrite Hr. apply not_elem_of_nil.
  - by apply StronglySorted_filter.
  - by apply StronglySorted_filter.
Qed.

Lemma meta_get_set_eq key value d : meta_get key (meta_set key value d) = Some value.
Proof.
  unfold meta_get. induction d as [|[k v] d IH]; simpl.
  - by rewrite decide_True.
  - destruct (decide (k = key)) as [->|Hne]; simpl.
    + by rewrite decide_True.
    + rewrite decide_False by done.
      destruct (list_find _ (meta_set key value d)) as [[i q]|]; simpl in *; [done|done].
Qed.

Lemma meta_get_set_ne key key' value d :
  key' ≠ key → meta_get key' (meta_set key value d) = meta_get key' d.
Proof.
  intros Hne. unfold meta_get. induction d as [|[k v] d IH]; simpl.
  - by rewrite decide_False by (simpl; congruence).
  - destruct (decide (k = key)) as [->|Hk]; simpl.
    + by rewrite !decide_False by (simpl; congruence).
    + destruct (decide (k = key')) as [->|Hk']; [done|].
      destruct (list_find _ (meta_set key value d)) as [[i q]|],
               (list_find _ d) as [[i' q']|]; simpl in *; congruence.
Qed.

(** X14.  Metadata behaves as a dict per workspace: after
    [set_metadata(key, value)] on an existing workspace, [get_metadata(key)]
    returns [value], every other key and every other workspace reads as
    before, and nodes and registries are untouched. *)
Theorem metadata_set_get self key value s :
  is_Some (spaces s !! self) →
  ∃ s', set_metadata self key value s = (Ret tt, s') ∧
        get_metadata self key s' = Some value ∧
        (∀ key', key' ≠ key → get_metadata self key' s' = get_metadata self key' s) ∧
        (∀ w key', w ≠ self → get_metadata w key' s' = get_metadata w key' s) ∧
        heap s' = heap s ∧
        (∀ w, ws_nodes w s' = ws_nodes w s).
Proof.
  intros [ws Hws]. eexists. split; [reflexivity|]. unfold get_metadata, ws_nodes. simpl.
  split_and!.
  - rewrite lookup_alter_eq, Hws. simpl. apply meta_get_set_eq.
  - intros key' Hne. rewrite lookup_alter_eq, Hws. simpl. by apply meta_get_set_ne.
  - intros w key' Hw. by rewrite lookup_alter_ne.
  - done.
  - intros w. destruct (decide (w = self)) as [->|Hw].
    + by rewrite lookup_alter_eq, Hws.
    + by rewrite lookup_alter_ne.
Qed.

(** ** docframe: designation *)

Lemma schema_lookup_Some schema c ty :
  schema_lookup schema c = Some ty → (c, ty) ∈ schema.
Proof.
  unfold schema_lookup. destruct (list_find _ schema) as [[i [c' ty']]|] eqn:Hf; [|done].
  apply list_find_Some in Hf as (Hi & Hc & _). simpl in *. intros [= <-]. subst c'.
  by eapply list_elem_of_lookup_2.
Qed.

Lemma schema_lookup_NoDup schema c ty :
  NoDup (map fst schema) → (c, ty) ∈ schema → schema_lookup schema c = Some ty.
Proof.
  unfold schema_lookup. induction schema as [|[c' ty'] schema IH]; intros Hnd Hin.
  - by apply elem_of_nil in Hin.
  - simpl in *. apply NoDup_cons in Hnd as [Hc' Hnd].
    destruct (decide (c' = c)) as [->|Hne]; simpl.
    + apply elem_of_cons in Hin as [[= <-]|Hin]; [done|].
      exfalso. apply Hc'. apply list_elem_of_fmap. by exists (c, ty).
    + apply elem_of_cons in Hin as [[= <- <-]|Hin]; [done|].
      specialize (IH Hnd Hin).
      destruct (list_find _ schema) as [[i q]|]; simpl in *; [done|done].
Qed.

Lemma string_columns_spec schema c :
  c ∈ string_columns schema ↔ (c, Utf8) ∈ schema.
Proof.
  unfold string_columns. rewrite list_elem_of_fmap. split.
  - intros ([c' ty] & -> & [Hty Hin]%list_elem_of_filter). simpl in *. by subst ty.
  - intros Hin. exists (c, Utf8). split; [done|]. by apply list_elem_of_filter.
Qed.

Lemma df_schema_names df : map fst (df_schema df) = df_columns df.
Proof. unfold df_schema, df_columns. rewrite map_map. done. Qed.

Lemma py_max_by_spec {A} (f : A → nat * nat) best rest :
  (∀ k, 0 < snd (f k)) →
  py_max_by f best rest ∈ best :: rest ∧
  ∀ k, k ∈ best :: rest → frac_ltb (f (py_max_by f best rest)) (f k) = false.
Proof.
  intros Hpos. unfold py_max_by.
  assert (Hgen : ∀ seen b, b ∈ seen → (∀ k, k ∈ seen → frac_ltb (f b) (f k) = false) →
            foldl (fun b k => if frac_ltb (f b) (f k) then k else b) b rest ∈ seen ++ rest ∧
            ∀ k, k ∈ seen ++ rest →
                 frac_ltb (f (foldl (fun b k => if frac_ltb (f b) (f k) then k else b) b rest))
                          (f k) = false).
  { induction rest as [|x rest IH]; intros seen b Hb Hmax; simpl.
    - rewrite app_nil_r. done.
    - replace (seen ++ x :: rest) with ((seen ++ [x]) ++ rest) by (by rewrite <- app_assoc).
      destruct (frac_ltb (f b) (f x)) eqn:Hlt; apply IH.
      + set_solver.
      + intros k [Hk|Hk%list_elem_of_singleton]%elem_of_app.
        * specialize (Hmax k Hk). unfold frac_ltb in *.
          apply Nat.ltb_lt in Hlt. apply Nat.ltb_ge in Hmax. apply Nat.ltb_ge.
          pose proof (Hpos b). pose proof (Hpos k). pose proof (Hpos x).
          destruct (f b) as [a2 b2], (f k) as [a1 b1], (f x) as [a3 b3]. simpl in *.
          assert (a1 * b2 * b3 ≤ a2 * b1 * b3) by nia.
          assert (a2 * b3 * b1 < a3 * b2 * b1) by nia.
          nia.
        * subst k. unfold frac_ltb. apply Nat.ltb_ge. lia.
      + set_solver.
      + intros k [Hk|Hk%list_elem_of_singleton]%elem_of_app; [by apply Hmax|].
        by subst k. }
  destruct (Hgen [best] best) as [H1 H2].
  - set_solver.
  - intros k ->%list_elem_of_singleton. unfold frac_ltb. apply Nat.ltb_ge. lia.
  - done.
Qed.

Lemma mean_length_pos sample k : 0 < snd (mean_length sample k).
Proof.
  unfold mean_length, len_chars_mean.
  destruct (omap _ (column_cells sample k)) as [|x l]; simpl; lia.
Qed.

Lemma guess_among_string_columns df :
  (guess_document_column_df df = None ↔ string_columns (df_schema df) = []) ∧
  ∀ g, guess_document_column_df df = Some g → g ∈ string_columns (df_schema df).
Proof.
  unfold guess_document_column_df, guess_from.
  destruct (string_columns (df_schema df)) as [|c [|c' rest]] eqn:Hcols.
  - split; [done|]. intros g. done.
  - split; [done|]. intros g [= <-]. set_solver.
  - split; [done|]. intros g [= <-].
    apply (py_max_by_spec (mean_length (df_head sample_size df)) c (c' :: rest)).
    apply mean_length_pos.
Qed.

(** X15.  [guess_document_column] on an eager table returns [None] exactly
    when the table has no string column.  What it returns otherwise is a
    string column of the table, and no string column has a larger mean
    string length over the first [sample_size] rows. *)
Theorem guess_document_column_longest df :
  (guess_document_column_df df = None ↔ string_columns (df_schema df) = []) ∧
  ∀ g, guess_document_column_df df = Some g →
       g ∈ string_columns (df_schema df) ∧
       ∀ k, k ∈ string_columns (df_schema df) →
            frac_ltb (mean_length (df_head sample_size df) g)
                     (mean_length (df_head sample_size df) k) = false.
Proof.
  unfold guess_document_column_df, guess_from.
  destruct (string_columns (df_schema df)) as [|c [|c' rest]] eqn:Hcols.
  - split; [done|]. intros g. done.
  - split; [done|]. intros g [= <-]. split; [set_solver|].
    intros k ->%list_elem_of_singleton. unfold frac_ltb. apply Nat.ltb_ge. lia.
  - split; [done|]. intros g [= <-].
    apply (py_max_by_spec (mean_length (df_head sample_size df)) c (c' :: rest)).
    apply mean_length_pos.
Qed.

(** X16.  [DocDataFrame(df)] without a document column, on a table with
    distinct column names: it raises [ValueError] when the table has no
    string column, and otherwise wraps the same table and designates one of
    its string columns. *)
Theorem auto_designation df :
  NoDup (df_columns df) →
  match string_columns (df_schema df) with
  | [] => ∃ msg, DocDataFrame_init df None = inl (Raise ValueError msg)
  | _ :: _ =>
      ∃ c, DocDataFrame_init df None = inr (MkDocDataFrame df c) ∧
           c ∈ string_columns (df_schema df) ∧ designated (MkDocDataFrame df c)
  end.
Proof.
  intros Hnd. rewrite <- df_schema_names in Hnd.
  destruct (guess_among_string_columns df) as [Hnone Hsome].
  unfold DocDataFrame_init, designated.
  destruct (string_columns (df_schema df)) as [|c0 rest] eqn:Hcols.
  - rewrite (proj2 Hnone) by done.
    destruct (schema_lookup (df_schema df) "document") as [ty|] eqn:Hl; [|by eexists].
    destruct (decide (ty = Utf8)) as [->|Hty]; [|by eexists].
    apply schema_lookup_Some, string_columns_spec in Hl. rewrite Hcols in Hl.
    by apply elem_of_nil in Hl.
  - destruct (guess_document_column_df df) as [g|] eqn:Hg.
    + pose proof (Hsome g eq_refl) as Hin.
      assert (Hl : schema_lookup (df_schema df) g = Some Utf8).
      { apply schema_lookup_NoDup; [done|]. apply string_columns_spec. by rewrite Hcols. }
      exists g. simpl. rewrite Hl. by rewrite decide_True.
    + by pose proof (proj1 Hnone eq_refl).
Qed.

(** X17.  [set_document] succeeds exactly on the string columns of the
    table: then it returns the same table designated by that column, and
    otherwise it raises [ValueError].  On a well-formed value, designating
    the current document column again changes nothing. *)
Theorem set_document_spec d column_name :
  (schema_lookup (df_schema (ddf_df d)) column_name = Some Utf8 →
   set_document d column_name = inr (MkDocDataFrame (ddf_df d) column_name)) ∧
  (schema_lookup (df_schema (ddf_df d)) column_name ≠ Some Utf8 →
   ∃ msg, set_document d column_name = inl (Raise ValueError msg)) ∧
  (designated d → set_document d (ddf_document_column_name d) = inr d).
Proof.
  unfold set_document, designated. split_and!.
  - intros Hl. rewrite Hl, decide_True by done. by apply DocDataFrame_init_valid.
  - intros Hl. destruct (schema_lookup _ column_name) as [ty|]; [|by eexists].
    destruct (decide (ty = Utf8)) as [->|]; [done|by eexists].
  - intros Hl. rewrite Hl, decide_True by done. destruct d as [df c].
    by apply DocDataFrame_init_valid.
Qed.

(** X18.  A well-formed document table converts to a lazy one and back
    without loss: [to_doclazyframe] succeeds, keeps the designation, and
    [to_docdataframe] (or [collect]) of the result is the value started
    from. *)
Theorem lazy_conversion_round_trip d :
  designated d →
  ∃ l, to_doclazyframe d = inr l ∧
       dlf_document_column_name l = Some (ddf_document_column_name d) ∧
       to_docdataframe l = inr d.
Proof.
  unfold designated, to_doclazyframe, to_docdataframe. intros Hl. destruct d as [df c].
  cbn [ddf_df ddf_document_column_name] in *.
  rewrite (DocLazyFrame_init_valid _ _ Hl). eexists. split; [done|].
  split; [done|]. unfold DocLazyFrame_collect.
  cbn [dlf_df dlf_document_column_name df_lazy lf_collect]. by apply DocDataFrame_init_valid.
Qed.

(** ** docframe: persistence *)



Section DocPersistence.
Context `{Engine}.

(** X19.  A well-formed document table survives [serialize] followed by
    [deserialize] unchanged, table and designation, whenever the engine
    rebuilds the table from its dict of column lists. *)
Theorem docdataframe_round_trip d :
  designated d →
  pl_from_dict (to_dict (ddf_df d)) = inr (ddf_df d) →
  DocDataFrame_deserialize (DocDataFrame_serialize d) = inr d.
Proof.
  unfold designated. intros Hl Hdict. destruct d as [df c].
  unfold DocDataFrame_serialize, DocDataFrame_deserialize.
  cbn [ddf_df ddf_document_column_name] in *. rewrite Hdict.
  by apply DocDataFrame_init_valid.
Qed.


End DocPersistence.

(** ** Persistence: loading any document *)

Section LoadAny.
Context `{Engine}.

Lemma load_node_cases w acc key sn :
  (¬ loadable sn ∧ load_node w acc (key, sn) = acc) ∨
  (loadable sn ∧
   ∃ d, data_deserialize (sn_type sn) (sn_serialized_data sn) = inr d ∧
        load_node w acc (key, sn) =
          (register_in w (sn_id sn)
             (MkState (<[sn_id sn := MkNode (sn_name sn) d [] [] w (sn_operation sn)]>
                         (heap acc.1)) (spaces acc.1)),
           <[key := sn_id sn]> acc.2)).
Proof.
  unfold load_node, loadable, Node_deserialize.
  destruct (sn_error sn) as [e|]; [left; split; [by intros [? _]|done]|].
  destruct (data_deserialize (sn_type sn) (sn_serialized_data sn)) as [e|d].
  - left. split; [by intros [_ [? ?]]|done].
  - right. split; [by eauto|]. by exists d.
Qed.

Lemma ws_nodes_register_in w i s ws :
  spaces s !! w = Some ws →
  ws_nodes w (register_in w i s) = dict_set i (ws_nodes w s).
Proof. intros Hws. unfold ws_nodes, register_in. simpl. by rewrite lookup_alter_eq, Hws. Qed.

Lemma load_nodes_any w nm0 meta entries acc :
  loading_inv w acc.1 acc.2 → bare acc.1 → labelled w nm0 meta acc.1 →
  let acc' := foldl (load_node w) acc entries in
  loading_inv w acc'.1 acc'.2 ∧ bare acc'.1 ∧ labelled w nm0 meta acc'.1 ∧
  ∀ i, i ∈ ws_nodes w acc'.1 ↔
       i ∈ ws_nodes w acc.1 ∨ ∃ key sn, (key, sn) ∈ entries ∧ sn_id sn = i ∧ loadable sn.
Proof.
  revert acc.
  induction entries as [|[key sn] entries IH]; intros acc Hinv Hbare Hlab; cbn [foldl].
  - split_and!; try done. intros i. split; [by left|].
    intros [?|(? & ? & ?%elem_of_nil & _)]; done.
  - destruct (load_node_cases w acc key sn) as [[Hbad ->]|(Hgood & d & Hd & ->)].
    + destruct (IH acc Hinv Hbare Hlab) as (? & ? & ? & Hreg). split_and!; try done.
      intros i. rewrite Hreg. split.
      * intros [?|(k & sn' & Hin & ? & ?)]; [by left|]. right. exists k, sn'. split; [by right|done].
      * intros [?|(k & sn' & [[= -> ->]|Hin]%elem_of_cons & ? & ?)]; [by left|done|].
        right. by exists k, sn'.
    + destruct acc as [s nm]. simpl in *.
      destruct Hlab as (ws & Hws & Hname & Hmeta).
      destruct Hinv as (Honly & Hown & Halloc & Hmap & Hnd).
      set (s1 := register_in w (sn_id sn)
                   (MkState (<[sn_id sn := MkNode (sn_name sn) d [] [] w (sn_operation sn)]>
                               (heap s)) (spaces s))).
      assert (Hreg1 : ws_nodes w s1 = dict_set (sn_id sn) (ws_nodes w s)).
      { unfold s1. by rewrite (ws_nodes_register_in _ _ _ ws). }
      assert (Hheap1 : heap s1 = <[sn_id sn := MkNode (sn_name sn) d [] [] w (sn_operation sn)]>
                                   (heap s)) by done.
      destruct (IH (s1, <[key := sn_id sn]> nm)) as (? & ? & ? & Hreg).
      * simpl. split_and!.
        -- intros w' Hw'. unfold s1, register_in. simpl. rewrite lookup_alter_ne by done.
           by apply Honly.
        -- intros i n. rewrite Hheap1, Hreg1, elem_of_dict_set.
           destruct (decide (i = sn_id sn)) as [->|Hne].
           ++ rewrite lookup_insert_eq. intros [= <-]. split; [done|by left].
           ++ rewrite lookup_insert_ne by done. intros Hi.
              destruct (Hown i n Hi). split; [done|by right].
        -- intros i. rewrite Hheap1, Hreg1, elem_of_dict_set.
           destruct (decide (i = sn_id sn)) as [->|Hne].
           ++ rewrite lookup_insert_eq. by eexists.
           ++ rewrite lookup_insert_ne by done. intros [?|?]; [done|]. by apply Halloc.
        -- intros k i. rewrite Hheap1.
           destruct (decide (k = key)) as [->|Hk].
           ++ rewrite lookup_insert_eq. intros [= <-]. rewrite lookup_insert_eq. by eexists.
           ++ rewrite lookup_insert_ne by done. intros Hi.
              destruct (decide (i = sn_id sn)) as [->|Hne].
              ** rewrite lookup_insert_eq. by eexists.
              ** rewrite lookup_insert_ne by done. by eapply Hmap.
        -- rewrite Hreg1. by apply dict_set_NoDup.
      * simpl. intros i n. rewrite Hheap1.
        destruct (decide (i = sn_id sn)) as [->|Hne].
        -- rewrite lookup_insert_eq. by intros [= <-].
        -- rewrite lookup_insert_ne by done. apply Hbare.
      * unfold labelled, s1, register_in. simpl. rewrite lookup_alter_eq, Hws. simpl.
        eexists. split; [done|]. done.
      * split_and!; try done. intros i. rewrite Hreg. simpl. rewrite Hreg1, elem_of_dict_set.
        split.
        -- intros [[->|?]|(k & sn' & Hin & ? & ?)].
           ++ right. exists key, sn. split; [by left|done].
           ++ by left.
           ++ right. exists k, sn'. split; [by right|done].
        -- intros [?|(k & sn' & [[= -> ->]|Hin]%elem_of_cons & ? & ?)].
           ++ left. by right.
           ++ left. by left.
           ++ right. by exists k, sn'.
Qed.

Lemma link_paired nm s rel :
  (∀ k i, nm !! k = Some i → is_Some (heap s !! i)) →
  edges_paired s → edges_paired (link nm s rel).
Proof.
  intros Hmap [Hsym Halloc]. unfold link.
  destruct (nm !! rel.1) as [p|] eqn:Hp; [|done].
  destruct (nm !! rel.2) as [c|] eqn:Hc; [|done].
  pose proof (Hmap _ _ Hp) as Hpa. pose proof (Hmap _ _ Hc) as Hca.
  destruct (decide (c ∈ node_children p s)) as [Hin|Hnin].
  - rewrite decide_True by (by apply Hsym). done.
  - rewrite (node_parents_upd_children (append_child c) p s c) by done.
    rewrite decide_False by (by rewrite <- Hsym).
    assert (Hca1 : is_Some (heap (upd_node (append_child c) p s) !! c)).
    { simpl. rewrite lookup_alter. case_decide; [|done]. subst. by apply fmap_is_Some. }
    assert (Hch : ∀ p' c', c' ∈ node_children p'
                      (upd_node (append_parent p) c (upd_node (append_child c) p s)) ↔
                    c' ∈ node_children p' s ∨ (p' = p ∧ c' = c)).
    { intros p' c'. rewrite node_children_upd_parents by done.
      rewrite elem_of_node_children_append. naive_solver. }
    assert (Hpr : ∀ p' c', p' ∈ node_parents c'
                      (upd_node (append_parent p) c (upd_node (append_child c) p s)) ↔
                    p' ∈ node_parents c' s ∨ (p' = p ∧ c' = c)).
    { intros p' c'. rewrite elem_of_node_parents_append.
      rewrite (node_parents_upd_children (append_child c) p s c') by done. naive_solver. }
    assert (Hsome : ∀ j, is_Some (heap s !! j) →
              is_Some (heap (upd_node (append_parent p) c (upd_node (append_child c) p s)) !! j)).
    { intros j Hj. simpl. rewrite !lookup_alter. repeat case_decide; subst;
        rewrite ?fmap_is_Some; done. }
    split.
    + intros p' c'. rewrite Hch, Hpr, Hsym. done.
    + intros p' c' [Hold|[-> ->]]%Hch.
      * destruct (Halloc _ _ Hold). split; by apply Hsome.
      * split; by apply Hsome.
Qed.

Lemma links_paired nm rels s :
  (∀ k i, nm !! k = Some i → is_Some (heap s !! i)) →
  edges_paired s → edges_paired (foldl (link nm) s rels).
Proof.
  revert s. induction rels as [|rel rels IH]; intros s Hmap Hp; [done|]. simpl.
  apply IH; [|by apply link_paired].
  intros k i Hk. destruct (link_label nm s rel) as [_ Hl].
  apply (label_is_Some _ _ _ (Hl i)). by eapply Hmap.
Qed.

Lemma load_nodes_content w entries acc :
  NoDup (map (fun e : node_id * serialized_node => sn_id e.2) entries) →
  let acc' := foldl (load_node w) acc entries in
  (∀ key sn, (key, sn) ∈ entries → loadable sn →
     ∃ dd, data_deserialize (sn_type sn) (sn_serialized_data sn) = inr dd ∧
           heap acc'.1 !! sn_id sn = Some (MkNode (sn_name sn) dd [] [] w (sn_operation sn))) ∧
  (∀ j, j ∉ map (fun e : node_id * serialized_node => sn_id e.2) entries →
        heap acc'.1 !! j = heap acc.1 !! j).
Proof.
  revert acc. induction entries as [|[key sn] entries IH]; intros acc Hnd; cbn [foldl].
  - split; [|done]. intros key sn Hin. by apply elem_of_nil in Hin.
  - cbn [map] in Hnd. apply NoDup_cons in Hnd as [Hfresh Hnd]. simpl in Hfresh.
    destruct (IH (load_node w acc (key, sn)) Hnd) as [Hcontent Hrest].
    split.
    + intros key' sn' [[= -> ->]|Hin]%elem_of_cons Hload; [|by apply (Hcontent key' sn')].
      rewrite (Hrest _ Hfresh).
      destruct (load_node_cases w acc key sn) as [[Hbad _]|(_ & dd & Hdd & ->)]; [done|].
      exists dd. split; [done|]. simpl. by rewrite lookup_insert_eq.
    + intros j Hj. cbn [map] in Hj. apply not_elem_of_cons in Hj as [Hj1 Hj2]. simpl in Hj1.
      rewrite (Hrest j Hj2).
      destruct (load_node_cases w acc key sn) as [[_ ->]|(_ & dd & _ & ->)]; [done|].
      simpl. by rewrite lookup_insert_ne.
Qed.

Lemma load_nodes_map w entries acc :
  NoDup (map fst entries) →
  (∀ k, k ∈ map fst entries → acc.2 !! k = None) →
  let acc' := foldl (load_node w) acc entries in
  ∀ k i, acc'.2 !! k = Some i ↔
         acc.2 !! k = Some i ∨ ∃ sn, (k, sn) ∈ entries ∧ loadable sn ∧ sn_id sn = i.
Proof.
  revert acc. induction entries as [|[key sn] entries IH]; intros acc Hnd Hnew; cbn [foldl].
  - intros k i. split; [by left|]. intros [?|(? & ?%elem_of_nil & _)]; done.
  - cbn [map] in Hnd. apply NoDup_cons in Hnd as [Hfresh Hnd]. simpl in Hfresh.
    assert (Hkey : acc.2 !! key = None) by (apply Hnew; left).
    intros k i.
    destruct (load_node_cases w acc key sn) as [[Hbad Heq]|(Hgood & dd & _ & Heq)];
      rewrite Heq.
    + rewrite IH; [|done|intros k' Hk'; apply Hnew; by right].
      split.
      * intros [?|(sn' & Hin & ? & ?)]; [by left|]. right. exists sn'. split; [by right|done].
      * intros [?|(sn' & [[= -> ->]|Hin]%elem_of_cons & ? & ?)]; [by left|done|].
        right. by exists sn'.
    + rewrite IH; [|done|].
      2:{ intros k' Hk'. simpl. rewrite lookup_insert_ne by (by intros ->).
          apply Hnew. by right. }
      simpl. split.
      * intros [Hk|(sn' & Hin & ? & ?)].
        -- destruct (decide (k = key)) as [->|Hne].
           ++ rewrite lookup_insert_eq in Hk. injection Hk as <-.
              right. exists sn. split; [by left|done].
           ++ rewrite lookup_insert_ne in Hk by done. by left.
        -- right. exists sn'. split; [by right|done].
      * intros [Hk|(sn' & [[= -> ->]|Hin]%elem_of_cons & ? & ?)].
        -- left. rewrite lookup_insert_ne; [done|]. intros ->. congruence.
        -- left. subst i. by rewrite lookup_insert_eq.
        -- right. by exists sn'.
Qed.

Lemma link_children_any nm s rel p' c' :
  (∀ k i, nm !! k = Some i → is_Some (heap s !! i)) →
  c' ∈ node_children p' (link nm s rel) ↔
  c' ∈ node_children p' s ∨ (nm !! rel.1 = Some p' ∧ nm !! rel.2 = Some c').
Proof.
  intros Hmap. unfold link.
  destruct (nm !! rel.1) as [p|] eqn:Hp; [|naive_solver].
  destruct (nm !! rel.2) as [c|] eqn:Hc; [|naive_solver].
  pose proof (Hmap _ _ Hp) as Hpa. simpl.
  destruct (decide (c ∈ node_children p s)) as [Hin|Hnin].
  - destruct (decide (p ∈ node_parents c s)).
    + naive_solver.
    + rewrite node_children_upd_parents by done. naive_solver.
  - destruct (decide (p ∈ node_parents c (upd_node (append_child c) p s))).
    + rewrite elem_of_node_children_append. naive_solver.
    + rewrite node_children_upd_parents by done.
      rewrite elem_of_node_children_append. naive_solver.
Qed.

Lemma links_children_any nm rels s p' c' :
  (∀ k i, nm !! k = Some i → is_Some (heap s !! i)) →
  c' ∈ node_children p' (foldl (link nm) s rels) ↔
  c' ∈ node_children p' s ∨
  ∃ kp kc, (kp, kc) ∈ rels ∧ nm !! kp = Some p' ∧ nm !! kc = Some c'.
Proof.
  revert s. induction rels as [|[kp kc] rels IH]; intros s Hmap; cbn [foldl].
  - split; [by left|]. intros [?|(? & ? & ?%elem_of_nil & _)]; done.
  - rewrite IH.
    2:{ intros k i Hk. destruct (link_label nm s (kp, kc)) as [_ Hl].
        apply (label_is_Some _ _ _ (Hl i)). by eapply Hmap. }
    rewrite link_children_any by done. simpl. split.
    + intros [[?|[? ?]]|(kp' & kc' & Hin & ? & ?)].
      * by left.
      * right. exists kp, kc. split; [by left|done].
      * right. exists kp', kc'. split; [by right|done].
    + intros [?|(kp' & kc' & [[= -> ->]|Hin]%elem_of_cons & ? & ?)].
      * left. by left.
      * left. by right.
      * right. by exists kp', kc'.
Qed.

(** X21.  The loader yields a consistent workspace from every document
    whose entries have distinct keys, distinct recorded ids and payloads of
    the shape their type tags announce.  The workspace keeps the recorded
    name and metadata.  Its nodes are exactly the entries without error
    marker whose data deserializes, each registered once under its recorded
    id, with the recorded name and operation and the deserialized data.  Its
    edges are exactly the recorded relationships whose two keys both name a
    loaded entry.  Every node it allocates is registered in it and points to
    it, every child listed exists, and every edge is recorded at both
    ends. *)
Theorem deserialize_well_formed (d : workspace_data) :
  document_in_model d →
  let s := Workspace_deserialize d in
  (∃ ws, spaces s !! wd_id d = Some ws ∧
         ws_name ws = wd_name d ∧ ws_metadata ws = wd_metadata d) ∧
  (∀ i, registered s (wd_id d) i ↔
        ∃ key sn, (key, sn) ∈ wd_nodes d ∧ sn_id sn = i ∧ loadable sn) ∧
  (∀ key sn, (key, sn) ∈ wd_nodes d → loadable sn →
     ∃ n, heap s !! sn_id sn = Some n ∧
          name n = sn_name sn ∧ operation n = sn_operation sn ∧
          data_deserialize (sn_type sn) (sn_serialized_data sn) = inr (data n)) ∧
  (∀ p c, c ∈ node_children p s ↔
          ∃ kp kc snp snc,
            (kp, kc) ∈ wd_relationships d ∧
            (kp, snp) ∈ wd_nodes d ∧ loadable snp ∧ sn_id snp = p ∧
            (kc, snc) ∈ wd_nodes d ∧ loadable snc ∧ sn_id snc = c) ∧
  NoDup (ws_nodes (wd_id d) s) ∧
  (∀ i, is_Some (heap s !! i) ↔ registered s (wd_id d) i) ∧
  ownership s ∧ children_allocated s ∧
  ∀ p c, c ∈ node_children p s ↔ p ∈ node_parents c s.
Proof.
  intros (Hkeys & Hids & _).
  unfold Workspace_deserialize.
  set (w := wd_id d).
  set (s0 := MkState ∅ {[w := MkWorkspace (wd_name d) [] (wd_metadata d)]}).
  destruct (load_nodes_any w (wd_name d) (wd_metadata d) (wd_nodes d) (s0, ∅))
    as ((Honly & Hown & Halloc & Hmap & Hnd) & Hbare & (ws & Hws & Hname & Hmeta) & Hreg).
  { unfold loading_inv, s0, ws_nodes. cbn [fst snd heap spaces]. split_and!.
    - intros w' Hw'. by rewrite lookup_singleton_ne.
    - intros i n. by rewrite lookup_empty.
    - intros i. rewrite lookup_singleton_eq. cbn [nodes]. by intros ?%elem_of_nil.
    - intros k i. by rewrite lookup_empty.
    - rewrite lookup_singleton_eq. cbn [nodes]. constructor. }
  { unfold bare, s0. cbn [fst snd heap spaces]. intros i n. by rewrite lookup_empty. }
  { unfold labelled, s0. cbn [fst snd heap spaces]. eexists. rewrite lookup_singleton_eq. done. }
  destruct (load_nodes_content w (wd_nodes d) (s0, ∅) Hids) as [Hcontent _].
  pose proof (load_nodes_map w (wd_nodes d) (s0, ∅) Hkeys (fun k _ => lookup_empty k))
    as Hnm.
  set (loaded := foldl (load_node w) (s0, ∅) (wd_nodes d)) in *.
  set (s := foldl (link loaded.2) loaded.1 (wd_relationships d)).
  destruct (links_label loaded.2 (wd_relationships d) loaded.1) as [Hsp Hlab]. fold s in Hsp, Hlab.
  assert (Hch0 : ∀ p, node_children p loaded.1 = []).
  { intros p. unfold node_children. destruct (heap loaded.1 !! p) as [n|] eqn:Hp; [|done].
    by destruct (Hbare _ _ Hp). }
  assert (Hpaired : edges_paired s).
  { apply links_paired; [done|].
    assert (Hpr : ∀ c, node_parents c loaded.1 = []).
    { intros c. unfold node_parents. destruct (heap loaded.1 !! c) as [n|] eqn:Hc; [|done].
      by destruct (Hbare _ _ Hc). }
    split.
    - intros p c. rewrite Hch0, Hpr. split; by intros ?%elem_of_nil.
    - intros p c. rewrite Hch0. by intros ?%elem_of_nil. }
  assert (Hregs : ws_nodes w s = ws_nodes w loaded.1).
  { unfold ws_nodes. by rewrite Hsp. }
  assert (Hsome : ∀ i, is_Some (heap s !! i) ↔ is_Some (heap loaded.1 !! i)).
  { intros i. apply label_is_Some, Hlab. }
  split_and!.
  - exists ws. by rewrite Hsp.
  - intros i. unfold registered. rewrite Hregs, Hreg. simpl.
    unfold ws_nodes, s0. simpl. rewrite lookup_singleton_eq. simpl.
    split; [intros [?%elem_of_nil|?]; done|by right].
  - intros key sn Hin Hload. destruct (Hcontent key sn Hin Hload) as (dd & Hdd & Hn).
    specialize (Hlab (sn_id sn)). rewrite Hn in Hlab.
    destruct (heap s !! sn_id sn) as [n|]; [|done]. simpl in Hlab.
    unfold node_label in Hlab. simpl in Hlab. injection Hlab as Hname' Hdata Hop _.
    exists n. split; [done|]. split; [done|]. split; [done|]. by rewrite Hdata.
  - intros p c. unfold s. rewrite links_children_any by done. rewrite Hch0. split.
    + intros [?%elem_of_nil|(kp & kc & Hin & Hp & Hc)]; [done|].
      apply Hnm in Hp as [Hp|(snp & ? & ? & ?)]; [simpl in Hp; by rewrite lookup_empty in Hp|].
      apply Hnm in Hc as [Hc|(snc & ? & ? & ?)]; [simpl in Hc; by rewrite lookup_empty in Hc|].
      by exists kp, kc, snp, snc.
    + intros (kp & kc & snp & snc & Hin & ? & ? & ? & ? & ? & ?). right.
      exists kp, kc. split; [done|]. split; apply Hnm; right; eauto.
  - by rewrite Hregs.
  - intros i. unfold registered. rewrite Hsome, Hregs. split.
    + intros [n Hn]. by destruct (Hown i n Hn).
    + apply Halloc.
  - unfold ownership. intros w' ws'. rewrite Hsp. intros Hw'.
    destruct (decide (w' = w)) as [->|Hne]; [|by rewrite Honly in Hw'].
    apply Forall_forall. intros i Hi.
    assert (Hi' : i ∈ ws_nodes w loaded.1) by (unfold ws_nodes; by rewrite Hw').
    destruct (Halloc i Hi') as [n Hn]. destruct (Hown i n Hn) as [Hwn _].
    specialize (Hlab i). rewrite Hn in Hlab. simpl in Hlab.
    destruct (heap s !! i) as [n'|]; [|done]. simpl in *.
    unfold node_label in Hlab. f_equal. congruence.
  - unfold children_allocated. intros p n Hp. apply Forall_forall. intros c Hc.
    apply (proj2 Hpaired p c). unfold node_children. by rewrite Hp.
  - apply Hpaired.
Qed.

End LoadAny.

(** ** Removing with materialisation *)

Lemma materialized_eager d :
  (is_lazy d = true → ∃ d', data_collect d = inr d') → is_lazy (materialized d) = false.
Proof.
  unfold materialized. destruct (is_lazy d) eqn:Hl; [|done]. intros [d' Hd']; [done|].
  rewrite Hd'. by eapply data_collect_eager.
Qed.

Lemma materialized_idem d : is_lazy d = false → materialized d = d.
Proof. unfold materialized. by intros ->. Qed.

Lemma set_data_same n : set_data (data n) n = n.
Proof. by destruct n. Qed.

Lemma Node_materialize_data c s :
  collects s c →
  Node_materialize c s =
    (Ret c, MkState (alter (fun n => set_data (materialized (data n)) n) c (heap s)) (spaces s)).
Proof.
  intros (n & Hn & Hc). unfold Node_materialize. rewrite !bind_run. unfold get_node.
  rewrite Hn. unfold materialized.
  assert (Halter : ∀ f, f n = n → alter f c (heap s) = heap s).
  { intros f Hf. apply map_eq. intros j. rewrite lookup_alter. case_decide; [|done].
    subst. rewrite Hn. simpl. by rewrite Hf. }
  destruct (is_lazy (data n)) eqn:Hl.
  - destruct (Hc eq_refl) as [d' Hd']. unfold try_except. rewrite bind_run. unfold lift.
    rewrite Hd'. simpl. f_equal. unfold upd_node. f_equal. apply map_eq. intros j. rewrite !lookup_alter.
    case_decide; [|done]. subst. rewrite Hn. simpl. by rewrite Hl, Hd'.
  - simpl. rewrite Halter; [by destruct s|]. rewrite Hl. apply set_data_same.
Qed.

Lemma for_each_materialize_data l s :
  Forall (collects s) l →
  ∃ s1, for_each l (fun child => Node_materialize child;; mret tt) s = (Ret tt, s1) ∧
        spaces s1 = spaces s ∧
        ∀ j, heap s1 !! j =
             (fun n => if decide (j ∈ l) then set_data (materialized (data n)) n else n)
               <$> heap s !! j.
Proof.
  revert s. induction l as [|c l IH]; intros s Hl.
  - exists s. split; [done|]. split; [done|]. intros j. by destruct (heap s !! j).
  - apply Forall_cons in Hl as [Hc Hl]. cbn [for_each]. rewrite !bind_run.
    rewrite (Node_materialize_data c s Hc). cbn [mret M_ret ret].
    set (s0 := MkState _ _).
    destruct (IH s0) as (s1 & -> & Hsp & Hheap).
    { apply Forall_forall. intros c' Hc'. rewrite Forall_forall in Hl.
      destruct (Hl c' Hc') as (n' & Hn' & Hcol). unfold collects, s0. simpl.
      rewrite lookup_alter. case_decide as Heq; [|by eauto].
      subst c'. rewrite Hn'. simpl. eexists. split; [done|]. simpl.
      rewrite materialized_eager by done. done. }
    exists s1. split; [done|]. split; [done|]. intros j. rewrite Hheap. unfold s0. simpl.
    destruct (decide (c = j)) as [->|Hne].
    + rewrite lookup_alter_eq. destruct (heap s !! j) as [n|] eqn:Hj; simpl; [|done].
      rewrite (decide_True (P := j ∈ j :: l)) by left. f_equal.
      case_decide; [|done]. destruct Hc as (n0 & Hn0 & Hcol). assert (n0 = n) as -> by congruence.
      rewrite (materialized_idem (materialized (data n))) by (by apply materialized_eager).
      by destruct n.
    + rewrite lookup_alter_ne by done. destruct (heap s !! j) as [n|] eqn:Hj; simpl; [|done].
      f_equal. destruct (decide (j ∈ l)) as [Hin|Hnin].
      * rewrite decide_True by (by right). done.
      * rewrite decide_False; [done|]. intros [?|?]%elem_of_cons; congruence.
Qed.

Lemma iter_drop_child_data x k n : data (Nat.iter k (drop_child x) n) = data n.
Proof.
  induction k as [|k IH]; [done|]. simpl. unfold drop_child at 1. by case_decide.
Qed.

(** X22.  [remove_node(id, materialize_children=True)] on a registered node
    whose children each are eager or collect without raising: it returns
    [True], every child of the removed node is eager afterwards and holds
    what [collect()] gave for it, and the data of every other node is what
    it was. *)
Theorem remove_node_materializes s self node_id node :
  registered s self node_id →
  heap s !! node_id = Some node →
  Forall (collects s) (children node) →
  ∃ s', remove_node self node_id true s = (Ret true, s') ∧
        (∀ j n, heap s !! j = Some n →
                ∃ n', heap s' !! j = Some n' ∧
                      data n' = if decide (j ∈ children node) then materialized (data n)
                                else data n) ∧
        (∀ c, c ∈ children node →
              ∃ n', heap s' !! c = Some n' ∧ is_lazy (data n') = false).
Proof.
  intros Hreg Hnode Hcol. unfold remove_node. rewrite bind_run. unfold get_state.
  rewrite bool_decide_eq_true_2 by done.
  rewrite bind_run. unfold get_node at 1. rewrite Hnode. rewrite bind_run.
  destruct (for_each_materialize_data _ _ Hcol) as (s1 & -> & Hsp & Hheap).
  rewrite bind_run. unfold get_node at 1. rewrite (Hheap node_id), Hnode. cbn [fmap option_fmap option_map].
  rewrite bind_run, for_each_modify, bind_run.
  eexists. split; [reflexivity|].
  assert (Hdata : ∀ j n, heap s !! j = Some n →
            ∃ n', heap (upd_ws (fun ws => set_nodes (dict_del node_id (nodes ws)) ws) self
                          (foldl (fun s0 x => upd_node (drop_child node_id) x s0) s1
                             (parents (if decide (node_id ∈ children node)
                                       then set_data (materialized (data node)) node
                                       else node)))) !! j = Some n' ∧
                  data n' = if decide (j ∈ children node) then materialized (data n)
                            else data n).
  { intros j n Hj. simpl. rewrite foldl_upd_node_lookup, Hheap, Hj. simpl.
    eexists. split; [done|]. rewrite iter_drop_child_data. by case_decide. }
  split; [exact Hdata|].
  intros c Hc. rewrite Forall_forall in Hcol. destruct (Hcol c Hc) as (n & Hn & Hlazy).
  destruct (Hdata c n Hn) as (n' & Hn' & Hd). exists n'. split; [done|].
  rewrite Hd, decide_True by done. by apply materialized_eager.
Qed.

(** ** Constructing a node *)

Lemma count_app x l l' : count x (l ++ l') = count x l + count x l'.
Proof. unfold count. by rewrite filter_app, length_app. Qed.

Lemma count_replicate x k y : count x (replicate k y) = if decide (y = x) then k else 0.
Proof.
  unfold count. induction k as [|k IH]; simpl; [by case_decide|].
  rewrite filter_cons. destruct (decide (y = x)); simpl; by rewrite IH.
Qed.

Lemma iter_append_child i k n :
  children (Nat.iter k (append_child i) n) = children n ++ replicate k i ∧
  parents (Nat.iter k (append_child i) n) = parents n.
Proof.
  induction k as [|k [IHc IHp]]; simpl.
  - by rewrite app_nil_r.
  - rewrite IHc, IHp. split; [|done]. rewrite <- app_assoc. f_equal.
    by rewrite <- replicate_cons_app.
Qed.

Lemma count_unallocated s x l :
  Forall (fun p => is_Some (heap s !! p)) l → heap s !! x = None → count x l = 0.
Proof.
  intros Hl Hx. apply count_zero. intros Hin. rewrite Forall_forall in Hl.
  destruct (Hl x Hin) as [? ?]. congruence.
Qed.

(** X23.  [Node.__init__] records each edge at both ends: if the given
    parents are nodes of the store and every edge of the store is recorded
    as often in a children list as in the matching parents list, the same
    holds after the construction; the new node has exactly the given parents
    list, and each parent lists it as often as it was given. *)
Theorem Node_init_keeps_edges_counted s d nm w ps op i s' :
  Forall (fun p => is_Some (heap s !! p)) ps →
  edges_counted s →
  Node_init d nm (Some w) ps op s = (Ret i, s') →
  edges_counted s' ∧
  node_parents i s' = ps ∧ node_children i s' = [] ∧
  (∀ p, count i (node_children p s') = count p ps) ∧
  (∀ j, children_matched s' j).
Proof.
  intros Hps Hcounted. rewrite Node_init_eq. intros [= <- <-].
  set (i := fresh_node_id s). set (n0 := MkNode _ d ps [] w op).
  pose proof (fresh_node_id_heap s) as Hfresh. fold i in Hfresh.
  assert (Hi_ps : count i ps = 0) by by eapply count_unallocated.
  assert (Hheap : ∀ j, heap (with_new_node i n0 ps s) !! j =
                       Nat.iter (count j ps) (append_child i) <$> <[i:=n0]> (heap s) !! j).
  { intros j. unfold with_new_node, link_parents. by rewrite foldl_upd_node_lookup. }
  assert (Hch_i : node_children i (with_new_node i n0 ps s) = []).
  { unfold node_children. by rewrite Hheap, lookup_insert_eq, Hi_ps. }
  assert (Hpr_i : node_parents i (with_new_node i n0 ps s) = ps).
  { unfold node_parents. by rewrite Hheap, lookup_insert_eq, Hi_ps. }
  assert (Hch : ∀ p, p ≠ i → node_children p (with_new_node i n0 ps s)
                             = node_children p s ++ replicate (count p ps) i).
  { intros p Hp. unfold node_children. rewrite Hheap, lookup_insert_ne by done.
    destruct (heap s !! p) as [n|] eqn:Hn; simpl.
    - apply iter_append_child.
    - by rewrite (count_unallocated s p ps). }
  assert (Hpr : ∀ c, c ≠ i → node_parents c (with_new_node i n0 ps s) = node_parents c s).
  { intros c Hc. unfold node_parents. rewrite Hheap, lookup_insert_ne by done.
    destruct (heap s !! c) as [n|]; simpl; [apply iter_append_child|done]. }
  assert (Hno_i : ∀ p, count i (node_children p s) = 0).
  { intros p. rewrite Hcounted. unfold node_parents. by rewrite Hfresh. }
  assert (Hno_i' : ∀ c, count i (node_parents c s) = 0).
  { intros c. rewrite <- Hcounted. unfold node_children. by rewrite Hfresh. }
  assert (Hedge : ∀ p, count i (node_children p (with_new_node i n0 ps s)) = count p ps).
  { intros p. destruct (decide (p = i)) as [->|Hp].
    - by rewrite Hch_i, Hi_ps.
    - rewrite (Hch p Hp), count_app, count_replicate, Hno_i, decide_True by done. done. }
  assert (Hall : edges_counted (with_new_node i n0 ps s)).
  { intros p c. destruct (decide (c = i)) as [->|Hc].
    - by rewrite Hedge, Hpr_i.
    - rewrite (Hpr c Hc). destruct (decide (p = i)) as [->|Hp].
      + by rewrite Hch_i, Hno_i'.
      + rewrite (Hch p Hp), count_app, count_replicate, decide_False by done.
        rewrite Hcounted. lia. }
  split_and!; try done.
  intros j p n Hp. specialize (Hall p j). unfold node_children in Hall. rewrite Hp in Hall.
  by rewrite Hall.
Qed.

(** ** Persistence: which nodes come back *)

Section PartialRoundTrip.
Context `{Engine}.

Lemma deserialize_registry d i :
  registered (Workspace_deserialize d) (wd_id d) i ↔
  ∃ key sn, (key, sn) ∈ wd_nodes d ∧ sn_id sn = i ∧ loadable sn.
Proof.
  unfold Workspace_deserialize, registered.
  set (w := wd_id d).
  set (s0 := MkState ∅ {[w := MkWorkspace (wd_name d) [] (wd_metadata d)]}).
  destruct (load_nodes_any w (wd_name d) (wd_metadata d) (wd_nodes d) (s0, ∅))
    as (_ & _ & _ & Hreg).
  { unfold loading_inv, s0, ws_nodes. cbn [fst snd heap spaces]. split_and!.
    - intros w' Hw'. by rewrite lookup_singleton_ne.
    - intros j n. by rewrite lookup_empty.
    - intros j. rewrite lookup_singleton_eq. cbn [nodes]. by intros ?%elem_of_nil.
    - intros k j. by rewrite lookup_empty.
    - rewrite lookup_singleton_eq. cbn [nodes]. constructor. }
  { unfold bare, s0. cbn [fst snd heap spaces]. intros j n. by rewrite lookup_empty. }
  { unfold labelled, s0. cbn [fst snd heap spaces]. eexists. rewrite lookup_singleton_eq. done. }
  set (loaded := foldl (load_node w) (s0, ∅) (wd_nodes d)) in *.
  destruct (links_label loaded.2 (wd_relationships d) loaded.1) as [Hsp _].
  unfold ws_nodes at 1. rewrite Hsp. fold (ws_nodes w loaded.1). rewrite Hreg.
  unfold ws_nodes, s0. cbn [fst spaces]. rewrite lookup_singleton_eq. cbn [nodes].
  split; [intros [?%elem_of_nil|?]; done|by right].
Qed.

(** X24.  Errors are isolated per node.  After [serialize] and
    [deserialize], the workspace holds exactly those of its nodes that can
    be written and read back: a node whose serialization or
    deserialization raises is dropped, and no other node is lost with it. *)
Theorem round_trip_keeps_loadable s w doc :
  Workspace_serialize w s = Some doc →
  ∀ i, registered (Workspace_deserialize doc) w i ↔
       registered s w i ∧ is_Some (reload s w i).
Proof.
  unfold Workspace_serialize. destruct (spaces s !! w) as [ws|] eqn:Hws; [|done].
  intros [= <-] i.
  rewrite (deserialize_registry
             (MkWorkspaceData w (ws_name ws) (ws_metadata ws)
                (omap (serialize_entry s) (nodes ws))
                (i0 ← nodes ws; map (fun c => (i0, c)) (node_children i0 s))) i).
  cbn [wd_nodes]. unfold registered, ws_nodes. rewrite Hws.
  unfold reload, loadable, serialize_entry.
  split.
  - intros (key & sn & (i0 & Hi0 & Hentry)%list_elem_of_omap & Hid & Herr & dd & Hd).
    destruct (heap s !! i0) as [n|] eqn:Hn; [|done]. injection Hentry as <- <-.
    unfold Node_serialize in *.
    destruct (data_serialize (data n)) as [e|[ty p]] eqn:Hser; [done|].
    simpl in *. subst i0. split; [done|]. rewrite Hn, Hser.
    unfold Node_deserialize. simpl. by rewrite Hd.
  - intros [Hin Hre]. destruct (heap s !! i) as [n|] eqn:Hn; [|by destruct Hre].
    destruct (Node_serialize i n) as [e|sn] eqn:Hser; [by destruct Hre|].
    destruct (Node_deserialize sn w) as [e|n'] eqn:Hde; [by destruct Hre|].
    exists i, sn. split.
    + apply list_elem_of_omap. exists i. split; [done|]. by rewrite Hn, Hser.
    + unfold Node_serialize in Hser.
      destruct (data_serialize (data n)) as [e|[ty p]]; [done|]. injection Hser as <-.
      simpl. split; [done|]. split; [done|].
      unfold Node_deserialize in Hde. simpl in Hde.
      destruct (data_deserialize ty p) as [e|dd]; [done|]. by exists dd.
Qed.

End PartialRoundTrip.

(** ** Summary *)

Lemma tally_total k d : counted_total (tally k d) = S (counted_total d).
Proof.
  unfold counted_total. induction d as [|[k' n] d IH]; simpl; [done|].
  case_decide; simpl; [done|]. rewrite IH. lia.
Qed.

Lemma tally_keys k d : k ∈ map fst d → map fst (tally k d) = map fst d.
Proof.
  induction d as [|[k' n] d IH]; simpl; [by intros ?%elem_of_nil|].
  case_decide; simpl; [done|]. intros [?|?]%elem_of_cons; [done|]. by rewrite IH.
Qed.

(** X25.  The counts of [summary] add up: on a workspace whose registered
    nodes exist, [total_nodes] is the number of registered nodes, the
    per-type counts sum to it, [status_counts] has exactly the keys [lazy]
    and [materialized] and its two counts sum to it, and there are at most
    that many roots and leaves. *)
Theorem summary_counts self s r :
  Forall (fun i => is_Some (heap s !! i)) (ws_nodes self s) →
  summary self s = Some r →
  total_nodes r = Workspace_len self s ∧
  counted_total (node_types r) = total_nodes r ∧
  map fst (status_counts r) = ["lazy"; "materialized"] ∧
  counted_total (status_counts r) = total_nodes r ∧
  root_nodes r ≤ total_nodes r ∧ leaf_nodes r ≤ total_nodes r.
Proof.
  intros Halloc. unfold summary, Workspace_len.
  destruct (spaces s !! self) as [ws|] eqn:Hws; [|done]. intros [= <-]. simpl.
  assert (Hnodes : ws_nodes self s = nodes ws) by (unfold ws_nodes; by rewrite Hws).
  assert (Hlen : length (ws_values self s) = length (nodes ws)).
  { unfold ws_values. rewrite <- Hnodes. clear Hnodes. revert Halloc.
    generalize (ws_nodes self s). intros l Hl.
    induction Hl as [|i l [n Hn] _ IH]; simpl; [done|]. rewrite Hn. simpl. f_equal. exact IH. }
  assert (Hfold : ∀ values acc,
            let counted :=
              foldl (fun acc node =>
                       (tally (type_name (data node)) acc.1,
                        tally (if is_lazy (data node) then "lazy" else "materialized") acc.2))
                    acc values in
            map fst acc.2 = ["lazy"; "materialized"] →
            counted_total counted.1 = counted_total acc.1 + length values ∧
            map fst counted.2 = ["lazy"; "materialized"] ∧
            counted_total counted.2 = counted_total acc.2 + length values).
  { induction values as [|n values IH]; intros acc; simpl; intros Hkeys.
    - split_and!; [lia|done|lia].
    - destruct (IH (tally (type_name (data n)) acc.1,
                    tally (if is_lazy (data n) then "lazy" else "materialized") acc.2))
        as (H1 & H2 & H3).
      { simpl. rewrite tally_keys; [done|]. rewrite Hkeys. destruct (is_lazy (data n)); set_solver. }
      simpl in *. rewrite H1, H3, !tally_total. split_and!; [lia|done|lia]. }
  destruct (Hfold (ws_values self s) ([], [("lazy", 0); ("materialized", 0)]) eq_refl)
    as (H1 & H2 & H3).
  rewrite Hnodes. split_and!.
  - done.
  - rewrite H1, Hlen. done.
  - done.
  - rewrite H3, Hlen. done.
  - unfold get_root_nodes. rewrite Hnodes. apply length_filter.
  - unfold get_leaf_nodes. rewrite Hnodes. apply length_filter.
Qed.

(** * Instances on the example stores *)

Lemma collect_asymmetry_witness :
  (heap lazyroot_state !! 0 = Some lazyroot_node ∧
   is_lazy (data lazyroot_node) = true ∧
   data_collect (data lazyroot_node) = inr (PlDataFrame texts_df) ∧
   is_Some (spaces lazyroot_state !! workspace lazyroot_node)) ∧
  collects_twice lazyroot_state 0 lazyroot_node (PlDataFrame texts_df).
Proof.
  assert (H1 : heap lazyroot_state !! 0 = Some lazyroot_node) by (vm_compute; reflexivity).
  assert (H2 : is_lazy (data lazyroot_node) = true) by reflexivity.
  assert (H3 : data_collect (data lazyroot_node) = inr (PlDataFrame texts_df)) by reflexivity.
  assert (H4 : is_Some (spaces lazyroot_state !! workspace lazyroot_node))
    by (eexists; vm_compute; reflexivity).
  split; [done|].
  exact (proj1 collect_asymmetry lazyroot_state 0 lazyroot_node (PlDataFrame texts_df) H1 H2 H3 H4).
Defined.

Lemma join_parents_witness :
  ∃ n, heap (run (Node_join (H:=example_engine) 0 1 on_id) doc_and_lazy_state) !! 2 = Some n ∧
       parents n = [0; 1].
Proof.
  apply (join_parents (H:=example_engine) doc_and_lazy_state 0 1 on_id 2
           (run (Node_join (H:=example_engine) 0 1 on_id) doc_and_lazy_state)).
  vm_compute. reflexivity.
Defined.

Lemma collect_materialize_swallow_witness :
  (heap broken_state !! 0 = Some broken_node ∧ is_lazy (data broken_node) = true) ∧
  Node_collect 0 broken_state = (Ret 0, broken_state) ∧
  Node_materialize 0 broken_state = (Ret 0, broken_state).
Proof.
  assert (H1 : heap broken_state !! 0 = Some broken_node) by (vm_compute; reflexivity).
  split; [done|].
  apply (collect_materialize_swallow broken_state 0 broken_node
           (Raise TypeError "cannot collect") H1); [reflexivity|reflexivity|].
  right. reflexivity.
Defined.

Lemma delegated_raise_propagates_witness :
  (heap doc_and_lazy_state !! 0 = Some docs_node ∧
   Node_join (H:=example_engine) 0 1 (MkArgs [] [("on", VStr "missing")]) doc_and_lazy_state
     = (Exc (Raise OtherError "ColumnNotFoundError"), doc_and_lazy_state)) ∧
  (heap undesignated_state !! 0 = Some (MkNode "numbers" (DocLF undesignated) [] [] 0 None) ∧
   Node_collect 0 undesignated_state
     = (Exc (Raise ValueError "Document column 'document' not found in data"),
        undesignated_state) ∧
   Node_materialize 0 undesignated_state
     = (Exc (Raise ValueError "Document column 'document' not found in data"),
        undesignated_state)).
Proof.
  assert (H1 : heap doc_and_lazy_state !! 0 = Some docs_node) by (vm_compute; reflexivity).
  assert (H2 : heap undesignated_state !! 0
               = Some (MkNode "numbers" (DocLF undesignated) [] [] 0 None))
    by (vm_compute; reflexivity).
  split; (split; [done|]).
  - destruct (delegated_raise_propagates (H:=example_engine) doc_and_lazy_state 0 docs_node
                (Raise OtherError "ColumnNotFoundError") H1)
      as (_ & _ & _ & _ & _ & Hjoin & _).
    eapply Hjoin; [vm_compute; reflexivity|].
    right. eexists. split; vm_compute; reflexivity.
  - destruct (delegated_raise_propagates (H:=example_engine) undesignated_state 0
                (MkNode "numbers" (DocLF undesignated) [] [] 0 None)
                (Raise ValueError "Document column 'document' not found in data") H2)
      as (_ & _ & _ & _ & _ & _ & Hcollect).
    apply Hcollect; [reflexivity|vm_compute; reflexivity|].
    apply (bool_decide_unpack _). vm_compute. exact I.
Defined.

(** C7 as stated fails for [collect] and [materialize]: the underlying
    [collect()] of the lazy node raises [TypeError], and both operations
    return the node itself instead of raising. *)
Lemma collect_swallows_engine_raise :
  (heap broken_state !! 0 = Some broken_node ∧
   is_lazy (data broken_node) = true ∧
   data_collect (data broken_node) = inl (Raise TypeError "cannot collect")) ∧
  Node_collect 0 broken_state = (Ret 0, broken_state) ∧
  Node_materialize 0 broken_state = (Ret 0, broken_state).
Proof.
  split_and!; vm_compute; reflexivity.
Qed.

(** C2, evaluated on [docs.join(values, on=id)] where [docs] wraps an eager
    document-designated table and [values] a plain lazy one: the two wrapper
    kinds differ and one is document-designated, yet the joined node holds a
    document-designated table, with the document column of [docs]. *)
Theorem join_mixed_laziness_keeps_document :
  ∃ a b n s',
    heap doc_and_lazy_state !! 0 = Some a ∧ heap doc_and_lazy_state !! 1 = Some b ∧
    is_doc (data a) = true ∧ type_name (data a) ≠ type_name (data b) ∧
    Node_join (H:=example_engine) 0 1 on_id doc_and_lazy_state = (Ret 2, s') ∧
    heap s' !! 2 = Some n ∧
    is_doc (data n) = true ∧
    data n = DocDF (MkDocDataFrame
                      [Column "id" Int64 [CInt 1; CInt 2];
                       Column "text" Utf8 [CStr "a"; CStr "bb"];
                       Column "v" Int64 [CInt 10; CInt 20]] "text").
Proof.
  eexists _, _, _, _. split_and!.
  - vm_compute. reflexivity.
  - vm_compute. reflexivity.
  - reflexivity.
  - discriminate.
  - vm_compute. reflexivity.
  - vm_compute. reflexivity.
  - reflexivity.
  - reflexivity.
Qed.

(** C1 as stated fails: after [remove_node(root)] returned [True], the child
    is still registered and still lists the removed root among its parents. *)
Lemma remove_node_keeps_parent_entry :
  registered root_child_state 0 0 ∧
  ∃ s', remove_node 0 0 false root_child_state = (Ret true, s') ∧
        registered s' 0 1 ∧ 0 ∈ node_parents 1 s'.
Proof.
  split; [vm_compute; set_solver|].
  eexists. split; [vm_compute; reflexivity|].
  split; vm_compute; set_solver.
Qed.

Lemma remove_node_severs_children_witness :
  children_matched root_child_state 1 ∧
  ¬ registered (run (remove_node 0 1 false) root_child_state) 0 1 ∧
  (∀ j, 1 ∉ node_children j (run (remove_node 0 1 false) root_child_state)) ∧
  (∀ j, node_parents j (run (remove_node 0 1 false) root_child_state)
        = node_parents j root_child_state).
Proof.
  assert (H1 : children_matched root_child_state 1)
    by (apply (bool_decide_unpack _); vm_compute; exact I).
  split; [done|].
  apply (remove_node_severs_children root_child_state 0 1 false
           (run (remove_node 0 1 false) root_child_state)); [|done].
  vm_compute. reflexivity.
Defined.

(** C6 as stated fails: [w1.add_node(n)] moves [n] into [w1] and stops at
    its child [c], already registered there; the grandchild [g], reachable
    from [n], stays registered in [w2] with its pointer on [w2]. *)
Lemma add_node_stops_at_registered_child :
  ¬ registered scattered_state 0 0 ∧
  ∃ s', add_node 0 0 scattered_state = (Ret 0, s') ∧
        registered s' 0 0 ∧
        reachable s' 0 2 ∧
        ¬ registered s' 0 2 ∧ registered s' 2 2 ∧ workspace_is s' 2 2.
Proof.
  split; [vm_compute; set_solver|].
  eexists. split; [vm_compute; reflexivity|].
  split_and!.
  - vm_compute. set_solver.
  - eapply (rtc_l _ _ 1); [vm_compute; set_solver|].
    eapply rtc_once. vm_compute. set_solver.
  - vm_compute. set_solver.
  - vm_compute. set_solver.
  - eexists. split; vm_compute; reflexivity.
Qed.

Lemma add_node_descendant_closure_witness :
  (is_Some (spaces two_workspaces_state !! 1) ∧
   is_Some (heap two_workspaces_state !! 0) ∧
   ownership two_workspaces_state ∧
   children_allocated two_workspaces_state ∧
   closed_under_children two_workspaces_state 1) ∧
  ∃ s', add_node 1 0 two_workspaces_state = (Ret 0, s') ∧
        same_shape two_workspaces_state s' ∧
        (∀ d, reachable s' 0 d → registered s' 1 d ∧ workspace_is s' d 1 ∧ only_in s' 1 d) ∧
        (∀ a, ¬ reachable two_workspaces_state 0 a → untouched two_workspaces_state s' a).
Proof.
  assert (H1 : is_Some (spaces two_workspaces_state !! 1)) by (eexists; vm_compute; reflexivity).
  assert (H2 : is_Some (heap two_workspaces_state !! 0)) by (eexists; vm_compute; reflexivity).
  assert (H3 : ownership two_workspaces_state)
    by (apply (bool_decide_unpack _); vm_compute; exact I).
  assert (H4 : children_allocated two_workspaces_state)
    by (apply (bool_decide_unpack _); vm_compute; exact I).
  assert (H5 : closed_under_children two_workspaces_state 1)
    by (apply (bool_decide_unpack _); vm_compute; exact I).
  split; [done|].
  exact (add_node_descendant_closure two_workspaces_state 1 0 H1 H2 H3 H4 H5).
Defined.

(** C4 as stated fails, in two ways.  A child moved to another workspace
    leaves an edge in its parent's children list that the reloaded workspace
    does not have.  A lazy document table without document column cannot be
    collected into a document table, so its node is written with an error
    marker and is missing after the reload. *)
Lemma round_trip_loses_edge_and_node :
  (∃ doc, Workspace_serialize 0 moved_child_state = Some doc ∧
          registered moved_child_state 0 0 ∧
          1 ∈ node_children 0 moved_child_state ∧
          registered (Workspace_deserialize (H:=example_engine) doc) 0 0 ∧
          1 ∉ node_children 0 (Workspace_deserialize (H:=example_engine) doc)) ∧
  (DocLazyFrame_init (df_lazy values_df) None = inr undesignated ∧
   ∃ doc, Workspace_serialize 0 undesignated_state = Some doc ∧
          Workspace_len 0 undesignated_state = 1 ∧
          Workspace_len 0 (Workspace_deserialize (H:=example_engine) doc) = 0).
Proof.
  split.
  - eexists. split; [vm_compute; reflexivity|].
    split_and!; vm_compute; set_solver.
  - split; [reflexivity|].
    eexists. split; [vm_compute; reflexivity|].
    split; vm_compute; reflexivity.
Qed.

Lemma round_trip_witness :
  (is_Some (spaces four_kinds_state !! 0) ∧
   NoDup (ws_nodes 0 four_kinds_state) ∧
   serializable (H:=example_engine) four_kinds_state 0 ∧
   closed_under_children four_kinds_state 0) ∧
  ∃ doc, Workspace_serialize 0 four_kinds_state = Some doc ∧
         round_trip_equal four_kinds_state 0 (Workspace_deserialize (H:=example_engine) doc) ∧
         ∀ p c, c ∈ node_children p (Workspace_deserialize (H:=example_engine) doc) ↔
                p ∈ node_parents c (Workspace_deserialize (H:=example_engine) doc).
Proof.
  assert (H1 : is_Some (spaces four_kinds_state !! 0)) by (eexists; vm_compute; reflexivity).
  assert (H2 : NoDup (ws_nodes 0 four_kinds_state))
    by (apply (bool_decide_unpack _); vm_compute; exact I).
  assert (H3 : serializable (H:=example_engine) four_kinds_state 0)
    by (vm_compute; repeat constructor).
  assert (H4 : closed_under_children four_kinds_state 0)
    by (apply (bool_decide_unpack _); vm_compute; exact I).
  split; [done|].
  exact (round_trip (H:=example_engine) four_kinds_state 0 H1 H2 H3 H4).
Defined.

(** C3 as stated fails on a lazy node whose data does not collect: the
    lazy document table without document column raises [ValueError] in the
    constructor of the eager document table, [Node.collect] lets it through,
    and no node is created. *)
Lemma collect_raises_without_document_column :
  (∃ n, heap undesignated_state !! 0 = Some n ∧ is_lazy (data n) = true) ∧
  Node_collect 0 undesignated_state =
    (Exc (Raise ValueError "Document column 'document' not found in data"),
     undesignated_state).
Proof.
  split.
  - eexists. split; [vm_compute; reflexivity|reflexivity].
  - vm_compute. reflexivity.
Qed.

(** ** Instances of the further properties *)

Lemma remove_node_registry_witness :
  (true = false ↔ 0 ∉ ws_nodes 0 root_child_state) ∧
  (true = false → run (remove_node 0 0 false) root_child_state = root_child_state) ∧
  ws_nodes 0 (run (remove_node 0 0 false) root_child_state)
    = dict_del 0 (ws_nodes 0 root_child_state) ∧
  (∀ w, w ≠ 0 → ws_nodes w (run (remove_node 0 0 false) root_child_state)
                = ws_nodes w root_child_state) ∧
  dom (heap (run (remove_node 0 0 false) root_child_state)) = dom (heap root_child_state).
Proof.
  apply (remove_node_registry root_child_state 0 0 false true
           (run (remove_node 0 0 false) root_child_state)).
  vm_compute. reflexivity.
Defined.

Lemma add_node_idempotent_witness :
  is_Some (spaces two_workspaces_state !! 1) ∧
  add_node 1 0 (run (add_node 1 0) two_workspaces_state)
    = (Ret 0, run (add_node 1 0) two_workspaces_state).
Proof.
  assert (H1 : is_Some (spaces two_workspaces_state !! 1)) by (eexists; vm_compute; reflexivity).
  split; [done|].
  apply (add_node_idempotent two_workspaces_state 1 0 0
           (run (add_node 1 0) two_workspaces_state) H1).
  vm_compute. reflexivity.
Defined.

Lemma add_node_terminates_witness :
  is_Some (spaces cyclic_state !! 1) ∧
  ∃ s', add_node 1 0 cyclic_state = (Ret 0, s') ∧ same_shape cyclic_state s' ∧
        dom (heap s') = dom (heap cyclic_state).
Proof.
  assert (H1 : is_Some (spaces cyclic_state !! 1)) by (eexists; vm_compute; reflexivity).
  split; [done|].
  exact (add_node_terminates cyclic_state 1 0 H1).
Defined.

Lemma add_node_preserves_ownership_witness :
  (is_Some (heap two_workspaces_state !! 0) ∧
   ownership two_workspaces_state ∧ children_allocated two_workspaces_state) ∧
  ownership (run (add_node 1 0) two_workspaces_state) ∧
  children_allocated (run (add_node 1 0) two_workspaces_state).
Proof.
  assert (H1 : is_Some (heap two_workspaces_state !! 0)) by (eexists; vm_compute; reflexivity).
  assert (H2 : ownership two_workspaces_state)
    by (apply (bool_decide_unpack _); vm_compute; exact I).
  assert (H3 : children_allocated two_workspaces_state)
    by (apply (bool_decide_unpack _); vm_compute; exact I).
  split; [done|].
  apply (add_node_preserves_ownership two_workspaces_state 1 0 0
           (run (add_node 1 0) two_workspaces_state) H1 H2 H3).
  vm_compute. reflexivity.
Defined.

Lemma materialize_in_place_witness :
  (heap lazyroot_state !! 0 = Some lazyroot_node ∧
   is_lazy (data lazyroot_node) = true ∧
   data_collect (data lazyroot_node) = inr (PlDataFrame texts_df)) ∧
  ∃ s', Node_materialize 0 lazyroot_state = (Ret 0, s') ∧
        heap s' !! 0 = Some (set_data (PlDataFrame texts_df) lazyroot_node) ∧
        is_lazy (PlDataFrame texts_df) = false ∧
        (∀ j, j ≠ 0 → heap s' !! j = heap lazyroot_state !! j) ∧
        spaces s' = spaces lazyroot_state ∧
        Node_collect 0 s' = (Ret 0, s') ∧
        Node_materialize 0 s' = (Ret 0, s').
Proof.
  assert (H1 : heap lazyroot_state !! 0 = Some lazyroot_node) by (vm_compute; reflexivity).
  assert (H2 : is_lazy (data lazyroot_node) = true) by reflexivity.
  assert (H3 : data_collect (data lazyroot_node) = inr (PlDataFrame texts_df)) by reflexivity.
  split; [done|].
  exact (materialize_in_place lazyroot_state 0 lazyroot_node (PlDataFrame texts_df) H1 H2 H3).
Defined.

Lemma getattr_wrapper_classifies_witness :
  (heap root_state !! 0 = Some root_node ∧
   is_Some (spaces root_state !! workspace root_node) ∧
   data_invoke (Engine:=example_engine) (data root_node) "head" head1
     = inr (ResData (example_head 1 (data root_node)))) ∧
  ∃ c s1, Node_wrapper (H:=example_engine) 0 (data root_node) "head" head1 root_state
            = (Ret (NRNode c), s1) ∧
          derived_child root_state 0 root_node (example_head 1 (data root_node))
            "head_root" "head(root)" c s1.
Proof.
  assert (H1 : heap root_state !! 0 = Some root_node) by (vm_compute; reflexivity).
  assert (H2 : is_Some (spaces root_state !! workspace root_node))
    by (eexists; vm_compute; reflexivity).
  assert (H3 : data_invoke (Engine:=example_engine) (data root_node) "head" head1
               = inr (ResData (example_head 1 (data root_node)))) by reflexivity.
  split; [done|].
  exact (getattr_wrapper_classifies (H:=example_engine) root_state 0 root_node
           (data root_node) "head" head1 _ H1 H2 H3).
Defined.

Lemma proxy_wrapper_classifies_witness :
  (heap root_state !! 0 = Some root_node ∧
   is_Some (spaces root_state !! workspace root_node) ∧
   handle_invoke (Engine:=slicing_engine) "GroupBy" "len" (MkArgs [] [])
     = inr (ResData (PlDataFrame [Column "len" Int64 [CInt 2]]))) ∧
  ∃ c s1, Proxy_wrapper (H:=slicing_engine) "GroupBy" 0 "group_by" "len" (MkArgs [] [])
            root_state = (Ret (NRNode c), s1) ∧
          derived_child root_state 0 root_node (PlDataFrame [Column "len" Int64 [CInt 2]])
            "group_by_len_root" "group_by.len(root)" c s1.
Proof.
  assert (H1 : heap root_state !! 0 = Some root_node) by (vm_compute; reflexivity).
  assert (H2 : is_Some (spaces root_state !! workspace root_node))
    by (eexists; vm_compute; reflexivity).
  assert (H3 : handle_invoke (Engine:=slicing_engine) "GroupBy" "len" (MkArgs [] [])
               = inr (ResData (PlDataFrame [Column "len" Int64 [CInt 2]]))) by reflexivity.
  split; [done|].
  exact (proxy_wrapper_classifies (H:=slicing_engine) root_state "GroupBy" 0 root_node
           "group_by" "len" (MkArgs [] []) _ H1 H2 H3).
Defined.

Lemma filter_lineage_witness :
  (heap root_state !! 0 = Some root_node ∧
   is_Some (spaces root_state !! workspace root_node)) ∧
  ∃ d, data_invoke (Engine:=slicing_engine) (data root_node) "filter" (MkArgs [VBool true] [])
         = inr (ResData d) ∧
       derived_child root_state 0 root_node d "filter_root" "filter(root)" 1
         (run (Node_filter (H:=slicing_engine) 0 (MkArgs [VBool true] [])) root_state).
Proof.
  assert (H1 : heap root_state !! 0 = Some root_node) by (vm_compute; reflexivity).
  assert (H2 : is_Some (spaces root_state !! workspace root_node))
    by (eexists; vm_compute; reflexivity).
  split; [done|].
  apply (filter_lineage (H:=slicing_engine) root_state 0 root_node (MkArgs [VBool true] []) 1
           (run (Node_filter (H:=slicing_engine) 0 (MkArgs [VBool true] [])) root_state) H1 H2).
  vm_compute. reflexivity.
Defined.

Lemma slice_lineage_witness :
  (heap root_state !! 0 = Some root_node ∧
   is_Some (spaces root_state !! workspace root_node)) ∧
  ∃ d, data_invoke (Engine:=slicing_engine) (data root_node) "slice"
         (MkArgs [VInt 0; VInt 1] []) = inr (ResData d) ∧
       derived_child root_state 0 root_node d "slice_root" "slice(root)" 1
         (run (Node_slice (H:=slicing_engine) 0 (MkArgs [VSlice None (Some 1%Z)] []))
            root_state).
Proof.
  assert (H1 : heap root_state !! 0 = Some root_node) by (vm_compute; reflexivity).
  assert (H2 : is_Some (spaces root_state !! workspace root_node))
    by (eexists; vm_compute; reflexivity).
  split; [done|].
  apply (slice_lineage (H:=slicing_engine) root_state 0 root_node
           (MkArgs [VSlice None (Some 1%Z)] []) 1
           (run (Node_slice (H:=slicing_engine) 0 (MkArgs [VSlice None (Some 1%Z)] []))
              root_state) H1 H2).
  vm_compute. reflexivity.
Defined.

Lemma get_descendants_spec_witness :
  registered cyclic_state 0 0 ∧
  ∃ l, get_descendants 0 0 cyclic_state = Some l ∧
       ∀ d, d ∈ l ↔ ∃ p, reachable cyclic_state 0 p ∧ child_edge cyclic_state p d.
Proof.
  assert (H1 : registered cyclic_state 0 0) by (apply (bool_decide_unpack _); vm_compute; exact I).
  split; [done|].
  destruct (get_descendants_spec 0 0 cyclic_state) as (l & Hl & _ & Hspec).
  exists l. split; [done|]. exact (Hspec H1).
Defined.

Lemma get_ancestors_spec_witness :
  registered root_child_state 0 1 ∧
  ∃ l, get_ancestors 0 1 root_child_state = Some l ∧
       ∀ a, a ∈ l ↔ ∃ c, rtc (parent_edge root_child_state) 1 c ∧
                         parent_edge root_child_state c a.
Proof.
  assert (H1 : registered root_child_state 0 1)
    by (apply (bool_decide_unpack _); vm_compute; exact I).
  split; [done|].
  destruct (get_ancestors_spec 0 1 root_child_state) as (l & Hl & _ & Hspec).
  exists l. split; [done|]. exact (Hspec H1).
Defined.

Lemma topological_order_parents_first_witness :
  parents_first root_child_state (list_nodes 0 root_child_state) ∧
  parents_first root_child_state (get_topological_order 0 root_child_state).
Proof.
  assert (H1 : parents_first root_child_state (list_nodes 0 root_child_state))
    by (apply (bool_decide_unpack _); vm_compute; exact I).
  split; [done|].
  exact (topological_order_parents_first 0 root_child_state H1).
Defined.

Lemma metadata_set_get_witness :
  is_Some (spaces root_state !! 0) ∧
  ∃ s', set_metadata 0 "owner" "lab" root_state = (Ret tt, s') ∧
        get_metadata 0 "owner" s' = Some "lab" ∧
        (∀ key', key' ≠ "owner" → get_metadata 0 key' s' = get_metadata 0 key' root_state) ∧
        (∀ w key', w ≠ 0 → get_metadata w key' s' = get_metadata w key' root_state) ∧
        heap s' = heap root_state ∧
        (∀ w, ws_nodes w s' = ws_nodes w root_state).
Proof.
  assert (H1 : is_Some (spaces root_state !! 0)) by (eexists; vm_compute; reflexivity).
  split; [done|].
  exact (metadata_set_get 0 "owner" "lab" root_state H1).
Defined.

Lemma guess_document_column_longest_witness :
  guess_document_column_df accented_df = Some "b" ∧
  "b" ∈ string_columns (df_schema accented_df) ∧
  ∀ k, k ∈ string_columns (df_schema accented_df) →
       frac_ltb (mean_length (df_head sample_size accented_df) "b")
                (mean_length (df_head sample_size accented_df) k) = false.
Proof.
  assert (H1 : guess_document_column_df accented_df = Some "b") by (vm_compute; reflexivity).
  split; [done|].
  exact (proj2 (guess_document_column_longest accented_df) "b" H1).
Defined.

Lemma auto_designation_witness :
  NoDup (df_columns two_texts_df) ∧
  ∃ c, DocDataFrame_init two_texts_df None = inr (MkDocDataFrame two_texts_df c) ∧
       c ∈ string_columns (df_schema two_texts_df) ∧
       designated (MkDocDataFrame two_texts_df c).
Proof.
  assert (H1 : NoDup (df_columns two_texts_df))
    by (apply (bool_decide_unpack _); vm_compute; exact I).
  split; [done|].
  exact (auto_designation two_texts_df H1).
Defined.

Lemma set_document_spec_witness :
  schema_lookup (df_schema (ddf_df texts_doc)) "text" = Some Utf8 ∧
  set_document texts_doc "text" = inr (MkDocDataFrame (ddf_df texts_doc) "text").
Proof.
  assert (H1 : schema_lookup (df_schema (ddf_df texts_doc)) "text" = Some Utf8)
    by (vm_compute; reflexivity).
  split; [done|].
  exact (proj1 (set_document_spec texts_doc "text") H1).
Defined.

Lemma lazy_conversion_round_trip_witness :
  designated texts_doc ∧
  ∃ l, to_doclazyframe texts_doc = inr l ∧
       dlf_document_column_name l = Some (ddf_document_column_name texts_doc) ∧
       to_docdataframe l = inr texts_doc.
Proof.
  assert (H1 : designated texts_doc) by (vm_compute; reflexivity).
  split; [done|].
  exact (lazy_conversion_round_trip texts_doc H1).
Defined.

Lemma docdataframe_round_trip_witness :
  (designated texts_doc ∧
   pl_from_dict (Engine:=example_engine) (to_dict (ddf_df texts_doc)) = inr (ddf_df texts_doc)) ∧
  DocDataFrame_deserialize (H:=example_engine) (DocDataFrame_serialize texts_doc)
    = inr texts_doc.
Proof.
  assert (H1 : designated texts_doc) by (vm_compute; reflexivity).
  assert (H2 : pl_from_dict (Engine:=example_engine) (to_dict (ddf_df texts_doc))
               = inr (ddf_df texts_doc)) by (vm_compute; reflexivity).
  split; [done|].
  exact (docdataframe_round_trip (H:=example_engine) texts_doc H1 H2).
Defined.


Lemma remove_node_materializes_witness :
  (registered lazy_child_state 0 0 ∧
   heap lazy_child_state !! 0 = Some lazy_child_root ∧
   Forall (collects lazy_child_state) (children lazy_child_root)) ∧
  ∃ s', remove_node 0 0 true lazy_child_state = (Ret true, s') ∧
        (∀ j n, heap lazy_child_state !! j = Some n →
                ∃ n', heap s' !! j = Some n' ∧
                      data n' = if decide (j ∈ children lazy_child_root)
                                then materialized (data n) else data n) ∧
        (∀ c, c ∈ children lazy_child_root →
              ∃ n', heap s' !! c = Some n' ∧ is_lazy (data n') = false).
Proof.
  assert (H1 : registered lazy_child_state 0 0)
    by (apply (bool_decide_unpack _); vm_compute; exact I).
  assert (H2 : heap lazy_child_state !! 0 = Some lazy_child_root) by (vm_compute; reflexivity).
  assert (H3 : Forall (collects lazy_child_state) (children lazy_child_root)).
  { apply Forall_cons. split; [|constructor].
    eexists. split; [vm_compute; reflexivity|]. intros _. eexists. vm_compute. reflexivity. }
  split; [done|].
  exact (remove_node_materializes lazy_child_state 0 0 lazy_child_root H1 H2 H3).
Defined.

Lemma Node_init_keeps_edges_counted_witness :
  (Forall (fun p => is_Some (heap root_state !! p)) [0] ∧ edges_counted root_state) ∧
  edges_counted
    (run (Node_init (PlDataFrame texts_df) (Some "child") (Some 0) [0] None) root_state) ∧
  node_parents 1
    (run (Node_init (PlDataFrame texts_df) (Some "child") (Some 0) [0] None) root_state)
    = [0] ∧
  node_children 1
    (run (Node_init (PlDataFrame texts_df) (Some "child") (Some 0) [0] None) root_state)
    = [] ∧
  (∀ p, count 1 (node_children p
                   (run (Node_init (PlDataFrame texts_df) (Some "child") (Some 0) [0] None)
                      root_state)) = count p [0]) ∧
  (∀ j, children_matched
          (run (Node_init (PlDataFrame texts_df) (Some "child") (Some 0) [0] None) root_state)
          j).
Proof.
  assert (H1 : Forall (fun p => is_Some (heap root_state !! p)) [0])
    by (apply (bool_decide_unpack _); vm_compute; exact I).
  assert (H2 : edges_counted root_state).
  { assert (Hh : heap root_state = {[0 := root_node]}) by (vm_compute; reflexivity).
    intros p c. unfold node_children, node_parents. rewrite Hh.
    destruct (decide (p = 0)) as [->|Hp], (decide (c = 0)) as [->|Hc];
      rewrite ?lookup_singleton_eq, ?lookup_singleton_ne by done; reflexivity. }
  split; [done|].
  apply (Node_init_keeps_edges_counted root_state (PlDataFrame texts_df) (Some "child") 0 [0]
           None 1 _ H1 H2).
  vm_compute. reflexivity.
Defined.

Lemma round_trip_keeps_loadable_witness :
  ∃ doc, Workspace_serialize 0 undesignated_state = Some doc ∧
         ∀ i, registered (Workspace_deserialize (H:=example_engine) doc) 0 i ↔
              registered undesignated_state 0 i ∧
              is_Some (reload (H:=example_engine) undesignated_state 0 i).
Proof.
  eexists. split; [vm_compute; reflexivity|].
  apply (round_trip_keeps_loadable (H:=example_engine) undesignated_state 0).
  vm_compute. reflexivity.
Defined.

Lemma summary_counts_witness :
  Forall (fun i => is_Some (heap four_kinds_state !! i)) (ws_nodes 0 four_kinds_state) ∧
  ∃ r, summary 0 four_kinds_state = Some r ∧
       total_nodes r = Workspace_len 0 four_kinds_state ∧
       counted_total (node_types r) = total_nodes r ∧
       map fst (status_counts r) = ["lazy"; "materialized"] ∧
       counted_total (status_counts r) = total_nodes r ∧
       root_nodes r ≤ total_nodes r ∧ leaf_nodes r ≤ total_nodes r.
Proof.
  assert (H1 : Forall (fun i => is_Some (heap four_kinds_state !! i))
                 (ws_nodes 0 four_kinds_state))
    by (apply (bool_decide_unpack _); vm_compute; exact I).
  split; [done|].
  eexists. split; [vm_compute; reflexivity|].
  apply (summary_counts 0 four_kinds_state _ H1). vm_compute. reflexivity.
Defined.

Lemma deserialize_well_formed_witness :
  document_in_model patched_document ∧
  (∃ ws, spaces (Workspace_deserialize (H:=example_engine) patched_document) !! 7 = Some ws ∧
         ws_name ws = "restored" ∧ ws_metadata ws = [("owner", "lab")]) ∧
  ws_nodes 7 (Workspace_deserialize (H:=example_engine) patched_document) = [0; 1] ∧
  node_children 0 (Workspace_deserialize (H:=example_engine) patched_document) = [1] ∧
  ownership (Workspace_deserialize (H:=example_engine) patched_document) ∧
  children_allocated (Workspace_deserialize (H:=example_engine) patched_document) ∧
  ∀ p c, c ∈ node_children p (Workspace_deserialize (H:=example_engine) patched_document) ↔
         p ∈ node_parents c (Workspace_deserialize (H:=example_engine) patched_document).
Proof.
  assert (H1 : document_in_model patched_document).
  { unfold document_in_model. apply (bool_decide_unpack _). vm_compute. exact I. }
  split; [done|].
  destruct (deserialize_well_formed (H:=example_engine) patched_document H1)
    as (Hws & _ & _ & _ & _ & _ & Hown & Halloc & Hsym).
  split; [exact Hws|]. split; [vm_compute; reflexivity|]. split; [vm_compute; reflexivity|].
  split; [exact Hown|]. split; [exact Halloc|exact Hsym].
Defined.
